(** * graphql-mesh runtime: [getMesh] (packages/runtime/src/get-mesh.ts)

    A shallow embedding of the gateway construction code and of the
    closures it returns:

    - [Registry]: the source loading loop (Promise.allSettled over the
      configured sources, the [failed] flag, the [rawSources] array);
    - [InContextSDK]: the per-field callable installed under
      [context.<source>.<rootType>.<field>] and the loop that builds it;
    - [Pipeline]: [memoize1], [memoizedGetOperationType],
      [memoizedGetEnvelopedFactory], [meshExecute], [meshSubscribe];
    - [Requester]: [sdkRequesterFactory].

    JavaScript objects whose identity matters (resolve infos, documents,
    context values, plugin lists, enveloped pipelines) carry an explicit
    reference; WeakMaps keyed by identity are finite maps keyed by that
    reference.  Calls into other packages (delegateToSchema,
    batchDelegateToSchema, envelop's execute/subscribe, the merger) are
    recorded as the call that is made, with its options. *)

From stdpp Require Import gmap strings list pretty.
From Stdlib Require Import ZArith Ascii.


(** ** JavaScript values and completions *)

(** The values the runtime passes through without inspecting them
    (root values, arguments, variables, payloads). *)
Inductive JsValue :=
| JsUndefined
| JsNull
| JsBool (b : bool)
| JsNumber (n : Z)
| JsString (s : string)
| JsObject (ref : positive).

(** Thrown values: [new Error(message)] and the engine's own TypeError. *)
Inductive JsError :=
| Error (message : string)
| TypeError (message : string).

(** How a synchronous call completes: it returns, or it throws. *)
Inductive Completion (A : Type) :=
| Returns (a : A)
| Throws (e : JsError).
Arguments Returns {A} a.
Arguments Throws {A} e.

(** The state a promise settles in.  An [async function] never throws:
    it returns a promise, rejected when its body throws. *)
Inductive Settled (A : Type) :=
| Fulfilled (a : A)
| Rejected (e : JsError).
Arguments Fulfilled {A} a.
Arguments Rejected {A} e.

(** ** The parts of graphql-js the runtime uses *)

Module GraphQL.

Inductive TypeKind :=
| ScalarKind | EnumKind | ObjectKind | InterfaceKind | UnionKind | InputObjectKind.

Record NamedType := { nt_name : string; nt_kind : TypeKind }.

(** A field's declared type: a named type under list and non-null wrappers. *)
Inductive GraphQLType :=
| TNamed (t : NamedType)
| TList (ofType : GraphQLType)
| TNonNull (ofType : GraphQLType).

Fixpoint getNamedType (t : GraphQLType) : NamedType :=
  match t with
  | TNamed n => n
  | TList t' => getNamedType t'
  | TNonNull t' => getNamedType t'
  end.

(** [isLeafType]: scalars and enums. *)
Definition isLeafType (t : NamedType) : bool :=
  match nt_kind t with
  | ScalarKind | EnumKind => true
  | _ => false
  end.

Inductive OperationTypeNode := query | mutation | subscription.

(** Selections.  A field may carry a nested selection set. *)
#[warnings="-register-all"]
Inductive SelectionNode :=
| FieldSelection (name : string) (selectionSet : option (list SelectionNode))
| FragmentSpread (name : string)
| InlineFragment (selectionSet : list SelectionNode).

(** [{ kind: Kind.SELECTION_SET, selections }] *)
Record SelectionSetNode := { selections : list SelectionNode }.

(** A field node as [info.fieldNodes] holds it.  Every property is
    optional here because the runtime also builds one by spreading
    [info.fieldNodes[0]], which is [undefined] for an empty array. *)
Record FieldNode := {
  fn_kind : option string;
  fn_name : option string;
  fn_selectionSet : option SelectionSetNode;
}.

Inductive DefinitionNode :=
| OperationDefinition (operation : OperationTypeNode) (name : option string)
| FragmentDefinition (name : string)
| TypeSystemDefinition (name : string).

(** A parsed document.  [doc_ref] is the identity of the object. *)
Record DocumentNode := {
  doc_ref : positive;
  doc_definitions : list DefinitionNode;
}.

(** A root object type: its name and [getFields()] in declaration order. *)
Record ObjectType := {
  ot_name : string;
  ot_fields : list (string * GraphQLType);
}.

Record GraphQLSchema := {
  schema_ref : positive;
  getQueryType : option ObjectType;
  getMutationType : option ObjectType;
  getSubscriptionType : option ObjectType;
  schema_directives : list string;
}.

Record Path := {
  path_typename : string;
  path_key : string;
  (* prev: undefined *)
}.

(** [GraphQLResolveInfo], with the properties the default value of the
    callable's [info] parameter sets ([cacheControl], which no code here
    reads, apart). *)
Record ResolveInfo := {
  fieldName : string;
  fieldNodes : list FieldNode;
  returnType : GraphQLType;
  parentType : ObjectType;
  path : Path;
  schema : GraphQLSchema;
  fragments : list (string * DefinitionNode);
  rootValue : JsValue;
  operation : OperationTypeNode;
  operation_selections : list SelectionNode;
  variableValues : list (string * JsValue);
}.

End GraphQL.
Export GraphQL.

(** ** Records of @graphql-mesh/types and @graphql-tools/delegate *)

Module MeshTypes.

(** A transform.  [noWrap] is the flag [groupTransforms] partitions on;
    [transformSchema] is what a bare transform does to a schema: it
    returns a schema, or throws. *)
Record MeshTransform := {
  transform_name : string;
  noWrap : bool;
  transformSchema : GraphQLSchema -> Completion GraphQLSchema;
}.

(** What [handler.getMeshSource()] resolves to.  [ms_batch] is [None]
    when the object has no [batch] property. *)
Record MeshSource := {
  ms_schema : GraphQLSchema;
  ms_executor : positive;
  ms_contextVariables : option (list (string * string));
  ms_batch : option bool;
}.

(** A source handler: its identity and what a call of
    [getMeshSource()] does: it throws at once, or it returns a promise,
    which settles. *)
Record MeshHandler := {
  handler_ref : positive;
  getMeshSource : Completion (Settled MeshSource);
}.

(** One entry of [options.sources]. *)
Record ApiSource := {
  as_name : string;
  as_handler : MeshHandler;
  as_transforms : option (list MeshTransform);
  as_merge : option positive;
}.

(** [RawSourceOutput].  [rs_transforms] is [None] when the local
    [transforms] variable was left unassigned. *)
Record RawSourceOutput := {
  rs_name : string;
  rs_schema : GraphQLSchema;
  rs_executor : positive;
  rs_transforms : option (list MeshTransform);
  rs_contextVariables : list (string * string);
  rs_handler : MeshHandler;
  rs_batch : bool;
  rs_merge : option positive;
}.

(** A key of [stitchingInfo.subschemaMap]; the runtime reads its
    [name] property through an [any] cast. *)
Record SubschemaConfig := {
  sc_ref : positive;
  sc_name : option string;
}.

(** A value of [stitchingInfo.subschemaMap]. *)
Record Subschema := {
  subschema_ref : positive;
  subschema_name : option string;
}.

(** A JavaScript [Map] iterates in insertion order. *)
Record StitchingInfo := {
  subschemaMap : list (SubschemaConfig * Subschema);
}.

(** The merger's result: the merged schema and its two extensions. *)
Record UnifiedSchema := {
  us_schema : GraphQLSchema;
  us_sourceMap : RawSourceOutput -> option GraphQLSchema;
  us_stitchingInfo : option StitchingInfo;
}.

End MeshTypes.
Export MeshTypes.

(** ** External functions

    Functions of other packages whose result the runtime uses.  They are
    parameters of the development; [Reference] below gives the instances
    that the closed examples run on. *)

(** graphql's [print] and [getOperationAST (document, undefined)], and
    @graphql-tools/utils' [parseSelectionSet]. *)
Class GraphQLTools := {
  parseSelectionSet : string -> SelectionSetNode;
  print : DocumentNode -> string;
  getOperationAST : DocumentNode -> option OperationTypeNode;
}.

(** @graphql-mesh/utils' [groupTransforms] (the wrap and the no-wrap
    transforms of a list) and [applySchemaTransforms], which runs the
    transforms it is given and throws when one of them does. *)
Class MeshUtils := {
  groupTransforms : option (list MeshTransform) -> list MeshTransform * list MeshTransform;
  applySchemaTransforms :
    GraphQLSchema -> MeshSource -> list MeshTransform -> Completion GraphQLSchema;
}.

(** ** The in-context SDK (get-mesh.ts, lines 156-326) *)

Module InContextSDK.

(** [SelectionSetParam]: text, a document, or a selection set node. *)
Inductive SelectionSetParam :=
| SelectionText (text : string)
| SelectionDocument (document : DocumentNode)
| SelectionAst (node : SelectionSetNode).

(** [SelectionSetParamOrFactory]: a param, or a function to one. *)
Inductive SelectionSetParamOrFactory :=
| SelectionParam (param : SelectionSetParam)
| SelectionFactory (factory : SelectionSetNode -> SelectionSetParam).

Definition ArgsFromKeys := list string -> JsValue.
Definition ValuesFromResults := JsValue -> option (list string) -> JsValue.

(** The argument object of a callable.  [None] is a property that is
    absent (undefined).  [cp_info] refers to a resolve info object of
    the store; a reference under which the store holds no object stands
    for an [info] that is no object ([null]). *)
Record CallParams := {
  cp_root : JsValue;
  cp_args : JsValue;
  cp_context : JsValue;
  cp_info : option positive;
  cp_selectionSet : option SelectionSetParamOrFactory;
  cp_key : option string;
  cp_argsFromKeys : option ArgsFromKeys;
  cp_valuesFromResults : option ValuesFromResults;
}.

(** The resolve info objects of the heap, by reference. *)
Abbreviation Store := (gmap positive ResolveInfo).

(** A new object gets a reference no object of the store has. *)
Definition alloc (i : ResolveInfo) (σ : Store) : positive * Store :=
  let r := fresh (dom σ) in (r, <[r := i]> σ).

(** [schema:] of the delegation options: the raw source itself, or a
    subschema of the stitching info. *)
Inductive DelegationTarget :=
| RawSourceTarget (rawSource : RawSourceOutput)
| SubschemaTarget (subschema : Subschema).

(** What one callable closes over: the variables of the three loops
    around it. *)
Record FieldClosure := {
  cl_rawSource : RawSourceOutput;
  cl_rawSourceSubSchemaConfig : option DelegationTarget;
  cl_transformedSchema : GraphQLSchema;
  cl_rootType : ObjectType;
  cl_operationType : OperationTypeNode;
  cl_fieldName : string;
  cl_fieldType : GraphQLType;   (* rootTypeField.type *)
}.

Definition namedReturnType (cl : FieldClosure) : NamedType :=
  getNamedType (cl_fieldType cl).

Definition shouldHaveSelectionSet (cl : FieldClosure) : bool :=
  negb (isLeafType (namedReturnType cl)).

(** JavaScript truthiness of the two parameters the callable tests:
    [undefined] and the empty string are falsy, every object and
    function is truthy. *)
Definition truthySelectionSet (s : option SelectionSetParamOrFactory) : bool :=
  match s with
  | None => false
  | Some (SelectionParam (SelectionText "")) => false
  | Some _ => true
  end.

Definition truthyKey (k : option string) : bool :=
  match k with
  | None => false
  | Some "" => false
  | Some _ => true
  end.

(** [typeof selectionSet === 'function'] *)
Definition isFunction (s : option SelectionSetParamOrFactory) : bool :=
  match s with
  | Some (SelectionFactory _) => true
  | _ => false
  end.

(** [new WrapQuery(path, wrapper, extractor)] *)
Record WrapQuery := {
  wq_path : list string;
  wq_wrapper : SelectionSetNode -> SelectionSetNode;
  wq_extractor : JsValue -> JsValue;
}.

(** [IDelegateToSchemaOptions], the part both paths share. *)
Record CommonDelegateOptions := {
  opt_schema : option DelegationTarget;
  opt_rootValue : JsValue;
  opt_operation : OperationTypeNode;
  opt_fieldName : string;
  opt_context : JsValue;
  opt_transformedSchema : GraphQLSchema;
  opt_info : positive;
  opt_returnType : option GraphQLType;
}.

Definition set_returnType (t : GraphQLType) (o : CommonDelegateOptions) :=
  {| opt_schema := opt_schema o; opt_rootValue := opt_rootValue o;
     opt_operation := opt_operation o; opt_fieldName := opt_fieldName o;
     opt_context := opt_context o; opt_transformedSchema := opt_transformedSchema o;
     opt_info := opt_info o; opt_returnType := Some t |}.

Definition set_info (r : positive) (o : CommonDelegateOptions) :=
  {| opt_schema := opt_schema o; opt_rootValue := opt_rootValue o;
     opt_operation := opt_operation o; opt_fieldName := opt_fieldName o;
     opt_context := opt_context o; opt_transformedSchema := opt_transformedSchema o;
     opt_info := r; opt_returnType := opt_returnType o |}.

(** [{ ...commonDelegateOptions, args }] and its [transforms]. *)
Record RegularDelegateOptions := {
  reg_common : CommonDelegateOptions;
  reg_args : JsValue;
  reg_transforms : option (list WrapQuery);
}.

(** [{ ...commonDelegateOptions, key, argsFromKeys, valuesFromResults }]
    and its [transforms]. *)
Record BatchDelegationOptions := {
  batch_common : CommonDelegateOptions;
  batch_key : string;
  batch_argsFromKeys : ArgsFromKeys;
  batch_valuesFromResults : option ValuesFromResults;
  batch_transforms : option (list WrapQuery);
}.

(** The call the callable ends with; its value is what the callable
    returns. *)
Inductive Delegation :=
| delegateToSchema (options : RegularDelegateOptions)
| batchDelegateToSchema (options : BatchDelegationOptions).

Definition commonOptions (d : Delegation) : CommonDelegateOptions :=
  match d with
  | delegateToSchema o => reg_common o
  | batchDelegateToSchema o => batch_common o
  end.

Definition identical (val : JsValue) : JsValue := val.

Section Normalize.
Context `{GraphQLTools}.

Definition normalizeSelectionSetParam (selectionSetParam : SelectionSetParam)
  : SelectionSetNode :=
  match selectionSetParam with
  | SelectionText s => parseSelectionSet s
  | SelectionDocument d => parseSelectionSet (print d)
  | SelectionAst n => n
  end.

Definition normalizeSelectionSetParamOrFactory
    (selectionSetParamOrFactory : SelectionSetParamOrFactory)
  : SelectionSetNode -> SelectionSetNode :=
  fun subtree =>
    match selectionSetParamOrFactory with
    | SelectionFactory f => normalizeSelectionSetParam (f subtree)
    | SelectionParam p => normalizeSelectionSetParam p
    end.
End Normalize.


Section Callable.
Context `{GraphQLTools}.

(** The default value of the [info] parameter, built when the caller
    passes none. *)
Definition defaultInfo (cl : FieldClosure) (root : JsValue) : ResolveInfo :=
  {| fieldName := cl_fieldName cl;
     fieldNodes := [];
     returnType := TNamed (namedReturnType cl);
     parentType := cl_rootType cl;
     path := {| path_typename := ot_name (cl_rootType cl);
                path_key := cl_fieldName cl |};
     schema := cl_transformedSchema cl;
     fragments := [];
     rootValue := root;
     operation := cl_operationType cl;
     operation_selections := [];
     variableValues := [] |}.

(** The loop over [info.fieldNodes] that sums
    [fieldNode.selectionSet.selections.length]. *)
Definition selectionCount (info : ResolveInfo) : nat :=
  fold_left
    (fun count fieldNode =>
       match fn_selectionSet fieldNode with
       | Some selectionSet => count + length (selections selectionSet)
       | None => count
       end)
    (fieldNodes info) 0.

(** [{ kind: SELECTION_SET, selections: [{ kind: FIELD, name: __typename }] }] *)
Definition typenameSelectionSet : SelectionSetNode :=
  {| selections := [FieldSelection "__typename" None] |}.

(** [{ ...info.fieldNodes[0], selectionSet: ... }]: spreading [undefined]
    copies no property. *)
Definition patchedFieldNode (first : option FieldNode) : FieldNode :=
  match first with
  | Some n => {| fn_kind := fn_kind n; fn_name := fn_name n;
                 fn_selectionSet := Some typenameSelectionSet |}
  | None => {| fn_kind := None; fn_name := None;
               fn_selectionSet := Some typenameSelectionSet |}
  end.

(** [{ ...info, fieldNodes: [patched, ...info.fieldNodes.slice(1)] }] *)
Definition patchedInfo (info : ResolveInfo) : ResolveInfo :=
  {| fieldName := fieldName info;
     fieldNodes := patchedFieldNode (fieldNodes info !! 0) :: drop 1 (fieldNodes info);
     returnType := returnType info;
     parentType := parentType info;
     path := path info;
     schema := schema info;
     fragments := fragments info;
     rootValue := rootValue info;
     operation := operation info;
     operation_selections := operation_selections info;
     variableValues := variableValues info |}.

Definition missingSelectionSet (cl : FieldClosure) : JsError :=
  Error ("You have to provide 'selectionSet' for context."
           +:+ rs_name (cl_rawSource cl) +:+ "."
           +:+ ot_name (cl_rootType cl) +:+ "."
           +:+ cl_fieldName cl).

(** [key && argsFromKeys]: both operands when both are truthy. *)
Definition keyAndArgsFromKeys (p : CallParams) : option (string * ArgsFromKeys) :=
  match cp_key p, cp_argsFromKeys p with
  | Some key, Some argsFromKeys =>
      if truthyKey (Some key) then Some (key, argsFromKeys) else None
  | _, _ => None
  end.

(** The [transforms] both paths attach under [if (selectionSet)]. *)
Definition wrapQueryTransforms (cl : FieldClosure)
    (selectionSet : option SelectionSetParamOrFactory)
    (extractor : JsValue -> JsValue) : option (list WrapQuery) :=
  match selectionSet with
  | Some s =>
      if truthySelectionSet selectionSet
      then Some [ {| wq_path := [cl_fieldName cl];
                     wq_wrapper := normalizeSelectionSetParamOrFactory s;
                     wq_extractor := extractor |} ]
      else None
  | None => None
  end.

(** Lines 244-256: [commonDelegateOptions] as first built, with the
    [returnType] assigned unless [selectionSet] is a function. *)
Definition initialDelegateOptions (cl : FieldClosure) (p : CallParams)
    (info : positive) : CommonDelegateOptions :=
  let commonDelegateOptions :=
    {| opt_schema := cl_rawSourceSubSchemaConfig cl;
       opt_rootValue := cp_root p;
       opt_operation := cl_operationType cl;
       opt_fieldName := cl_fieldName cl;
       opt_context := cp_context p;
       opt_transformedSchema := cl_transformedSchema cl;
       opt_info := info;
       opt_returnType := None |} in
  if isFunction (cp_selectionSet p) then commonDelegateOptions
  else set_returnType (cl_fieldType cl) commonDelegateOptions.

(** Lines 244-292: [commonDelegateOptions] when the dispatch is reached,
    or the error thrown before it. *)
Definition buildCommonDelegateOptions (cl : FieldClosure) (p : CallParams)
    (info : positive) (σ : Store) : Completion CommonDelegateOptions * Store :=
  let commonDelegateOptions := initialDelegateOptions cl p info in
  if shouldHaveSelectionSet cl then
    match σ !! info with
    | None =>
        (Throws (TypeError "Cannot read properties of null (reading 'fieldNodes')"), σ)
    | Some infoObject =>
        if (selectionCount infoObject =? 0)%nat then
          if negb (truthySelectionSet (cp_selectionSet p)) then
            (Throws (missingSelectionSet cl), σ)
          else
            let '(patched, σ') := alloc (patchedInfo infoObject) σ in
            (Returns (set_info patched commonDelegateOptions), σ')
        else (Returns commonDelegateOptions, σ)
    end
  else (Returns commonDelegateOptions, σ).

(** Lines 293-319: the choice between the two delegation calls. *)
Definition dispatch (cl : FieldClosure) (p : CallParams)
    (commonDelegateOptions : CommonDelegateOptions) : Delegation :=
  match keyAndArgsFromKeys p with
  | Some (key, argsFromKeys) =>
      batchDelegateToSchema
        {| batch_common := commonDelegateOptions;
           batch_key := key;
           batch_argsFromKeys := argsFromKeys;
           batch_valuesFromResults := cp_valuesFromResults p;
           batch_transforms :=
             wrapQueryTransforms cl (cp_selectionSet p) identical |}
  | None =>
      delegateToSchema
        {| reg_common := commonDelegateOptions;
           reg_args := cp_args p;
           reg_transforms :=
             wrapQueryTransforms cl (cp_selectionSet p)
               match cp_valuesFromResults p with
               | Some valuesFromResults => fun result => valuesFromResults result None
               | None => identical
               end |}
  end.

(** The callable stored at [rawSourceContext[rootType.name][fieldName]].
    It returns the delegation call it makes (whose value it returns), or
    throws; the store gains the objects it creates.  The logger call at
    its start does not enter the control flow and is left out. *)
Definition inContextCallable (cl : FieldClosure) (p : CallParams) (σ : Store)
  : Completion Delegation * Store :=
  let '(info, σ) :=
    match cp_info p with
    | Some info => (info, σ)
    | None => alloc (defaultInfo cl (cp_root p)) σ
    end in
  match buildCommonDelegateOptions cl p info σ with
  | (Throws e, σ) => (Throws e, σ)
  | (Returns commonDelegateOptions, σ) =>
      (Returns (dispatch cl p commonDelegateOptions), σ)
  end.

End Callable.

(** Lines 165-176: the loop over [stitchingInfo.subschemaMap], left at
    the first entry whose config has the raw source's name. *)
Fixpoint findSubschemaByName (entries : list (SubschemaConfig * Subschema))
    (name : string) : option Subschema :=
  match entries with
  | [] => None
  | (subschemaConfig, subschema) :: rest =>
      if decide (sc_name subschemaConfig = Some name) then Some subschema
      else findSubschemaByName rest name
  end.

(** The value of the local [rawSourceSubSchemaConfig]; [None] when the
    loop ends without assigning it. *)
Definition rawSourceSubSchemaConfig (stitchingInfo : option StitchingInfo)
    (rawSource : RawSourceOutput) : option DelegationTarget :=
  match stitchingInfo with
  | Some stitchingInfo =>
      SubschemaTarget <$> findSubschemaByName (subschemaMap stitchingInfo) (rs_name rawSource)
  | None => Some (RawSourceTarget rawSource)
  end.

Definition rootTypes (transformedSchema : GraphQLSchema)
  : list (OperationTypeNode * option ObjectType) :=
  [ (query, getQueryType transformedSchema);
    (mutation, getMutationType transformedSchema);
    (subscription, getSubscriptionType transformedSchema) ].

(** [rawSourceContext[rootType.name]]: one callable per field of the
    root type. *)
Definition rootTypeCallables (rawSource : RawSourceOutput)
    (target : option DelegationTarget) (transformedSchema : GraphQLSchema)
    (operationType : OperationTypeNode) (rootType : ObjectType)
  : gmap string FieldClosure :=
  fold_left
    (fun callables '(fieldName, type) =>
       <[fieldName :=
           {| cl_rawSource := rawSource;
              cl_rawSourceSubSchemaConfig := target;
              cl_transformedSchema := transformedSchema;
              cl_rootType := rootType;
              cl_operationType := operationType;
              cl_fieldName := fieldName;
              cl_fieldType := type |}]> callables)
    (ot_fields rootType) ∅.

(** [rawSourceContext]: the raw source and, by root type name, the
    callables of that root type. *)
Record RawSourceContext := {
  ctx_rawSource : RawSourceOutput;
  ctx_rootTypes : gmap string (gmap string FieldClosure);
}.

Definition buildRawSourceContext (stitchingInfo : option StitchingInfo)
    (rawSource : RawSourceOutput) (transformedSchema : GraphQLSchema)
  : RawSourceContext :=
  let target := rawSourceSubSchemaConfig stitchingInfo rawSource in
  {| ctx_rawSource := rawSource;
     ctx_rootTypes :=
       fold_left
         (fun rawSourceContext '(operationType, rootType) =>
            match rootType with
            | Some rootType =>
                <[ot_name rootType :=
                    rootTypeCallables rawSource target transformedSchema
                      operationType rootType]> rawSourceContext
            | None => rawSourceContext
            end)
         (rootTypes transformedSchema) ∅ |}.

(** Lines 156-326: [meshContext[rawSource.name] = rawSourceContext] for
    every raw source.  [sourceMap.get(rawSource)] is [undefined] for a
    raw source the map does not hold, and calling [getQueryType] on it
    rejects the [Promise.all]. *)
Definition buildInContextSDK (unifiedSchema : UnifiedSchema)
    (rawSources : list RawSourceOutput) : Settled (gmap string RawSourceContext) :=
  fold_left
    (fun built rawSource =>
       match built with
       | Rejected e => Rejected e
       | Fulfilled meshContext =>
           match us_sourceMap unifiedSchema rawSource with
           | Some transformedSchema =>
               Fulfilled
                 (<[rs_name rawSource :=
                      buildRawSourceContext (us_stitchingInfo unifiedSchema)
                        rawSource transformedSchema]> meshContext)
           | None =>
               Rejected
                 (TypeError "Cannot read properties of undefined (reading 'getQueryType')")
           end
       end)
    rawSources (Fulfilled ∅).

(** [meshContext[source][rootType][field]] *)
Definition lookupCallable (meshContext : gmap string RawSourceContext)
    (source rootType field : string) : option FieldClosure :=
  rawSourceContext ← meshContext !! source;
  callables ← ctx_rootTypes rawSourceContext !! rootType;
  callables !! field.

End InContextSDK.

(** ** Loading the sources (get-mesh.ts, lines 87-137) *)

Module Registry.

(** Calls of the loggers: [logger.child(name).debug] and [.error]. *)
Inductive LogEntry :=
| LogDebug (logger : string) (message : string)
| LogError (logger : string) (message : string) (e : JsError).

(** The variables the callbacks share: the [rawSources] array, the
    [failed] flag, and what has been logged. *)
Record LoadState := {
  rawSources : list RawSourceOutput;
  failed : bool;
  log : list LogEntry;
}.

Definition initialLoadState : LoadState :=
  {| rawSources := []; failed := false;
     log := [LogDebug "GetMesh" "Getting subschemas from source handlers"] |}.

Definition schemasNotGenerated : JsError :=
  Error "Schemas couldn't be generated successfully. Check for the logs by running Mesh with DEBUG=1 environmental variable to get more verbose output.".

Definition logged (entries : list LogEntry) (st : LoadState) : LoadState :=
  {| rawSources := rawSources st; failed := failed st; log := log st ++ entries |}.

(** Lines 124-127: the [catch] block.  It takes whatever the [try]
    block throws: a call of [getMeshSource()] that throws at once, the
    rejection of the promise awaited, and an error thrown after the
    [await]. *)
Definition caught (apiSource : ApiSource) (e : JsError) (st : LoadState) : LoadState :=
  {| rawSources := rawSources st;
     failed := true;
     log := log st ++ [LogError (as_name apiSource) "Failed to generate the schema" e] |}.

(** The object literal of lines 113-122. *)
Definition rawSourceRecord (apiSource : ApiSource) (source : MeshSource)
    (apiSchema : GraphQLSchema) (transforms : option (list MeshTransform))
  : RawSourceOutput :=
  {| rs_name := as_name apiSource;
     rs_schema := apiSchema;
     rs_executor := ms_executor source;
     rs_transforms := transforms;
     rs_contextVariables := default [] (ms_contextVariables source);
     rs_handler := as_handler apiSource;
     rs_batch := default true (ms_batch source);
     rs_merge := as_merge apiSource |}.

Section Load.
Context `{MeshUtils}.

(** A callback up to its [await]: it logs and calls
    [apiSource.handler.getMeshSource()].  When the call throws, the
    [catch] block runs at once and the callback is over; when it
    returns a promise, the callback waits for it. *)
Definition startSource (st : LoadState) (apiSource : ApiSource) : LoadState :=
  let st := logged [LogDebug (as_name apiSource) "Generating the schema"] st in
  match getMeshSource (as_handler apiSource) with
  | Throws e => caught apiSource e st
  | Returns _ => st
  end.

(** Lines 105-107: the no-wrap transforms, when there are some and no
    wrap transform. *)
Definition bareTransforms (apiSource : ApiSource) : option (list MeshTransform) :=
  let '(wrapTransforms, noWrapTransforms) := groupTransforms (as_transforms apiSource) in
  if (length wrapTransforms =? 0)%nat && negb (length noWrapTransforms =? 0)%nat
  then Some noWrapTransforms
  else None.

(** Lines 99-123 without the logging: the [RawSourceOutput] pushed for
    a source whose handler resolved to [source], or the error thrown by
    [applySchemaTransforms] when a bare transform throws. *)
Definition rawSourceOf (apiSource : ApiSource) (source : MeshSource)
  : Completion RawSourceOutput :=
  match bareTransforms apiSource with
  | Some noWrapTransforms =>
      match applySchemaTransforms (ms_schema source) source noWrapTransforms with
      | Returns apiSchema => Returns (rawSourceRecord apiSource source apiSchema None)
      | Throws e => Throws e
      end
  | None =>
      Returns (rawSourceRecord apiSource source (ms_schema source)
                 (as_transforms apiSource))
  end.

(** What the callback logs between the [await] and the call of
    [applySchemaTransforms] or the push. *)
Definition resolvedLog (apiSource : ApiSource) : list LogEntry :=
  [LogDebug (as_name apiSource) "The schema has been generated successfully";
   LogDebug (as_name apiSource) "Analyzing transforms"]
  ++ match bareTransforms apiSource with
     | Some noWrapTransforms =>
         [LogDebug (as_name apiSource)
            (pretty (length noWrapTransforms) +:+ " bare transforms found and applying")]
     | None => []
     end.

(** A callback from its [await] on, run when the promise of its handler
    has settled: the rest of the [try] block, which ends with the push
    or with a throw, or the [catch] block.  Nothing is left to run for
    a callback whose handler threw when it was called. *)
Definition resumeSource (st : LoadState) (apiSource : ApiSource) : LoadState :=
  match getMeshSource (as_handler apiSource) with
  | Throws _ => st
  | Returns (Rejected e) => caught apiSource e st
  | Returns (Fulfilled source) =>
      let st := logged (resolvedLog apiSource) st in
      match rawSourceOf apiSource source with
      | Returns rawSource =>
          {| rawSources := rawSources st ++ [rawSource];
             failed := failed st;
             log := log st |}
      | Throws e => caught apiSource e st
      end
  end.

(** [await Promise.allSettled(sources.map(async apiSource => ...))].
    Every callback is started in the order of [sources], and runs to
    its [await] or, when its handler throws at once, to its end; each
    waiting callback is resumed when the promise of its handler
    settles.  [completion] lists the indices of the sources in the
    order their callbacks end the wait; the await of [allSettled] ends
    when all of it has been run. *)
Definition loadSources (sources : list ApiSource) (completion : list nat) : LoadState :=
  fold_left
    (fun st i =>
       match sources !! i with
       | Some apiSource => resumeSource st apiSource
       | None => st
       end)
    completion
    (fold_left startSource sources initialLoadState).

(** Lines 131-137: the [failed] test after the await. *)
Definition generateSchemas (sources : list ApiSource) (completion : list nat)
  : Settled (list RawSourceOutput) * list LogEntry :=
  let st := loadSources sources completion in
  if failed st then (Rejected schemasNotGenerated, log st)
  else (Fulfilled (rawSources st),
        log st ++ [LogDebug "GetMesh" "Schemas have been generated by the source handlers"]).

(** How the callback of a source ends: with the raw source it pushes,
    or with the error its [catch] block takes. *)
Definition loadOutcome (apiSource : ApiSource) : Completion RawSourceOutput :=
  match getMeshSource (as_handler apiSource) with
  | Throws e => Throws e
  | Returns (Rejected e) => Throws e
  | Returns (Fulfilled source) => rawSourceOf apiSource source
  end.

(** The handler resolved and a bare transform threw on its schema. *)
Definition transformsThrow (apiSource : ApiSource) : bool :=
  match getMeshSource (as_handler apiSource) with
  | Returns (Fulfilled source) =>
      match rawSourceOf apiSource source with
      | Throws _ => true
      | Returns _ => false
      end
  | _ => false
  end.

(** In the state [st] the load attempt of a source is over: its raw
    source has been pushed, or its error has been logged. *)
Definition attemptEnded (st : LoadState) (apiSource : ApiSource) : Prop :=
  match loadOutcome apiSource with
  | Returns rawSource => rawSource ∈ rawSources st
  | Throws e =>
      LogError (as_name apiSource) "Failed to generate the schema" e ∈ log st
  end.

End Load.

(** The handler fails: the call throws, or the promise is rejected. *)
Definition handlerThrows (apiSource : ApiSource) : bool :=
  match getMeshSource (as_handler apiSource) with
  | Returns (Fulfilled _) => false
  | _ => true
  end.

End Registry.

(** ** The execution pipeline (get-mesh.ts, lines 58-71 and 344-386) *)

Module Pipeline.

(** The identity of a context value: an object the caller built, the
    [EMPTY_CONTEXT_VALUE] of a mesh instance, or an object the requester
    built by spreading ([n] counts them). *)
Inductive ContextRef :=
| CallerContext (ref : positive)
| EmptyContextValue (plugins : positive)
| MergedContext (n : nat).

#[global] Instance ContextRef_eq_dec : EqDecision ContextRef.
Proof. solve_decision. Defined.

Definition ContextRef_encode (c : ContextRef) : positive + (positive + nat) :=
  match c with
  | CallerContext r => inl r
  | EmptyContextValue g => inr (inl g)
  | MergedContext n => inr (inr n)
  end.

Definition ContextRef_decode (s : positive + (positive + nat)) : ContextRef :=
  match s with
  | inl r => CallerContext r
  | inr (inl g) => EmptyContextValue g
  | inr (inr n) => MergedContext n
  end.

Lemma ContextRef_decode_encode c : ContextRef_decode (ContextRef_encode c) = c.
Proof. by destruct c. Qed.

#[global] Instance ContextRef_countable : Countable ContextRef :=
  inj_countable' ContextRef_encode ContextRef_decode ContextRef_decode_encode.

(** A context value: the object's identity and its properties. *)
Record ContextValue := {
  ctx_ref : ContextRef;
  ctx_fields : gmap string JsValue;
}.

(** What [memoizedGetEnvelopedFactory(plugins)] returns: the memoized
    [getEnvelopedByContext] closure built over [envelop({ plugins })]. *)
Record EnvelopedFactory := {
  factory_ref : positive;
  factory_plugins : positive;
}.

(** What [getEnveloped(initialContext)] returns: an object holding
    [execute], [subscribe], [contextFactory] and [parse], bound to the
    plugin list and to the initial context it was created for. *)
Record Enveloped := {
  env_ref : positive;
  env_plugins : positive;
  env_initialContext : ContextRef;
}.

(** The argument of envelop's [execute] and [subscribe]. *)
Record ExecutionArgs := {
  ea_document : DocumentNode;
  ea_contextValue : gmap string JsValue;
  ea_rootValue : JsValue;
  ea_variableValues : JsValue;
  ea_schema : GraphQLSchema;
  ea_operationName : option string;
}.

(** An execution result: [er_data] is [JsUndefined] and [er_errors] is
    [None] for a property the object does not have. *)
Record ExecutionResult := {
  er_data : JsValue;
  er_errors : option (list JsError);
}.

(** What [execute] and [subscribe] resolve to: one result (which the
    code lets be null or undefined, read through [?.]), or an async
    iterable, given by the results it yields, in order. *)
Inductive ExecutionOutcome :=
| SingleResult (result : option ExecutionResult)
| AsyncIterable (results : list (option ExecutionResult)).

(** The functions of an enveloped pipeline; they belong to @envelop/core
    and the plugins. *)
Class Envelop := {
  envelopParse : Enveloped -> string -> DocumentNode;
  envelopContextFactory : Enveloped -> gmap string JsValue -> gmap string JsValue;
  envelopExecute : Enveloped -> ExecutionArgs -> Settled ExecutionOutcome;
  envelopSubscribe : Enveloped -> ExecutionArgs -> Settled ExecutionOutcome;
}.

(** Calls that leave the module. *)
Inductive Event :=
| CalledGetOperationAST (document : positive)
| CalledEnvelop (plugins : positive)
| CalledGetEnveloped (plugins : positive) (initialContext : ContextRef)
| CalledExecute (enveloped : Enveloped) (args : ExecutionArgs)
| CalledSubscribe (enveloped : Enveloped) (args : ExecutionArgs).

(** The module's state: the WeakMap of each memoized function, the
    objects allocated so far, and the calls made. *)
Record World := {
  operationTypeCache : gmap positive OperationTypeNode;
  factoryCache : gmap positive EnvelopedFactory;
  envelopedCache : gmap positive (gmap ContextRef Enveloped);
  nextRef : positive;
  nextMerged : nat;
  trace : list Event;
}.

Definition initialWorld : World :=
  {| operationTypeCache := ∅; factoryCache := ∅; envelopedCache := ∅;
     nextRef := 1%positive; nextMerged := 0; trace := [] |}.

(** A synchronous computation on the world. *)
Definition Sync (A : Type) : Type := World -> Completion A * World.

Definition ret {A} (a : A) : Sync A := fun w => (Returns a, w).

Definition throw {A} (e : JsError) : Sync A := fun w => (Throws e, w).

Definition bind {A B} (c : Sync A) (k : A -> Sync B) : Sync B :=
  fun w =>
    match c w with
    | (Returns a, w') => k a w'
    | (Throws e, w') => (Throws e, w')
    end.

Notation "'let*' x ':=' c 'in' k" := (bind c (fun x => k))
  (at level 10, x pattern, c at level 100, k at level 200).

(** [await promise] in the body of an async function. *)
Definition await {A} (promise : Settled A) : Sync A :=
  match promise with
  | Fulfilled a => ret a
  | Rejected e => throw e
  end.

(** An [async function]: the call returns a promise, settled as the
    body completes. *)
Definition async {A} (body : Sync A) : World -> Settled A * World :=
  fun w =>
    match body w with
    | (Returns a, w') => (Fulfilled a, w')
    | (Throws e, w') => (Rejected e, w')
    end.

(** The call of an async function as an expression: it completes by
    returning the promise. *)
Definition call {A} (f : World -> Settled A * World)
  : World -> Completion (Settled A) * World :=
  fun w => let '(promise, w') := f w in (Returns promise, w').

Definition emit (e : Event) : Sync unit :=
  fun w =>
    (Returns tt,
     {| operationTypeCache := operationTypeCache w; factoryCache := factoryCache w;
        envelopedCache := envelopedCache w; nextRef := nextRef w;
        nextMerged := nextMerged w; trace := trace w ++ [e] |}).

(** A new object. *)
Definition newRef : Sync positive :=
  fun w =>
    (Returns (nextRef w),
     {| operationTypeCache := operationTypeCache w; factoryCache := factoryCache w;
        envelopedCache := envelopedCache w; nextRef := Pos.succ (nextRef w);
        nextMerged := nextMerged w; trace := trace w |}).

(** [memoize1] of @graphql-tools/utils: a WeakMap keyed by the identity
    of the argument; a value is stored once [fn] has returned it.
    [cache] and [setCache] read and write the WeakMap of the memoized
    function at hand, [key] is the identity of the argument. *)
Definition memoize1 {A K V} `{Countable K}
    (cache : World -> gmap K V) (setCache : gmap K V -> World -> World)
    (key : A -> K) (fn : A -> Sync V) : A -> Sync V :=
  fun a1 w =>
    match cache w !! key a1 with
    | Some cachedValue => (Returns cachedValue, w)
    | None =>
        match fn a1 w with
        | (Returns newValue, w') =>
            (Returns newValue, setCache (<[key a1 := newValue]> (cache w')) w')
        | (Throws e, w') => (Throws e, w')
        end
    end.

Definition setOperationTypeCache (m : gmap positive OperationTypeNode) (w : World) : World :=
  {| operationTypeCache := m; factoryCache := factoryCache w;
     envelopedCache := envelopedCache w; nextRef := nextRef w;
     nextMerged := nextMerged w; trace := trace w |}.

Definition setFactoryCache (m : gmap positive EnvelopedFactory) (w : World) : World :=
  {| operationTypeCache := operationTypeCache w; factoryCache := m;
     envelopedCache := envelopedCache w; nextRef := nextRef w;
     nextMerged := nextMerged w; trace := trace w |}.

(** The WeakMap of the [getEnvelopedByContext] closure [factory]. *)
Definition envelopedCacheOf (factory : positive) (w : World) : gmap ContextRef Enveloped :=
  default ∅ (envelopedCache w !! factory).

Definition setEnvelopedCacheOf (factory : positive) (m : gmap ContextRef Enveloped)
    (w : World) : World :=
  {| operationTypeCache := operationTypeCache w; factoryCache := factoryCache w;
     envelopedCache := <[factory := m]> (envelopedCache w); nextRef := nextRef w;
     nextMerged := nextMerged w; trace := trace w |}.

Definition noValidOperation : JsError :=
  Error "Must provide document with a valid operation".

Section Memoized.
Context `{GraphQLTools}.

(** Lines 58-64. *)
Definition getOperationType (document : DocumentNode) : Sync OperationTypeNode :=
  let* _ := emit (CalledGetOperationAST (doc_ref document)) in
  match getOperationAST document with
  | None => throw noValidOperation
  | Some operation => ret operation
  end.

Definition memoizedGetOperationType : DocumentNode -> Sync OperationTypeNode :=
  memoize1 operationTypeCache setOperationTypeCache doc_ref getOperationType.

End Memoized.

(** Lines 66-71. *)
Definition getEnvelopedByContext (factory : EnvelopedFactory)
    (initialContext : ContextRef) : Sync Enveloped :=
  let* _ := emit (CalledGetEnveloped (factory_plugins factory) initialContext) in
  let* ref := newRef in
  ret {| env_ref := ref; env_plugins := factory_plugins factory;
         env_initialContext := initialContext |}.

Definition getEnvelopedFactory (plugins : positive) : Sync EnvelopedFactory :=
  let* _ := emit (CalledEnvelop plugins) in
  let* ref := newRef in
  ret {| factory_ref := ref; factory_plugins := plugins |}.

Definition memoizedGetEnvelopedFactory : positive -> Sync EnvelopedFactory :=
  memoize1 factoryCache setFactoryCache id getEnvelopedFactory.

(** Calling the closure [memoizedGetEnvelopedFactory] returned. *)
Definition getEnveloped (factory : EnvelopedFactory) : ContextRef -> Sync Enveloped :=
  memoize1 (envelopedCacheOf (factory_ref factory))
    (setEnvelopedCacheOf (factory_ref factory)) id
    (getEnvelopedByContext factory).

(** What [meshExecute] and [meshSubscribe] close over. *)
Record MeshInstance := {
  plugins : positive;
  unifiedSchema : GraphQLSchema;
  EMPTY_ROOT_VALUE : JsValue;
  EMPTY_VARIABLES_VALUE : JsValue;
}.

Definition EMPTY_CONTEXT_VALUE (mesh : MeshInstance) : ContextValue :=
  {| ctx_ref := EmptyContextValue (plugins mesh); ctx_fields := ∅ |}.

Section Execute.
Context `{Envelop}.

(** The pipeline serving a call: lines 355-356 and 375-376. *)
Definition envelopedFor (mesh : MeshInstance) (contextValue : ContextValue)
  : Sync Enveloped :=
  let* getEnveloped' := memoizedGetEnvelopedFactory (plugins mesh) in
  getEnveloped getEnveloped' (ctx_ref contextValue).

Definition executionArgs (mesh : MeshInstance) (enveloped : Enveloped)
    (documentOrSDL : string + DocumentNode) (variableValues : JsValue)
    (contextValue : ContextValue) (rootValue : JsValue)
    (operationName : option string) : ExecutionArgs :=
  {| ea_document :=
       match documentOrSDL with
       | inl sdl => envelopParse enveloped sdl
       | inr document => document
       end;
     ea_contextValue := envelopContextFactory enveloped (ctx_fields contextValue);
     ea_rootValue := rootValue;
     ea_variableValues := variableValues;
     ea_schema := unifiedSchema mesh;
     ea_operationName := operationName |}.

(** Lines 348-366.  A parameter that is [None] takes its default. *)
Definition meshExecute (mesh : MeshInstance)
    (documentOrSDL : string + DocumentNode) (variableValues : option JsValue)
    (contextValue : option ContextValue) (rootValue : option JsValue)
    (operationName : option string) : World -> Settled ExecutionOutcome * World :=
  async (
    let contextValue := default (EMPTY_CONTEXT_VALUE mesh) contextValue in
    let* enveloped := envelopedFor mesh contextValue in
    let args :=
      executionArgs mesh enveloped documentOrSDL
        (default (EMPTY_VARIABLES_VALUE mesh) variableValues) contextValue
        (default (EMPTY_ROOT_VALUE mesh) rootValue) operationName in
    let* _ := emit (CalledExecute enveloped args) in
    await (envelopExecute enveloped args)).

(** Lines 368-386. *)
Definition meshSubscribe (mesh : MeshInstance)
    (documentOrSDL : string + DocumentNode) (variableValues : option JsValue)
    (contextValue : option ContextValue) (rootValue : option JsValue)
    (operationName : option string) : World -> Settled ExecutionOutcome * World :=
  async (
    let contextValue := default (EMPTY_CONTEXT_VALUE mesh) contextValue in
    let* enveloped := envelopedFor mesh contextValue in
    let args :=
      executionArgs mesh enveloped documentOrSDL
        (default (EMPTY_VARIABLES_VALUE mesh) variableValues) contextValue
        (default (EMPTY_ROOT_VALUE mesh) rootValue) operationName in
    let* _ := emit (CalledSubscribe enveloped args) in
    await (envelopSubscribe enveloped args)).

End Execute.

End Pipeline.

(** ** The SDK requester (get-mesh.ts, lines 388-418) *)

Module Requester.
Import Pipeline.

(** What a result is turned into: [new AggregateError(result.errors)],
    or [result?.data]. *)
Inductive Collapsed :=
| AggregateError (errors : list JsError)
| Data (data : JsValue).

(** [result?.errors?.length ? new AggregateError(result.errors) : result?.data] *)
Definition collapse (result : option ExecutionResult) : Collapsed :=
  match result with
  | Some r =>
      match er_errors r with
      | Some (e :: errors) => AggregateError (e :: errors)
      | Some [] | None => Data (er_data r)
      end
  | None => Data JsUndefined
  end.

(** [mapAsyncIterator (iterable, callback)]: the iterable that yields
    [callback x] for each [x] the given one yields. *)
Definition mapAsyncIterator {A B} (iterable : list A) (callback : A -> B) : list B :=
  map callback iterable.

(** What the requester's promise is fulfilled with. *)
Inductive RequesterValue :=
| Value (v : Collapsed)
| MappedIterable (values : list Collapsed).

(** [{ ...globalContext, ...contextValue }]: a new object; a property of
    [contextValue] replaces the one of [globalContext]. *)
Definition mergedContext (globalContext : gmap string JsValue)
    (contextValue : option (gmap string JsValue)) (w : World) : ContextValue :=
  {| ctx_ref := MergedContext (nextMerged w);
     ctx_fields := default ∅ contextValue ∪ globalContext |}.

Definition afterSpread (w : World) : World :=
  {| operationTypeCache := operationTypeCache w; factoryCache := factoryCache w;
     envelopedCache := envelopedCache w; nextRef := nextRef w;
     nextMerged := S (nextMerged w); trace := trace w |}.

Definition spreadContext (globalContext : gmap string JsValue)
    (contextValue : option (gmap string JsValue)) : Sync ContextValue :=
  fun w => (Returns (mergedContext globalContext contextValue w), afterSpread w).

(** [await call(...)] where [call] is an async function. *)
Definition awaitCall {A} (call : World -> Settled A * World) : Sync A :=
  fun w =>
    match call w with
    | (Fulfilled a, w') => (Returns a, w')
    | (Rejected e, w') => (Throws e, w')
    end.

Section Requester.
Context `{GraphQLTools} `{Envelop}.

(** [sdkRequesterFactory(globalContext)] applied to
    [(document, variables, contextValue)]. *)
Definition meshSdkRequester (mesh : MeshInstance) (globalContext : gmap string JsValue)
    (document : DocumentNode) (variables : option JsValue)
    (contextValue : option (gmap string JsValue))
  : World -> Settled RequesterValue * World :=
  async (
    let* operationType := memoizedGetOperationType document in
    match operationType with
    | subscription =>
        let* merged := spreadContext globalContext contextValue in
        let* result :=
          awaitCall (meshSubscribe mesh (inr document) variables (Some merged) None None) in
        match result with
        | AsyncIterable results => ret (MappedIterable (mapAsyncIterator results collapse))
        | SingleResult result => ret (Value (collapse result))
        end
    | _ =>
        let* merged := spreadContext globalContext contextValue in
        let* result :=
          awaitCall (meshExecute mesh (inr document) variables (Some merged) None None) in
        match result with
        | AsyncIterable _ => ret (Value (Data JsUndefined))
        | SingleResult result => ret (Value (collapse result))
        end
    end).

End Requester.

End Requester.

(** ** [getMesh] as a whole *)

Module GetMesh.
Import Registry InContextSDK.

(** The entries of the [plugins] array (lines 328-342). *)
Inductive Plugin :=
| useSchema (schema : GraphQLSchema)
| useExtendContext
| useExtendedValidation (enabled : bool)
| parseWithCachePlugin
| additionalPlugin (ref : positive).

Record GetMeshOptions := {
  sources : list ApiSource;
  merger : list RawSourceOutput -> Settled UnifiedSchema;
  additionalEnvelopPlugins : list positive;
}.

(** The properties of the returned object that do not depend on the
    pipeline state. *)
Record Mesh := {
  mesh_schema : UnifiedSchema;
  mesh_rawSources : list RawSourceOutput;
  mesh_meshContext : gmap string RawSourceContext;
  mesh_plugins : list Plugin;
}.

Section GetMesh.
Context `{MeshUtils}.

(** Lines 139-438: what follows the loading of the sources. *)
Definition afterSources (options : GetMeshOptions) (rawSources : list RawSourceOutput)
  : Settled Mesh :=
  match merger options rawSources with
  | Rejected e => Rejected e
  | Fulfilled unifiedSchema =>
      match buildInContextSDK unifiedSchema rawSources with
      | Rejected e => Rejected e
      | Fulfilled meshContext =>
          Fulfilled
            {| mesh_schema := unifiedSchema;
               mesh_rawSources := rawSources;
               mesh_meshContext := meshContext;
               mesh_plugins :=
                 [ useSchema (us_schema unifiedSchema);
                   useExtendContext;
                   useExtendedValidation
                     (bool_decide ("oneOf" ∈ schema_directives (us_schema unifiedSchema)));
                   parseWithCachePlugin ]
                 ++ (additionalPlugin <$> additionalEnvelopPlugins options) |}
      end
  end.

(** [getMesh(options)], with the order in which the handlers' promises
    settle. *)
Definition getMesh (options : GetMeshOptions) (completion : list nat) : Settled Mesh :=
  match fst (generateSchemas (sources options) completion) with
  | Rejected e => Rejected e
  | Fulfilled rawSources => afterSources options rawSources
  end.

End GetMesh.

End GetMesh.

(** ** Reference instances and sample data

    Instances of the external functions, and the objects the closed
    examples below are stated on. *)

Module Reference.
Import InContextSDK Registry Pipeline Requester GetMesh.

(** graphql-js' [getOperationAST] without an operation name: the one
    operation definition of the document; [null] when there is none or
    a second one is met. *)
Fixpoint operationAST (definitions : list DefinitionNode)
    (operation : option OperationTypeNode) : option OperationTypeNode :=
  match definitions with
  | [] => operation
  | OperationDefinition o _ :: rest =>
      match operation with
      | Some _ => None
      | None => operationAST rest (Some o)
      end
  | _ :: rest => operationAST rest operation
  end.

(** A reader of flat selection sets: the names between the braces. *)
Fixpoint fieldNames (text : string) (current : string) : list string :=
  let flush := if decide (current = "") then [] else [current] in
  match text with
  | EmptyString => flush
  | String c rest =>
      if bool_decide (c ∈ ["{"; "}"; " "; ","]%char)
      then flush ++ fieldNames rest ""
      else fieldNames rest (current +:+ String c EmptyString)
  end.

#[export] Instance referenceTools : GraphQLTools := {|
  parseSelectionSet text :=
    {| selections := (fun name => FieldSelection name None) <$> fieldNames text "" |};
  print _ := "{ __typename }";
  getOperationAST document := operationAST (doc_definitions document) None;
|}.

(** Modelled from the spec: [groupTransforms] and [applySchemaTransforms]
    of @graphql-mesh/utils are not under src/.  The spec has the
    configured transforms partitioned into wrap and no-wrap transforms,
    and the no-wrap ones applied to the handler's schema, one after the
    other; a transform that throws ends the application. *)
#[export] Instance referenceUtils : MeshUtils := {|
  groupTransforms transforms :=
    (filter (fun t => noWrap t = false) (default [] transforms),
     filter (fun t => noWrap t = true) (default [] transforms));
  applySchemaTransforms schema _ transforms :=
    fold_left
      (fun applied t =>
         match applied with
         | Returns s => transformSchema t s
         | Throws e => Throws e
         end)
      transforms (Returns schema);
|}.

Definition sampleResults : list (option ExecutionResult) :=
  [ Some {| er_data := JsNumber 1; er_errors := None |};
    Some {| er_data := JsNull; er_errors := Some [Error "upstream failed"] |};
    None ].

(** A pipeline whose [subscribe] yields [sampleResults] and whose
    [execute] resolves to their second element. *)
#[export] Instance referenceEnvelop : Envelop := {|
  envelopParse _ _ := {| doc_ref := 1; doc_definitions := [] |};
  envelopContextFactory _ fields := fields;
  envelopExecute _ _ :=
    Fulfilled (SingleResult
      (Some {| er_data := JsNull; er_errors := Some [Error "upstream failed"] |}));
  envelopSubscribe _ _ := Fulfilled (AsyncIterable sampleResults);
|}.

Definition String' : NamedType := {| nt_name := "String"; nt_kind := ScalarKind |}.
Definition User : NamedType := {| nt_name := "User"; nt_kind := ObjectKind |}.

Definition Query : ObjectType :=
  {| ot_name := "Query";
     ot_fields := [("hello", TNamed String'); ("user", TNonNull (TNamed User))] |}.

Definition apiSchema : GraphQLSchema :=
  {| schema_ref := 10; getQueryType := Some Query; getMutationType := None;
     getSubscriptionType := None; schema_directives := [] |}.

Definition handlerOf (ref : positive) (outcome : Completion (Settled MeshSource))
  : MeshHandler :=
  {| handler_ref := ref; getMeshSource := outcome |}.

Definition apiMeshSource : MeshSource :=
  {| ms_schema := apiSchema; ms_executor := 20; ms_contextVariables := None;
     ms_batch := None |}.

(** A source without transforms whose handler returns a promise that
    settles as [outcome]. *)
Definition sourceNamed (name : string) (ref : positive) (outcome : Settled MeshSource)
  : ApiSource :=
  {| as_name := name; as_handler := handlerOf ref (Returns outcome);
     as_transforms := None; as_merge := None |}.

Definition apiSource : ApiSource := sourceNamed "api" 1 (Fulfilled apiMeshSource).

Definition apiRawSource : RawSourceOutput :=
  rawSourceRecord apiSource apiMeshSource (ms_schema apiMeshSource)
    (as_transforms apiSource).

(** The closures of [context.api.Query.user] and [context.api.Query.hello]
    when there is no stitching info. *)
Definition userField : FieldClosure :=
  {| cl_rawSource := apiRawSource;
     cl_rawSourceSubSchemaConfig := Some (RawSourceTarget apiRawSource);
     cl_transformedSchema := apiSchema;
     cl_rootType := Query;
     cl_operationType := query;
     cl_fieldName := "user";
     cl_fieldType := TNonNull (TNamed User) |}.

Definition helloField : FieldClosure :=
  {| cl_rawSource := apiRawSource;
     cl_rawSourceSubSchemaConfig := Some (RawSourceTarget apiRawSource);
     cl_transformedSchema := apiSchema;
     cl_rootType := Query;
     cl_operationType := query;
     cl_fieldName := "hello";
     cl_fieldType := TNamed String' |}.

(** An argument object with [root], [args] and [context] only. *)
Definition directCall : CallParams :=
  {| cp_root := JsUndefined; cp_args := JsObject 7; cp_context := JsObject 8;
     cp_info := None; cp_selectionSet := None; cp_key := None;
     cp_argsFromKeys := None; cp_valuesFromResults := None |}.

Definition withSelectionSet (s : SelectionSetParamOrFactory) (p : CallParams) : CallParams :=
  {| cp_root := cp_root p; cp_args := cp_args p; cp_context := cp_context p;
     cp_info := cp_info p; cp_selectionSet := Some s; cp_key := cp_key p;
     cp_argsFromKeys := cp_argsFromKeys p;
     cp_valuesFromResults := cp_valuesFromResults p |}.

Definition withKey (key : string) (argsFromKeys : option ArgsFromKeys) (p : CallParams)
  : CallParams :=
  {| cp_root := cp_root p; cp_args := cp_args p; cp_context := cp_context p;
     cp_info := cp_info p; cp_selectionSet := cp_selectionSet p; cp_key := Some key;
     cp_argsFromKeys := argsFromKeys;
     cp_valuesFromResults := cp_valuesFromResults p |}.

Definition withInfo (info : positive) (p : CallParams) : CallParams :=
  {| cp_root := cp_root p; cp_args := cp_args p; cp_context := cp_context p;
     cp_info := Some info; cp_selectionSet := cp_selectionSet p; cp_key := cp_key p;
     cp_argsFromKeys := cp_argsFromKeys p;
     cp_valuesFromResults := cp_valuesFromResults p |}.

(** A resolve info for [Query.user] whose one field node has no
    selection set, and a store holding it at reference 5. *)
Definition userInfo : ResolveInfo :=
  {| fieldName := "user";
     fieldNodes := [ {| fn_kind := Some "Field"; fn_name := Some "user";
                        fn_selectionSet := None |} ];
     returnType := TNonNull (TNamed User);
     parentType := Query;
     path := {| path_typename := "Query"; path_key := "user" |};
     schema := apiSchema;
     fragments := [];
     rootValue := JsUndefined;
     operation := query;
     operation_selections := [];
     variableValues := [] |}.

Definition userStore : gmap positive ResolveInfo := {[ 5%positive := userInfo ]}.

(** A merger result whose stitching info has one subschema, declared
    under another name than the raw source [api]. *)
Definition otherSubschema : SubschemaConfig * Subschema :=
  ({| sc_ref := 30; sc_name := Some "other" |},
   {| subschema_ref := 31; subschema_name := Some "other" |}).

Definition stitchedSchema : UnifiedSchema :=
  {| us_schema := apiSchema;
     us_sourceMap := fun _ => Some apiSchema;
     us_stitchingInfo := Some {| subschemaMap := [otherSubschema] |} |}.

(** Two sources, [slow] configured before [fast]. *)
Definition slowSource : ApiSource := sourceNamed "slow" 2 (Fulfilled apiMeshSource).
Definition fastSource : ApiSource := sourceNamed "fast" 3 (Fulfilled apiMeshSource).
Definition failingSource : ApiSource :=
  sourceNamed "broken" 4 (Rejected (Error "ECONNREFUSED")).

(** A source whose handler throws when it is called. *)
Definition hastySource : ApiSource :=
  {| as_name := "hasty";
     as_handler := handlerOf 8 (Throws (TypeError "endpoint is not configured"));
     as_transforms := None; as_merge := None |}.

(** A bare transform that throws, and a source configured with it whose
    handler resolves. *)
Definition brokenTransform : MeshTransform :=
  {| transform_name := "rename"; noWrap := true;
     transformSchema := fun _ => Throws (Error "Type Book not found") |}.

Definition brittleSource : ApiSource :=
  {| as_name := "brittle";
     as_handler := handlerOf 9 (Returns (Fulfilled apiMeshSource));
     as_transforms := Some [brokenTransform]; as_merge := None |}.

Definition sampleMerger (rawSources : list RawSourceOutput) : Settled UnifiedSchema :=
  Fulfilled {| us_schema := apiSchema; us_sourceMap := fun _ => Some apiSchema;
               us_stitchingInfo := None |}.

Definition optionsFor (sources : list ApiSource) : GetMeshOptions :=
  {| sources := sources; merger := sampleMerger; additionalEnvelopPlugins := [] |}.

Definition sampleMesh : MeshInstance :=
  {| plugins := 100; unifiedSchema := apiSchema;
     EMPTY_ROOT_VALUE := JsObject 101; EMPTY_VARIABLES_VALUE := JsObject 102 |}.

Definition noOperationDocument : DocumentNode :=
  {| doc_ref := 200; doc_definitions := [FragmentDefinition "F"] |}.

Definition twoOperations : DocumentNode :=
  {| doc_ref := 201;
     doc_definitions := [ OperationDefinition query (Some "A");
                          OperationDefinition mutation (Some "B") ] |}.

Definition subscriptionDocument : DocumentNode :=
  {| doc_ref := 202; doc_definitions := [OperationDefinition subscription None] |}.

Definition queryDocument : DocumentNode :=
  {| doc_ref := 203; doc_definitions := [OperationDefinition query None] |}.

(** Two context objects with the same properties. *)
Definition contextA : ContextValue :=
  {| ctx_ref := CallerContext 300; ctx_fields := {[ "user" := JsString "ann" ]} |}.
Definition contextB : ContextValue :=
  {| ctx_ref := CallerContext 301; ctx_fields := {[ "user" := JsString "ann" ]} |}.

Definition idSelection : SelectionSetParamOrFactory :=
  SelectionParam (SelectionText "{ id }").

Definition idsArgs : ArgsFromKeys := fun keys => JsObject 9.

End Reference.

(** * Vocabulary of the properties *)

Import InContextSDK.

(** The resolve info a call is made with: the object [cp_info] refers
    to, or the default value of the parameter. *)
Definition suppliedInfo (cl : FieldClosure) (p : CallParams) (σ : Store)
  : option ResolveInfo :=
  match cp_info p with
  | Some info => σ !! info
  | None => Some (defaultInfo cl (cp_root p))
  end.

(** The call does not reach the dispatch: the field's type is composite
    and either [cp_info] refers to no object, or the info has no
    selection and [selectionSet] is falsy. *)
Definition rejected (cl : FieldClosure) (p : CallParams) (σ : Store) : bool :=
  shouldHaveSelectionSet cl &&
  match suppliedInfo cl p σ with
  | None => true
  | Some info =>
      (selectionCount info =? 0)%nat && negb (truthySelectionSet (cp_selectionSet p))
  end.

(** The options [o] are those the callable builds for the call [p],
    whatever resolve info they refer to. *)
Definition optionsOfCall (cl : FieldClosure) (p : CallParams)
    (o : CommonDelegateOptions) : Prop :=
  o = set_info (opt_info o) (initialDelegateOptions cl p (opt_info o)).

Import Registry GetMesh.

(** The raw source the callback of the [i]-th configured source
    pushes, when it ends with the push. *)
Definition rawSourceAt `{MeshUtils} (sources : list ApiSource) (i : nat)
  : option RawSourceOutput :=
  apiSource ← sources !! i;
  match loadOutcome apiSource with
  | Returns rawSource => Some rawSource
  | Throws _ => None
  end.

(** The raw sources in the order of the configuration. *)
Definition inConfigurationOrder `{MeshUtils} (sources : list ApiSource)
  : list RawSourceOutput :=
  omap (rawSourceAt sources) (seq 0 (length sources)).

(** The load of a source fails: its handler throws, or a bare transform
    throws on the schema its handler resolved to. *)
Definition sourceFails `{MeshUtils} (apiSource : ApiSource) : bool :=
  handlerThrows apiSource || transformsThrow apiSource.

(** [completion] is an order in which the callbacks can end: every
    source is in it, once. *)
Definition settlesAll (sources : list ApiSource) (completion : list nat) : Prop :=
  completion ≡ₚ seq 0 (length sources).

Import Pipeline Requester.

(** What the cache of [memoizedGetOperationType] holds under the
    identity of [document] is the operation type of [document]: the
    document has not been modified since it was inspected. *)
Definition cacheAgrees `{GraphQLTools} (w : World) (document : DocumentNode) : Prop :=
  forall operation,
    operationTypeCache w !! doc_ref document = Some operation ->
    getOperationAST document = Some operation.

(** [result?.errors], an empty list when there is none, and
    [result?.data]. *)
Definition errorsOf (result : option ExecutionResult) : list JsError :=
  match result with
  | Some r => default [] (er_errors r)
  | None => []
  end.

Definition dataOf (result : option ExecutionResult) : JsValue :=
  match result with
  | Some r => er_data r
  | None => JsUndefined
  end.

(** The pipeline a call of [execute] or [subscribe] was made on. *)
Definition servedBy (e : Event) : option Enveloped :=
  match e with
  | CalledExecute enveloped _ | CalledSubscribe enveloped _ => Some enveloped
  | _ => None
  end.

(** The pipeline of the last call the world has seen. *)
Definition lastServed (w : World) : option Enveloped :=
  last (trace w) ≫= servedBy.

(** The parameters of [execute] and [subscribe]; [None] is a parameter
    left out. *)
Record ExecuteParams := {
  ep_documentOrSDL : string + DocumentNode;
  ep_variableValues : option JsValue;
  ep_contextValue : option ContextValue;
  ep_rootValue : option JsValue;
  ep_operationName : option string;
}.

(** The context value a call runs with. *)
Definition contextOf (mesh : MeshInstance) (params : ExecuteParams) : ContextValue :=
  default (EMPTY_CONTEXT_VALUE mesh) (ep_contextValue params).

(** The calls a module state goes through: [execute] and [subscribe] of
    a mesh instance, and a requester of one. *)
Inductive MeshCall :=
| CallExecute (mesh : MeshInstance) (params : ExecuteParams)
| CallSubscribe (mesh : MeshInstance) (params : ExecuteParams)
| CallRequester (mesh : MeshInstance) (globalContext : gmap string JsValue)
    (document : DocumentNode) (variables : option JsValue)
    (contextValue : option (gmap string JsValue)).

Section Calls.
Context `{GraphQLTools} `{Envelop}.

Definition afterCall (w : World) (c : MeshCall) : World :=
  match c with
  | CallExecute mesh params =>
      snd (meshExecute mesh (ep_documentOrSDL params) (ep_variableValues params)
             (ep_contextValue params) (ep_rootValue params) (ep_operationName params) w)
  | CallSubscribe mesh params =>
      snd (meshSubscribe mesh (ep_documentOrSDL params) (ep_variableValues params)
             (ep_contextValue params) (ep_rootValue params) (ep_operationName params) w)
  | CallRequester mesh globalContext document variables contextValue =>
      snd (meshSdkRequester mesh globalContext document variables contextValue w)
  end.

Definition afterCalls (w : World) (calls : list MeshCall) : World :=
  fold_left afterCall calls w.

(** A state the module can be in: the one it is loaded in, after some
    calls. *)
Definition reachable (w : World) : Prop :=
  exists calls, w = afterCalls initialWorld calls.

End Calls.

(** A call of [execute] ([subscribe] when [sub] is set). *)
Definition pipelineCall (sub : bool) (mesh : MeshInstance) (params : ExecuteParams)
  : MeshCall :=
  if sub then CallSubscribe mesh params else CallExecute mesh params.

(** The caches of the pipelines are sound: a factory is stored under
    its plugin list, a pipeline under the context it was created for,
    every stored object was allocated, and no two stored pipelines are
    the same object. *)
Record cachesSound (w : World) : Prop := {
  sound_factory : forall p f,
    factoryCache w !! p = Some f ->
    factory_plugins f = p /\ (factory_ref f < nextRef w)%positive;
  sound_closure : forall r m,
    envelopedCache w !! r = Some m -> (r < nextRef w)%positive;
  sound_enveloped : forall r m c e,
    envelopedCache w !! r = Some m -> m !! c = Some e ->
    env_initialContext e = c /\ (env_ref e < nextRef w)%positive;
  sound_distinct : forall r1 m1 c1 e1 r2 m2 c2 e2,
    envelopedCache w !! r1 = Some m1 -> m1 !! c1 = Some e1 ->
    envelopedCache w !! r2 = Some m2 -> m2 !! c2 = Some e2 ->
    env_ref e1 = env_ref e2 -> r1 = r2 /\ c1 = c2;
}.

(** The caches of [w'] hold what those of [w] hold. *)
Definition cachesKept (w w' : World) : Prop :=
  (forall p f, factoryCache w !! p = Some f -> factoryCache w' !! p = Some f)
  /\ (forall r c e,
        envelopedCacheOf r w !! c = Some e -> envelopedCacheOf r w' !! c = Some e).

(** The part of the state the pipeline caches live in. *)
Definition memo (w : World)
  : gmap positive EnvelopedFactory * gmap positive (gmap ContextRef Enveloped) * positive :=
  (factoryCache w, envelopedCache w, nextRef w).

(** [fieldNode.selectionSet?.selections.length], [0] for a field node
    without selection set. *)
Definition nodeSelections (fieldNode : FieldNode) : nat :=
  match fn_selectionSet fieldNode with
  | Some selectionSet => length (selections selectionSet)
  | None => 0
  end.

(** The [transforms] of the options a delegation call is made with. *)
Definition transformsOf (d : Delegation) : option (list WrapQuery) :=
  match d with
  | delegateToSchema o => reg_transforms o
  | batchDelegateToSchema o => batch_transforms o
  end.

(** A resolve info for [Query.user] with two field nodes, of which the
    second selects [id]. *)
Definition nestedUserInfo : ResolveInfo :=
  {| fieldName := "user";
     fieldNodes := [ {| fn_kind := Some "Field"; fn_name := Some "user";
                        fn_selectionSet := None |};
                     {| fn_kind := Some "Field"; fn_name := Some "user";
                        fn_selectionSet :=
                          Some {| selections := [FieldSelection "id" None] |} |} ];
     returnType := TNonNull (TNamed Reference.User);
     parentType := Reference.Query;
     path := {| path_typename := "Query"; path_key := "user" |};
     schema := Reference.apiSchema;
     fragments := [];
     rootValue := JsUndefined;
     operation := query;
     operation_selections := [];
     variableValues := [] |}.

(** The error of [sourceMap.get(rawSource).getQueryType()] when the
    source map does not hold the raw source. *)
Definition sourceMapMisses : JsError :=
  TypeError "Cannot read properties of undefined (reading 'getQueryType')".

(** A merger result without stitching info whose source map holds
    every raw source. *)
Definition plainSchema : UnifiedSchema :=
  {| us_schema := Reference.apiSchema;
     us_sourceMap := fun _ => Some Reference.apiSchema;
     us_stitchingInfo := None |}.

(** A second raw source named [api], from another handler. *)
Definition secondApiRawSource : RawSourceOutput :=
  rawSourceRecord (Reference.sourceNamed "api" 6 (Fulfilled Reference.apiMeshSource))
    Reference.apiMeshSource Reference.apiSchema None.

(** What the callback of a source logs when it is started, and what it
    logs from its [await] on. *)
Definition startedLog `{MeshUtils} (apiSource : ApiSource) : list LogEntry :=
  log (startSource {| rawSources := []; failed := false; log := [] |} apiSource).

Definition settledLog `{MeshUtils} (apiSource : ApiSource) : list LogEntry :=
  log (resumeSource {| rawSources := []; failed := false; log := [] |} apiSource).

(** A call of [sourceLogger.error]. *)
Definition isErrorEntry (entry : LogEntry) : bool :=
  match entry with
  | LogError _ _ _ => true
  | LogDebug _ _ => false
  end.

(** The entry a callback logs before it calls its handler. *)
Definition isStartEntry (entry : LogEntry) : bool :=
  match entry with
  | LogDebug _ message => bool_decide (message = "Generating the schema")
  | LogError _ _ _ => false
  end.

(** The raw source of the sample source [slow]. *)
Definition slowRawSource : RawSourceOutput :=
  rawSourceRecord Reference.slowSource Reference.apiMeshSource Reference.apiSchema None.

(** A pipeline whose [execute] resolves to an async iterable, as for a
    live or incremental query, and whose [subscribe] rejects. *)
Definition liveQueryEnvelop : Envelop := {|
  envelopParse _ _ := {| doc_ref := 1; doc_definitions := [] |};
  envelopContextFactory _ fields := fields;
  envelopExecute _ _ := Fulfilled (AsyncIterable Reference.sampleResults);
  envelopSubscribe _ _ := Rejected (Error "subscriptions are not served");
|}.

(** The calls of [envelop({ plugins })] and of [getEnveloped(initialContext)]
    on its result, counted in a trace. *)
Definition isEnvelopCall (plugins : positive) (ev : Event) : bool :=
  match ev with
  | CalledEnvelop p => bool_decide (p = plugins)
  | _ => false
  end.

Definition isGetEnvelopedCall (plugins : positive) (initialContext : ContextRef)
    (ev : Event) : bool :=
  match ev with
  | CalledGetEnveloped p c => bool_decide (p = plugins /\ c = initialContext)
  | _ => false
  end.

Definition envelopCalls (plugins : positive) (tr : list Event) : nat :=
  length (filter (fun ev => isEnvelopCall plugins ev = true) tr).

Definition getEnvelopedCalls (plugins : positive) (initialContext : ContextRef)
    (tr : list Event) : nat :=
  length (filter (fun ev => isGetEnvelopedCall plugins initialContext ev = true) tr).

(** A call that sets a pipeline up. *)
Definition isSetup (ev : Event) : bool :=
  match ev with
  | CalledEnvelop _ | CalledGetEnveloped _ _ => true
  | _ => false
  end.

(** The trace counts what the caches hold: [envelop] has been called
    once for a plugin list with a stored factory and never for another,
    and the factory of a plugin list has been called once for a context
    with a stored pipeline and never for another; no two stored
    factories are the same object. *)
Record callsCounted (w : World) : Prop := {
  counted_sound : cachesSound w;
  counted_refs : forall p1 f1 p2 f2,
    factoryCache w !! p1 = Some f1 -> factoryCache w !! p2 = Some f2 ->
    factory_ref f1 = factory_ref f2 -> p1 = p2;
  counted_envelop : forall p,
    envelopCalls p (trace w)
    = match factoryCache w !! p with Some _ => 1 | None => 0 end;
  counted_getEnveloped : forall p c,
    getEnvelopedCalls p c (trace w)
    = match factoryCache w !! p with
      | Some f =>
          match envelopedCacheOf (factory_ref f) w !! c with Some _ => 1 | None => 0 end
      | None => 0
      end;
}.

(** Two calls of [execute] on the sample mesh with the context object
    [contextA]. *)
Definition twoCallsOneContext : list MeshCall :=
  let params :=
    {| ep_documentOrSDL := inr Reference.queryDocument; ep_variableValues := None;
       ep_contextValue := Some Reference.contextA; ep_rootValue := None;
       ep_operationName := None |} in
  [CallExecute Reference.sampleMesh params; CallExecute Reference.sampleMesh params].

(** A call made with a context value of the caller's: not an object a
    requester built. *)
Definition callerOwned (c : MeshCall) : Prop :=
  match c with
  | CallExecute _ params | CallSubscribe _ params =>
      forall contextValue n,
        ep_contextValue params = Some contextValue ->
        ctx_ref contextValue <> MergedContext n
  | CallRequester _ _ _ _ _ => True
  end.

(** The pipelines stored under a context a requester built were stored
    for a context built before. *)
Definition mergedBelow (w : World) : Prop :=
  forall r n e,
    envelopedCacheOf r w !! MergedContext n = Some e -> n < nextMerged w.

(** * Properties of the in-context callable *)

Section CallableFacts.
Context `{GraphQLTools}.

Lemma alloc_lookup i (σ : Store) :
  snd (alloc i σ) !! fst (alloc i σ) = Some i.
Proof. unfold alloc; simpl. apply lookup_insert_eq. Qed.

Lemma alloc_fresh i (σ : Store) : σ !! fst (alloc i σ) = None.
Proof. unfold alloc; simpl. apply not_elem_of_dom, is_fresh. Qed.

Lemma alloc_extends i (σ : Store) : σ ⊆ snd (alloc i σ).
Proof. unfold alloc; simpl. apply insert_subseteq, not_elem_of_dom, is_fresh. Qed.

Lemma alloc_other i (σ : Store) r info :
  σ !! r = Some info -> snd (alloc i σ) !! r = Some info.
Proof. intros Hr. eapply lookup_weaken; [exact Hr | apply alloc_extends]. Qed.

(** The info the callable reads is the supplied one. *)
Lemma supplied_lookup cl p σ :
  let '(info, σ0) :=
    match cp_info p with
    | Some info => (info, σ)
    | None => alloc (defaultInfo cl (cp_root p)) σ
    end in
  σ0 !! info = suppliedInfo cl p σ /\ σ ⊆ σ0.
Proof.
  unfold suppliedInfo. destruct (cp_info p) as [r|]; [done|].
  destruct (alloc _ σ) as [r σ0] eqn:E.
  pose proof (alloc_lookup (defaultInfo cl (cp_root p)) σ) as Hl.
  pose proof (alloc_extends (defaultInfo cl (cp_root p)) σ) as He.
  rewrite E in Hl, He. done.
Qed.

(** [buildCommonDelegateOptions] throws exactly on the rejected calls. *)
Lemma buildCommon_throws cl p info σ :
  match fst (buildCommonDelegateOptions cl p info σ) with
  | Throws e =>
      shouldHaveSelectionSet cl = true /\
      match σ !! info with
      | None => True
      | Some i =>
          selectionCount i = 0 /\ truthySelectionSet (cp_selectionSet p) = false /\
          e = missingSelectionSet cl
      end
  | Returns _ =>
      shouldHaveSelectionSet cl = false \/
      exists i, σ !! info = Some i /\
        (selectionCount i <> 0 \/ truthySelectionSet (cp_selectionSet p) = true)
  end.
Proof.
  unfold buildCommonDelegateOptions.
  destruct (shouldHaveSelectionSet cl); [|by left].
  destruct (σ !! info) as [i|] eqn:Hi; [|done].
  destruct (Nat.eqb_spec (selectionCount i) 0) as [H0|H0].
  - destruct (truthySelectionSet (cp_selectionSet p)) eqn:Ht; simpl.
    + destruct (alloc (patchedInfo i) σ). simpl. right. exists i. auto.
    + done.
  - simpl. right. exists i. auto.
Qed.

Lemma set_info_initial cl p info r :
  set_info r (initialDelegateOptions cl p info) = initialDelegateOptions cl p r.
Proof. unfold initialDelegateOptions. by destruct (isFunction _). Qed.

Lemma buildCommon_options cl p info σ o :
  fst (buildCommonDelegateOptions cl p info σ) = Returns o -> optionsOfCall cl p o.
Proof.
  unfold buildCommonDelegateOptions, optionsOfCall.
  assert (Hinit : forall r, initialDelegateOptions cl p r
            = set_info (opt_info (initialDelegateOptions cl p r))
                (initialDelegateOptions cl p (opt_info (initialDelegateOptions cl p r)))).
  { intros r. rewrite set_info_initial.
    unfold initialDelegateOptions. by destruct (isFunction _). }
  destruct (shouldHaveSelectionSet cl); [|intros [= <-]; apply Hinit].
  destruct (σ !! info) as [i|]; [|discriminate].
  destruct (selectionCount i =? 0)%nat; [|intros [= <-]; apply Hinit].
  destruct (negb _); [discriminate|].
  destruct (alloc (patchedInfo i) σ) as [r σ']. simpl. intros [= <-].
  rewrite !set_info_initial.
  unfold initialDelegateOptions. by destruct (isFunction _).
Qed.

Lemma callable_unfold cl p σ :
  inContextCallable cl p σ =
  let '(info, σ0) :=
    match cp_info p with
    | Some info => (info, σ)
    | None => alloc (defaultInfo cl (cp_root p)) σ
    end in
  match buildCommonDelegateOptions cl p info σ0 with
  | (Throws e, σ1) => (Throws e, σ1)
  | (Returns o, σ1) => (Returns (dispatch cl p o), σ1)
  end.
Proof. reflexivity. Qed.

(** What a call does, by whether it is rejected. *)
Lemma callable_rejected cl p σ :
  rejected cl p σ = true -> exists e, fst (inContextCallable cl p σ) = Throws e.
Proof.
  rewrite callable_unfold. intros Hrej.
  pose proof (supplied_lookup cl p σ) as Hs.
  destruct (match cp_info p with Some _ => _ | None => _ end) as [info σ0].
  destruct Hs as [Hs _].
  pose proof (buildCommon_throws cl p info σ0) as Hb.
  destruct (buildCommonDelegateOptions cl p info σ0) as [[o|e] σ1]; simpl in *; [|eauto].
  unfold rejected in Hrej. apply andb_true_iff in Hrej as [Hsh Hrej].
  destruct Hb as [Hb|(i & Hi & Hb)]; [congruence|].
  rewrite <- Hs, Hi in Hrej. apply andb_true_iff in Hrej as [Hc Ht].
  apply Nat.eqb_eq in Hc. apply negb_true_iff in Ht.
  destruct Hb; congruence.
Qed.

Lemma callable_not_rejected cl p σ :
  rejected cl p σ = false ->
  exists o, optionsOfCall cl p o /\
    fst (inContextCallable cl p σ) = Returns (dispatch cl p o).
Proof.
  rewrite callable_unfold. intros Hrej.
  pose proof (supplied_lookup cl p σ) as Hs.
  destruct (match cp_info p with Some _ => _ | None => _ end) as [info σ0].
  destruct Hs as [Hs _].
  pose proof (buildCommon_throws cl p info σ0) as Hb.
  pose proof (buildCommon_options cl p info σ0) as Ho.
  destruct (buildCommonDelegateOptions cl p info σ0) as [[o|e] σ1]; simpl in *; [eauto|].
  exfalso. destruct Hb as [Hsh Hb].
  unfold rejected in Hrej. rewrite Hsh, <- Hs in Hrej. simpl in Hrej.
  destruct (σ0 !! info) as [i|]; [|done].
  destruct Hb as (Hc & Ht & _). rewrite Hc, Ht in Hrej. done.
Qed.

Lemma callable_returns_dispatch cl p σ d :
  fst (inContextCallable cl p σ) = Returns d ->
  rejected cl p σ = false /\
  exists o, optionsOfCall cl p o /\ d = dispatch cl p o.
Proof.
  intros Hd. destruct (rejected cl p σ) eqn:Hrej.
  - apply callable_rejected in Hrej as [e He]. congruence.
  - split; [done|]. apply callable_not_rejected in Hrej as (o & Hopt & Ho).
    exists o. split; [done|]. congruence.
Qed.

End CallableFacts.

Import Reference.

Lemma truthySelectionSet_false s :
  truthySelectionSet s = false <->
  s = None \/ s = Some (SelectionParam (SelectionText "")).
Proof.
  split.
  - destruct s as [[[[|? ?]| |]|]|]; simpl; intros; try discriminate; auto.
  - intros [->| ->]; reflexivity.
Qed.

Lemma truthySelectionSet_true s :
  truthySelectionSet s = true <->
  exists s', s = Some s' /\ s' <> SelectionParam (SelectionText "").
Proof.
  split.
  - intros Ht. destruct s as [s'|]; [|discriminate].
    exists s'. split; [done|]. intros ->. discriminate.
  - intros (s' & -> & Hne).
    destruct s' as [[[|? ?]| |]|]; simpl; try reflexivity. by destruct Hne.
Qed.

(** C1 (amended).  For a callable built for a field whose named return
    type is not a leaf type, called with a resolve info whose field
    nodes hold no selection at all (or with none, which gives the
    default info): when no [selectionSet] is given, or the empty string
    is, the callable throws the error "You have to provide
    'selectionSet' for context.<source>.<rootType>.<field>"; when a
    [selectionSet] other than the empty string is given, it throws
    nothing and ends in a delegation call. *)
Theorem selectionSet_required `{GraphQLTools}
    (cl : FieldClosure) (p : CallParams) (σ : Store) :
  isLeafType (getNamedType (cl_fieldType cl)) = false ->
  selectionCount <$> suppliedInfo cl p σ = Some 0 ->
  (cp_selectionSet p = None \/
   cp_selectionSet p = Some (SelectionParam (SelectionText "")) ->
   fst (inContextCallable cl p σ) =
     Throws (Error ("You have to provide 'selectionSet' for context."
                      +:+ rs_name (cl_rawSource cl) +:+ "."
                      +:+ ot_name (cl_rootType cl) +:+ "."
                      +:+ cl_fieldName cl)))
  /\ (forall s, cp_selectionSet p = Some s ->
        s <> SelectionParam (SelectionText "") ->
        exists d, fst (inContextCallable cl p σ) = Returns d).
Proof.
  intros Hleaf Hcount.
  assert (Hsh : shouldHaveSelectionSet cl = true).
  { unfold shouldHaveSelectionSet, namedReturnType. by rewrite Hleaf. }
  destruct (suppliedInfo cl p σ) as [i|] eqn:Hi; [|discriminate].
  injection Hcount as Hcount.
  split.
  - intros Hno. apply truthySelectionSet_false in Hno.
    rewrite callable_unfold.
    pose proof (supplied_lookup cl p σ) as Hs.
    destruct (match cp_info p with Some _ => _ | None => _ end) as [info σ0].
    destruct Hs as [Hs _]. rewrite Hi in Hs.
    unfold buildCommonDelegateOptions. rewrite Hsh, Hs, Hcount, Hno. reflexivity.
  - intros s Hs Hne.
    destruct (callable_not_rejected cl p σ) as (o & _ & Ho); [|eauto].
    unfold rejected. rewrite Hi.
    assert (truthySelectionSet (cp_selectionSet p) = true) as ->
      by (apply truthySelectionSet_true; eauto).
    by rewrite andb_false_r, andb_false_r.
Qed.

(** On [context.api.Query.user]: a direct call throws, the same call
    with [selectionSet: '{ id }'] delegates. *)
Lemma selectionSet_required_witness :
  fst (inContextCallable userField directCall ∅) =
    Throws (Error "You have to provide 'selectionSet' for context.api.Query.user")
  /\ exists d,
       fst (inContextCallable userField (withSelectionSet idSelection directCall) ∅)
       = Returns d.
Proof.
  split.
  - apply (selectionSet_required userField directCall ∅);
      [reflexivity | reflexivity | left; reflexivity].
  - apply (selectionSet_required userField (withSelectionSet idSelection directCall) ∅)
      with (s := idSelection); [reflexivity | reflexivity | reflexivity | discriminate].
Defined.

(** C1 as stated fails: the empty string is a [selectionSet] argument
    of the parameter's type, and the callable throws the same error for
    it as for a missing one. *)
Lemma empty_selectionSet_text_rejected :
  cp_selectionSet (withSelectionSet (SelectionParam (SelectionText "")) directCall)
    = Some (SelectionParam (SelectionText ""))
  /\ fst (inContextCallable userField
            (withSelectionSet (SelectionParam (SelectionText "")) directCall) ∅)
     = Throws (Error "You have to provide 'selectionSet' for context.api.Query.user").
Proof. split; reflexivity. Qed.

Lemma keyAndArgsFromKeys_Some p key argsFromKeys :
  keyAndArgsFromKeys p = Some (key, argsFromKeys) <->
  cp_key p = Some key /\ key <> "" /\ cp_argsFromKeys p = Some argsFromKeys.
Proof.
  unfold keyAndArgsFromKeys.
  destruct (cp_key p) as [k|], (cp_argsFromKeys p) as [f|];
    try (split; [discriminate | intros (? & ? & ?); discriminate]).
  destruct k as [|c k]; simpl.
  - split; [discriminate | intros ([= <-] & Hne & _); by destruct Hne].
  - split; [intros [= <- <-]; done | intros ([= <-] & _ & [= <-]); done].
Qed.

Lemma keyAndArgsFromKeys_None p :
  keyAndArgsFromKeys p = None <->
  ~ ((exists key, cp_key p = Some key /\ key <> "") /\ is_Some (cp_argsFromKeys p)).
Proof.
  split.
  - intros Hn [(key & Hk & Hne) [f Hf]].
    assert (keyAndArgsFromKeys p = Some (key, f)) by (by apply keyAndArgsFromKeys_Some).
    congruence.
  - intros Hn. destruct (keyAndArgsFromKeys p) as [[key f]|] eqn:E; [|done].
    apply keyAndArgsFromKeys_Some in E as (Hk & Hne & Hf).
    destruct Hn. split; [eauto | by rewrite Hf].
Qed.

(** C2 (amended).  For every call of an in-context callable that is not
    rejected before the dispatch (for a composite field called without
    selections and without a [selectionSet]), [batchDelegateToSchema]
    is called, with [key], [argsFromKeys] and [valuesFromResults], if
    and only if [key] is a non-empty string and [argsFromKeys] is
    given; in every other such case, a [key] without [argsFromKeys]
    included, [delegateToSchema] is called with the caller's [args].  A
    rejected call makes neither call. *)
Theorem dispatch_by_key_and_argsFromKeys `{GraphQLTools}
    (cl : FieldClosure) (p : CallParams) (σ : Store) :
  ((exists o, fst (inContextCallable cl p σ) = Returns (batchDelegateToSchema o))
   <-> rejected cl p σ = false
       /\ (exists key, cp_key p = Some key /\ key <> "")
       /\ is_Some (cp_argsFromKeys p))
  /\ ((exists o, fst (inContextCallable cl p σ) = Returns (delegateToSchema o))
      <-> rejected cl p σ = false
          /\ ~ ((exists key, cp_key p = Some key /\ key <> "")
                /\ is_Some (cp_argsFromKeys p)))
  /\ (forall o, fst (inContextCallable cl p σ) = Returns (batchDelegateToSchema o) ->
        cp_key p = Some (batch_key o)
        /\ cp_argsFromKeys p = Some (batch_argsFromKeys o)
        /\ batch_valuesFromResults o = cp_valuesFromResults p)
  /\ (forall o, fst (inContextCallable cl p σ) = Returns (delegateToSchema o) ->
        reg_args o = cp_args p).
Proof.
  assert (Hd : forall d, fst (inContextCallable cl p σ) = Returns d ->
            rejected cl p σ = false /\ exists o, d = dispatch cl p o).
  { intros d Hd. apply callable_returns_dispatch in Hd as (? & o & _ & ?). eauto. }
  assert (Hbatch : forall o,
            fst (inContextCallable cl p σ) = Returns (batchDelegateToSchema o) ->
            cp_key p = Some (batch_key o) /\ batch_key o <> ""
            /\ cp_argsFromKeys p = Some (batch_argsFromKeys o)
            /\ batch_valuesFromResults o = cp_valuesFromResults p).
  { intros o Ho. apply Hd in Ho as (_ & c & Hc). unfold dispatch in Hc.
    destruct (keyAndArgsFromKeys p) as [[key f]|] eqn:E; [|discriminate].
    apply keyAndArgsFromKeys_Some in E as (? & ? & ?). by injection Hc as ->. }
  assert (Hsingle : forall o,
            fst (inContextCallable cl p σ) = Returns (delegateToSchema o) ->
            keyAndArgsFromKeys p = None /\ reg_args o = cp_args p).
  { intros o Ho. apply Hd in Ho as (_ & c & Hc). unfold dispatch in Hc.
    destruct (keyAndArgsFromKeys p) as [[key f]|] eqn:E; [discriminate|].
    by injection Hc as ->. }
  split; [|split; [|split]].
  - split.
    + intros [o Ho]. split; [by apply Hd in Ho as [? _]|].
      apply Hbatch in Ho as (Hk & Hne & Hf & _). split; [eauto|by rewrite Hf].
    + intros (Hrej & (key & Hk & Hne) & [f Hf]).
      apply callable_not_rejected in Hrej as (c & _ & Hc).
      unfold dispatch in Hc.
      assert (E : keyAndArgsFromKeys p = Some (key, f))
        by (by apply keyAndArgsFromKeys_Some).
      rewrite E in Hc. eauto.
  - split.
    + intros [o Ho]. split; [by apply Hd in Ho as [? _]|].
      apply Hsingle in Ho as [Hn _]. by apply keyAndArgsFromKeys_None.
    + intros (Hrej & Hn).
      apply callable_not_rejected in Hrej as (c & _ & Hc).
      unfold dispatch in Hc. apply keyAndArgsFromKeys_None in Hn.
      rewrite Hn in Hc. eauto.
  - intros o Ho. apply Hbatch in Ho as (? & _ & ? & ?). done.
  - intros o Ho. by apply Hsingle in Ho as [_ ?].
Qed.

(** C2 as stated fails at two calls.  With [key: ''] and an
    [argsFromKeys], both given, the call on [Query.hello] goes to
    [delegateToSchema].  With [key: 'a'] and an [argsFromKeys], the call
    on the composite [Query.user], made without selections and
    [selectionSet], throws: it takes neither path. *)
Lemma dispatch_counterexample :
  (cp_key (withKey "" (Some idsArgs) directCall) = Some ""
   /\ is_Some (cp_argsFromKeys (withKey "" (Some idsArgs) directCall))
   /\ exists o, fst (inContextCallable helloField (withKey "" (Some idsArgs) directCall) ∅)
                = Returns (delegateToSchema o))
  /\ (cp_key (withKey "a" (Some idsArgs) directCall) = Some "a"
      /\ is_Some (cp_argsFromKeys (withKey "a" (Some idsArgs) directCall))
      /\ fst (inContextCallable userField (withKey "a" (Some idsArgs) directCall) ∅)
         = Throws (Error "You have to provide 'selectionSet' for context.api.Query.user")).
Proof.
  split; (split; [reflexivity|]); (split; [by eexists|]).
  - eexists. reflexivity.
  - reflexivity.
Qed.

Lemma optionsOfCall_returnType cl p o :
  optionsOfCall cl p o ->
  opt_returnType o = if isFunction (cp_selectionSet p) then None else Some (cl_fieldType cl).
Proof.
  unfold optionsOfCall. intros ->. rewrite set_info_initial.
  unfold initialDelegateOptions. by destruct (isFunction _).
Qed.

Lemma commonOptions_dispatch `{GraphQLTools} cl p o :
  commonOptions (dispatch cl p o) = o.
Proof. unfold dispatch. by destruct (keyAndArgsFromKeys p) as [[??]|]. Qed.

(** C3 (amended).  In the options of the delegation call a callable
    makes, [returnType] is the field's declared type when no
    [selectionSet] is given and also when one is given as text, as a
    document or as a selection set node; it is left out only when the
    [selectionSet] is a function. *)
Theorem returnType_override `{GraphQLTools}
    (cl : FieldClosure) (p : CallParams) (σ : Store) (d : Delegation) :
  fst (inContextCallable cl p σ) = Returns d ->
  (cp_selectionSet p = None ->
     opt_returnType (commonOptions d) = Some (cl_fieldType cl))
  /\ (forall param, cp_selectionSet p = Some (SelectionParam param) ->
        opt_returnType (commonOptions d) = Some (cl_fieldType cl))
  /\ (forall factory, cp_selectionSet p = Some (SelectionFactory factory) ->
        opt_returnType (commonOptions d) = None).
Proof.
  intros Hd. apply callable_returns_dispatch in Hd as (_ & o & Ho & ->).
  rewrite commonOptions_dispatch, (optionsOfCall_returnType cl p o Ho).
  repeat split.
  - by intros ->.
  - by intros param ->.
  - by intros factory ->.
Qed.

(** On [context.api.Query.hello], called without a [selectionSet]. *)
Lemma returnType_override_witness :
  exists d,
    fst (inContextCallable helloField directCall ∅) = Returns d
    /\ opt_returnType (commonOptions d) = Some (TNamed String').
Proof.
  eexists. split; [reflexivity|].
  apply (returnType_override helloField directCall ∅); reflexivity.
Defined.

(** C3 as stated fails: with the text ['{ id }'] as [selectionSet], the
    options of the delegation call still carry the field's declared
    type as [returnType]. *)
Lemma returnType_kept_for_text :
  exists o,
    fst (inContextCallable userField (withSelectionSet idSelection directCall) ∅)
      = Returns (delegateToSchema o)
    /\ opt_returnType (reg_common o) = Some (TNonNull (TNamed User)).
Proof. eexists. split; reflexivity. Qed.

(** C8 (amended).  For a callable built for a composite field, called
    with a resolve info that holds no selection and with a
    [selectionSet] other than the empty string: the options of the
    delegation call refer to a new info object, a copy of the supplied
    one whose first field node has the selection set [{ __typename }]
    and whose other field nodes are the supplied ones; every object of
    the store, the supplied info among them, is left as it was. *)
Theorem info_patched_with_typename `{GraphQLTools}
    (cl : FieldClosure) (p : CallParams) (σ : Store) (info : ResolveInfo) :
  isLeafType (getNamedType (cl_fieldType cl)) = false ->
  suppliedInfo cl p σ = Some info ->
  selectionCount info = 0 ->
  (exists s, cp_selectionSet p = Some s /\ s <> SelectionParam (SelectionText "")) ->
  exists d σ' forwarded,
    inContextCallable cl p σ = (Returns d, σ')
    /\ σ' !! opt_info (commonOptions d) = Some forwarded
    /\ forwarded = patchedInfo info
    /\ fn_selectionSet <$> fieldNodes forwarded !! 0
        = Some (Some {| selections := [FieldSelection "__typename" None] |})
    /\ drop 1 (fieldNodes forwarded) = drop 1 (fieldNodes info)
    /\ σ ⊆ σ'
    /\ (forall r, cp_info p = Some r ->
          opt_info (commonOptions d) <> r /\ σ' !! r = Some info).
Proof.
  intros Hleaf Hi Hcount Hss.
  assert (Hsh : shouldHaveSelectionSet cl = true).
  { unfold shouldHaveSelectionSet, namedReturnType. by rewrite Hleaf. }
  apply truthySelectionSet_true in Hss.
  rewrite callable_unfold.
  pose proof (supplied_lookup cl p σ) as Hs.
  destruct (match cp_info p with Some _ => _ | None => _ end) as [r0 σ0] eqn:E0.
  destruct Hs as [Hs Hsub]. rewrite Hi in Hs.
  unfold buildCommonDelegateOptions. rewrite Hsh, Hs, Hcount, Hss.
  cbn [negb Nat.eqb].
  pose proof (alloc_lookup (patchedInfo info) σ0) as Hl.
  pose proof (alloc_fresh (patchedInfo info) σ0) as Hf.
  pose proof (alloc_extends (patchedInfo info) σ0) as He.
  destruct (alloc (patchedInfo info) σ0) as [r' σ'] eqn:E'. cbn [fst snd] in *.
  exists (dispatch cl p (set_info r' (initialDelegateOptions cl p r0))), σ', (patchedInfo info).
  rewrite commonOptions_dispatch.
  assert (Hr' : opt_info (set_info r' (initialDelegateOptions cl p r0)) = r') by reflexivity.
  rewrite Hr'.
  split; [reflexivity|]. split; [exact Hl|]. split; [reflexivity|].
  split; [simpl; by destruct (fieldNodes info !! 0)|].
  split; [reflexivity|]. split; [by etrans|].
  intros r Hr. rewrite Hr in E0. injection E0 as <- <-.
  split; [congruence|].
  eapply lookup_weaken; [exact Hs | exact He].
Qed.

(** On [context.api.Query.user], called with the info of [userStore]
    and [selectionSet: '{ id }']. *)
Lemma info_patched_with_typename_witness :
  exists d σ' forwarded,
    inContextCallable userField
      (withInfo 5 (withSelectionSet idSelection directCall)) userStore = (Returns d, σ')
    /\ σ' !! opt_info (commonOptions d) = Some forwarded
    /\ forwarded = patchedInfo userInfo
    /\ fn_selectionSet <$> fieldNodes forwarded !! 0
        = Some (Some {| selections := [FieldSelection "__typename" None] |})
    /\ drop 1 (fieldNodes forwarded) = drop 1 (fieldNodes userInfo)
    /\ userStore ⊆ σ'
    /\ (forall r, cp_info (withInfo 5 (withSelectionSet idSelection directCall)) = Some r ->
          opt_info (commonOptions d) <> r /\ σ' !! r = Some userInfo).
Proof.
  apply (info_patched_with_typename userField
           (withInfo 5 (withSelectionSet idSelection directCall)) userStore userInfo);
    [reflexivity | reflexivity | reflexivity |].
  exists idSelection. split; [reflexivity | discriminate].
Defined.

(** C8 as stated fails: with the empty string as [selectionSet], the
    call on the composite [Query.user] with an info that holds no
    selection throws, and no patched info is made or forwarded. *)
Lemma empty_selectionSet_text_forwards_nothing :
  cp_selectionSet (withInfo 5 (withSelectionSet (SelectionParam (SelectionText "")) directCall))
    = Some (SelectionParam (SelectionText ""))
  /\ selectionCount userInfo = 0
  /\ inContextCallable userField
        (withInfo 5 (withSelectionSet (SelectionParam (SelectionText "")) directCall))
        userStore
      = (Throws (Error "You have to provide 'selectionSet' for context.api.Query.user"),
         userStore).
Proof. repeat split. Qed.

(** * Properties of the SDK builder *)

Lemma findSubschemaByName_None entries name :
  findSubschemaByName entries name = None <->
  forall config subschema, (config, subschema) ∈ entries -> sc_name config <> Some name.
Proof.
  induction entries as [|[config subschema] entries IH]; simpl.
  - split; [|done]. intros _ ? ? Hin. by apply elem_of_nil in Hin.
  - destruct (decide (sc_name config = Some name)) as [Heq|Hne].
    + split; [discriminate|]. intros Hall. destruct (Hall config subschema); [left|done].
    + rewrite IH. split.
      * intros Hall c s' Hin. apply elem_of_cons in Hin as [[= -> ->]|Hin]; eauto.
      * intros Hall c s' Hin. apply (Hall c s'). by right.
Qed.

(** Every closure of a root type's callables holds the variables of
    the loops around it. *)
Lemma rootTypeCallables_lookup rawSource target transformedSchema operationType
    rootType field cl :
  rootTypeCallables rawSource target transformedSchema operationType rootType !! field
    = Some cl ->
  cl_rawSource cl = rawSource /\ cl_rawSourceSubSchemaConfig cl = target
  /\ cl_rootType cl = rootType /\ cl_fieldName cl = field.
Proof.
  unfold rootTypeCallables.
  assert (Hgen : forall fields (acc : gmap string FieldClosure),
    (forall f c, acc !! f = Some c ->
       cl_rawSource c = rawSource /\ cl_rawSourceSubSchemaConfig c = target
       /\ cl_rootType c = rootType /\ cl_fieldName c = f) ->
    forall f c,
      fold_left
        (fun callables '(fieldName, type) =>
           <[fieldName :=
               {| cl_rawSource := rawSource;
                  cl_rawSourceSubSchemaConfig := target;
                  cl_transformedSchema := transformedSchema;
                  cl_rootType := rootType;
                  cl_operationType := operationType;
                  cl_fieldName := fieldName;
                  cl_fieldType := type |}]> callables)
        fields acc !! f = Some c ->
      cl_rawSource c = rawSource /\ cl_rawSourceSubSchemaConfig c = target
      /\ cl_rootType c = rootType /\ cl_fieldName c = f).
  { induction fields as [|[fieldName type] fields IH]; intros acc Hacc f c; simpl.
    - apply Hacc.
    - apply IH. intros f' c' Hl.
      apply lookup_insert_Some in Hl as [[<- <-]|[_ Hl]]; [done|by apply Hacc]. }
  apply Hgen. intros f c Hl. by rewrite lookup_empty in Hl.
Qed.

Lemma buildRawSourceContext_lookup stitchingInfo rawSource transformedSchema
    rootType callables field cl :
  ctx_rootTypes (buildRawSourceContext stitchingInfo rawSource transformedSchema)
    !! rootType = Some callables ->
  callables !! field = Some cl ->
  cl_rawSource cl = rawSource
  /\ cl_rawSourceSubSchemaConfig cl = rawSourceSubSchemaConfig stitchingInfo rawSource
  /\ ot_name (cl_rootType cl) = rootType /\ cl_fieldName cl = field.
Proof.
  unfold buildRawSourceContext, rootTypes; simpl.
  intros Hroot Hfield.
  assert (Hone : forall operationType t,
    rootTypeCallables rawSource (rawSourceSubSchemaConfig stitchingInfo rawSource)
      transformedSchema operationType t = callables ->
    ot_name t = rootType ->
    cl_rawSource cl = rawSource
    /\ cl_rawSourceSubSchemaConfig cl = rawSourceSubSchemaConfig stitchingInfo rawSource
    /\ ot_name (cl_rootType cl) = rootType /\ cl_fieldName cl = field).
  { intros operationType t <- <-.
    apply rootTypeCallables_lookup in Hfield as (? & ? & -> & ?). done. }
  destruct (getQueryType transformedSchema) as [q|],
           (getMutationType transformedSchema) as [m|],
           (getSubscriptionType transformedSchema) as [s|];
    repeat match type of Hroot with
    | <[_ := _]> _ !! _ = Some _ =>
        apply lookup_insert_Some in Hroot as [[Hn Hc]|[_ Hroot]];
          [by eapply Hone|]
    end;
    by rewrite lookup_empty in Hroot.
Qed.

(** The SDK is built whenever the source map holds every raw source,
    and each of its contexts is the one built for a raw source. *)
Lemma buildInContextSDK_fulfilled unifiedSchema rawSources :
  (forall rawSource, rawSource ∈ rawSources ->
     is_Some (us_sourceMap unifiedSchema rawSource)) ->
  exists meshContext,
    buildInContextSDK unifiedSchema rawSources = Fulfilled meshContext
    /\ forall source rawSourceContext,
         meshContext !! source = Some rawSourceContext ->
         exists rawSource transformedSchema,
           rawSource ∈ rawSources
           /\ rawSourceContext =
                buildRawSourceContext (us_stitchingInfo unifiedSchema) rawSource
                  transformedSchema.
Proof.
  unfold buildInContextSDK.
  assert (Hgen : forall l (acc : gmap string RawSourceContext) (Q : RawSourceOutput -> Prop),
    (forall rawSource, rawSource ∈ l -> is_Some (us_sourceMap unifiedSchema rawSource)) ->
    (forall source c, acc !! source = Some c ->
       exists rawSource transformedSchema, Q rawSource /\
         c = buildRawSourceContext (us_stitchingInfo unifiedSchema) rawSource transformedSchema) ->
    exists meshContext,
      fold_left
        (fun built rawSource =>
           match built with
           | Rejected e => Rejected e
           | Fulfilled meshContext =>
               match us_sourceMap unifiedSchema rawSource with
               | Some transformedSchema =>
                   Fulfilled
                     (<[rs_name rawSource :=
                          buildRawSourceContext (us_stitchingInfo unifiedSchema)
                            rawSource transformedSchema]> meshContext)
               | None =>
                   Rejected
                     (TypeError "Cannot read properties of undefined (reading 'getQueryType')")
               end
           end) l (Fulfilled acc) = Fulfilled meshContext
      /\ forall source c, meshContext !! source = Some c ->
           exists rawSource transformedSchema, (Q rawSource \/ rawSource ∈ l) /\
             c = buildRawSourceContext (us_stitchingInfo unifiedSchema) rawSource
                   transformedSchema).
  { induction l as [|rs l IH]; intros acc Q Hmap Hacc; simpl.
    - exists acc. split; [done|]. intros source c Hl.
      destruct (Hacc source c Hl) as (r & t & ? & ?). eauto 6.
    - destruct (Hmap rs) as [ts Hts]; [left|]. rewrite Hts.
      destruct (IH (<[rs_name rs := buildRawSourceContext (us_stitchingInfo unifiedSchema) rs ts]> acc)
                  (fun r => Q r \/ r = rs)) as (m & Hm & Hall).
      + intros r Hr. apply Hmap. by right.
      + intros source c Hl.
        apply lookup_insert_Some in Hl as [[_ <-]|[_ Hl]]; [eauto 6|].
        destruct (Hacc source c Hl) as (r & t & ? & ?). eauto 6.
      + exists m. split; [done|]. intros source c Hl.
        destruct (Hall source c Hl) as (r & t & [[?|Heq]|?] & ?);
          exists r, t; (split; [|done]);
          [by left | right; rewrite Heq; by left | right; by right]. }
  intros Hmap.
  destruct (Hgen rawSources ∅ (fun _ => False) Hmap) as (m & Hm & Hall).
  { intros source c Hl. by rewrite lookup_empty in Hl. }
  exists m. split; [done|]. intros source c Hl.
  destruct (Hall source c Hl) as (r & t & [[]|?] & ?). eauto.
Qed.

Lemma optionsOfCall_schema cl p o :
  optionsOfCall cl p o -> opt_schema o = cl_rawSourceSubSchemaConfig cl.
Proof.
  unfold optionsOfCall. intros ->. rewrite set_info_initial.
  unfold initialDelegateOptions. by destruct (isFunction _).
Qed.

(** C6 (amended).  When the merged schema has a stitching info, the
    delegation target of a raw source's callables is the subschema of
    the first entry of [subschemaMap] whose config has the raw source's
    name.  When no entry has that name, no error is raised for it: the
    SDK is built all the same (the source map holding every raw
    source), and a call of such a callable that passes the
    [selectionSet] test makes its delegation call with an undefined
    [schema]. *)
Theorem unmatched_subschema_not_reported `{GraphQLTools}
    (unifiedSchema : UnifiedSchema) (rawSources : list RawSourceOutput)
    (stitchingInfo : StitchingInfo) :
  us_stitchingInfo unifiedSchema = Some stitchingInfo ->
  (forall rawSource, rawSource ∈ rawSources ->
     is_Some (us_sourceMap unifiedSchema rawSource)) ->
  exists meshContext,
    buildInContextSDK unifiedSchema rawSources = Fulfilled meshContext
    /\ forall source rootType field cl,
         lookupCallable meshContext source rootType field = Some cl ->
         cl_rawSourceSubSchemaConfig cl
           = SubschemaTarget <$>
               findSubschemaByName (subschemaMap stitchingInfo) (rs_name (cl_rawSource cl))
         /\ ((forall config subschema,
                (config, subschema) ∈ subschemaMap stitchingInfo ->
                sc_name config <> Some (rs_name (cl_rawSource cl))) ->
             cl_rawSourceSubSchemaConfig cl = None
             /\ forall p σ,
                  rejected cl p σ = false ->
                  exists d, fst (inContextCallable cl p σ) = Returns d
                            /\ opt_schema (commonOptions d) = None).
Proof.
  intros Hsi Hmap.
  destruct (buildInContextSDK_fulfilled unifiedSchema rawSources Hmap) as (m & Hm & Hall).
  exists m. split; [done|].
  intros source rootType field cl Hl.
  unfold lookupCallable in Hl.
  destruct (m !! source) as [c|] eqn:Hc; [|discriminate]. simpl in Hl.
  destruct (ctx_rootTypes c !! rootType) as [callables|] eqn:Hr; [|discriminate].
  simpl in Hl.
  destruct (Hall source c Hc) as (rs & ts & _ & ->).
  destruct (buildRawSourceContext_lookup _ _ _ _ _ _ _ Hr Hl) as (Hrs & Htarget & _ & _).
  rewrite Hsi in Htarget. simpl in Htarget. rewrite Hrs.
  split; [done|].
  intros Hnone. apply findSubschemaByName_None in Hnone.
  rewrite Hnone in Htarget. simpl in Htarget.
  split; [done|].
  intros p σ Hrej.
  apply callable_not_rejected in Hrej as (o & Ho & Hd).
  exists (dispatch cl p o). split; [done|].
  by rewrite commonOptions_dispatch, (optionsOfCall_schema cl p o Ho).
Qed.

(** On the raw source [api] and a stitching info without a subschema
    of that name. *)
Lemma unmatched_subschema_not_reported_witness :
  exists meshContext,
    buildInContextSDK stitchedSchema [apiRawSource] = Fulfilled meshContext
    /\ forall source rootType field cl,
         lookupCallable meshContext source rootType field = Some cl ->
         cl_rawSourceSubSchemaConfig cl
           = SubschemaTarget <$>
               findSubschemaByName [otherSubschema] (rs_name (cl_rawSource cl))
         /\ ((forall config subschema,
                (config, subschema) ∈ [otherSubschema] ->
                sc_name config <> Some (rs_name (cl_rawSource cl))) ->
             cl_rawSourceSubSchemaConfig cl = None
             /\ forall p σ,
                  rejected cl p σ = false ->
                  exists d, fst (inContextCallable cl p σ) = Returns d
                            /\ opt_schema (commonOptions d) = None).
Proof.
  apply (unmatched_subschema_not_reported stitchedSchema [apiRawSource]
           {| subschemaMap := [otherSubschema] |}).
  - reflexivity.
  - intros rawSource _. by eexists.
Defined.

(** C6 as stated fails: with a stitching info that has no subschema
    named [api], the SDK of the raw source [api] is built without an
    error, and calling [context.api.Query.hello] throws nothing either:
    it calls [delegateToSchema] with an undefined [schema]. *)
Lemma unmatched_subschema_delegates :
  findSubschemaByName [otherSubschema] (rs_name apiRawSource) = None
  /\ exists meshContext cl o,
       buildInContextSDK stitchedSchema [apiRawSource] = Fulfilled meshContext
       /\ lookupCallable meshContext "api" "Query" "hello" = Some cl
       /\ fst (inContextCallable cl directCall ∅) = Returns (delegateToSchema o)
       /\ opt_schema (reg_common o) = None.
Proof.
  split; [reflexivity|].
  eexists _, _, _. split; [reflexivity|].
  split; [vm_compute; reflexivity|].
  split; reflexivity.
Qed.

(** * Properties of the source loading loop *)

Section LoadFacts.
Context `{MeshUtils}.

Lemma sourceFails_outcome apiSource :
  sourceFails apiSource = true <-> exists e, loadOutcome apiSource = Throws e.
Proof.
  unfold sourceFails, handlerThrows, transformsThrow, loadOutcome.
  destruct (getMeshSource (as_handler apiSource)) as [[source|e]|e]; simpl.
  - destruct (rawSourceOf apiSource source) as [r|e]; simpl.
    + split; [discriminate|]. by intros [e ?].
    + split; [by exists e|done].
  - split; [by exists e|done].
  - split; [by exists e|done].
Qed.

Lemma sourceLoads_outcome apiSource :
  sourceFails apiSource = false <-> exists rawSource, loadOutcome apiSource = Returns rawSource.
Proof.
  destruct (sourceFails apiSource) eqn:Hf.
  - apply sourceFails_outcome in Hf as [e He]. rewrite He.
    split; [discriminate|]. by intros [r ?].
  - split; [|done]. intros _.
    destruct (loadOutcome apiSource) as [r|e] eqn:Ho; [by exists r|].
    assert (Ht : sourceFails apiSource = true)
      by (apply sourceFails_outcome; by exists e).
    congruence.
Qed.

Lemma handlerThrows_fails apiSource :
  handlerThrows apiSource = true -> sourceFails apiSource = true.
Proof. unfold sourceFails. by intros ->. Qed.

(** One callback started. *)
Lemma startSource_state st apiSource :
  rawSources (startSource st apiSource) = rawSources st
  /\ (failed (startSource st apiSource) = true <->
       failed st = true \/ exists e, getMeshSource (as_handler apiSource) = Throws e)
  /\ (forall entry, entry ∈ log st -> entry ∈ log (startSource st apiSource))
  /\ (forall e, getMeshSource (as_handler apiSource) = Throws e ->
        LogError (as_name apiSource) "Failed to generate the schema" e
          ∈ log (startSource st apiSource)).
Proof.
  unfold startSource, caught, logged.
  destruct (getMeshSource (as_handler apiSource)) as [promise|e]; simpl.
  - split; [done|]. split; [|split].
    + split; [by left|]. by intros [?|[e ?]].
    + intros entry Hin. apply elem_of_app. by left.
    + discriminate.
  - split; [done|]. split; [|split].
    + split; [|done]. intros _. right. by exists e.
    + intros entry Hin. apply elem_of_app. left. apply elem_of_app. by left.
    + intros e' [= <-]. apply elem_of_app. right. by left.
Qed.

Lemma startSources_state sources st :
  rawSources (fold_left startSource sources st) = rawSources st
  /\ (failed (fold_left startSource sources st) = true <->
       failed st = true \/
       exists apiSource e,
         apiSource ∈ sources /\ getMeshSource (as_handler apiSource) = Throws e)
  /\ (forall entry, entry ∈ log st -> entry ∈ log (fold_left startSource sources st))
  /\ (forall apiSource e,
        apiSource ∈ sources -> getMeshSource (as_handler apiSource) = Throws e ->
        LogError (as_name apiSource) "Failed to generate the schema" e
          ∈ log (fold_left startSource sources st)).
Proof.
  revert st. induction sources as [|a sources IH]; intros st; simpl.
  - split; [done|]. split; [|split]; [|done|].
    + split; [by left|].
      intros [?|(a & e & Ha & _)]; [done|]. by apply elem_of_nil in Ha.
    + intros a e Ha. by apply elem_of_nil in Ha.
  - destruct (startSource_state st a) as (Hraw1 & Hfailed1 & Hlog1 & Hthrown1).
    destruct (IH (startSource st a)) as (Hraw & Hfailed & Hlog & Hthrown).
    split; [congruence|]. split; [|split].
    + rewrite Hfailed, Hfailed1. split.
      * intros [[?|[e He]]|(a' & e & Ha' & He)]; [by left| |].
        -- right. exists a, e. split; [by left|done].
        -- right. exists a', e. split; [by right|done].
      * intros [?|(a' & e & Ha' & He)]; [by left; left|].
        apply elem_of_cons in Ha' as [->|Ha'].
        -- left. right. by exists e.
        -- right. by exists a', e.
    + intros entry Hin. by apply Hlog, Hlog1.
    + intros a' e Ha' He. apply elem_of_cons in Ha' as [->|Ha'].
      * by apply Hlog, Hthrown1.
      * by apply (Hthrown a' e).
Qed.

(** One callback resumed. *)
Lemma resumeSource_state sources i st :
  let st1 :=
    match sources !! i with
    | Some apiSource => resumeSource st apiSource
    | None => st
    end in
  rawSources st1 = rawSources st ++ from_option (fun x => [x]) [] (rawSourceAt sources i)
  /\ (failed st1 = true <->
       failed st = true \/
       exists apiSource promise,
         sources !! i = Some apiSource /\
         getMeshSource (as_handler apiSource) = Returns promise /\
         sourceFails apiSource = true)
  /\ (forall entry, entry ∈ log st -> entry ∈ log st1)
  /\ (forall apiSource promise,
        sources !! i = Some apiSource ->
        getMeshSource (as_handler apiSource) = Returns promise ->
        attemptEnded st1 apiSource).
Proof.
  unfold rawSourceAt, resumeSource, attemptEnded, sourceFails, handlerThrows,
    transformsThrow, loadOutcome, caught, logged.
  destruct (sources !! i) as [a|]; simpl.
  - destruct (getMeshSource (as_handler a)) as [[source|e]|e] eqn:Hh; simpl.
    + destruct (rawSourceOf a source) as [r|e] eqn:Hr; simpl.
      * split; [done|]. split; [|split].
        -- split; [by left|]. intros [?|(a' & p & Ha' & Hp & Hf)]; [done|].
           injection Ha' as <-. rewrite Hh in Hf. by rewrite Hr in Hf.
        -- intros entry Hin. apply elem_of_app. by left.
        -- intros a' p [= <-] _. rewrite Hh, Hr.
           apply elem_of_app. right. by left.
      * split; [by rewrite app_nil_r|]. split; [|split].
        -- split; [|done]. intros _. right. exists a, (Fulfilled source).
           split; [done|]. split; [done|]. rewrite Hh. by rewrite Hr.
        -- intros entry Hin. apply elem_of_app. left. apply elem_of_app. by left.
        -- intros a' p [= <-] _. rewrite Hh, Hr.
           apply elem_of_app. right. by left.
    + split; [by rewrite app_nil_r|]. split; [|split].
      * split; [|done]. intros _. right. exists a, (Rejected e).
        split; [done|]. split; [done|]. by rewrite Hh.
      * intros entry Hin. apply elem_of_app. by left.
      * intros a' p [= <-] _. rewrite Hh.
        apply elem_of_app. right. by left.
    + split; [by rewrite app_nil_r|]. split; [|split]; [|done|].
      * split; [by left|]. intros [?|(a' & p & Ha' & Hp & _)]; [done|].
        injection Ha' as <-. congruence.
      * intros a' p [= <-] Hp. congruence.
  - split; [by rewrite app_nil_r|]. split; [|split]; [|done|done].
    split; [by left|]. by intros [?|(a' & p & ? & _)].
Qed.

Lemma attemptEnded_kept st st' apiSource :
  (forall rawSource, rawSource ∈ rawSources st -> rawSource ∈ rawSources st') ->
  (forall entry, entry ∈ log st -> entry ∈ log st') ->
  attemptEnded st apiSource -> attemptEnded st' apiSource.
Proof.
  unfold attemptEnded. intros Hraw Hlog.
  destruct (loadOutcome apiSource); [apply Hraw | apply Hlog].
Qed.

(** The state after the callbacks of [completion] have been resumed. *)
Lemma resumeSources_state sources completion st :
  let st' :=
    fold_left
      (fun st i =>
         match sources !! i with
         | Some apiSource => resumeSource st apiSource
         | None => st
         end) completion st in
  rawSources st' = rawSources st ++ omap (rawSourceAt sources) completion
  /\ (failed st' = true <->
       failed st = true \/
       exists i apiSource promise,
         i ∈ completion /\ sources !! i = Some apiSource /\
         getMeshSource (as_handler apiSource) = Returns promise /\
         sourceFails apiSource = true)
  /\ (forall entry, entry ∈ log st -> entry ∈ log st')
  /\ (forall i apiSource promise,
        i ∈ completion -> sources !! i = Some apiSource ->
        getMeshSource (as_handler apiSource) = Returns promise ->
        attemptEnded st' apiSource).
Proof.
  revert st. induction completion as [|i completion IH]; intros st; simpl.
  - rewrite app_nil_r. split; [done|]. split; [|split]; [|done|].
    + split; [by left|].
      intros [?|(i & a & p & Hi & _)]; [done|]. by apply elem_of_nil in Hi.
    + intros i a p Hi. by apply elem_of_nil in Hi.
  - destruct (resumeSource_state sources i st) as (Hraw1 & Hfailed1 & Hlog1 & Hended1).
    destruct (IH (match sources !! i with
                  | Some apiSource => resumeSource st apiSource
                  | None => st
                  end)) as (Hraw & Hfailed & Hlog & Hended).
    split; [|split; [|split]].
    + rewrite Hraw, Hraw1, <- app_assoc. f_equal.
      by destruct (rawSourceAt sources i).
    + rewrite Hfailed, Hfailed1. split.
      * intros [[?|(a & p & Ha & Hp & Hf)]|(j & a & p & Hj & Ha & Hp & Hf)]; [by left| |].
        -- right. exists i, a, p. split; [by left|done].
        -- right. exists j, a, p. split; [by right|done].
      * intros [?|(j & a & p & Hj & Ha & Hp & Hf)]; [by left; left|].
        apply elem_of_cons in Hj as [->|Hj].
        -- left. right. by exists a, p.
        -- right. by exists j, a, p.
    + intros entry Hin. by apply Hlog, Hlog1.
    + intros j a p Hj Ha Hp. apply elem_of_cons in Hj as [->|Hj].
      * eapply attemptEnded_kept; [| |by apply (Hended1 a p)].
        -- intros r Hr. rewrite Hraw. apply elem_of_app. by left.
        -- exact Hlog.
      * by apply (Hended j a p).
Qed.

(** The raw sources pushed are those of the callbacks that end with a
    push, in the order of completion. *)
Lemma loadSources_rawSources sources completion :
  rawSources (loadSources sources completion) = omap (rawSourceAt sources) completion.
Proof.
  unfold loadSources.
  destruct (resumeSources_state sources completion
              (fold_left startSource sources initialLoadState)) as (Hraw & _).
  destruct (startSources_state sources initialLoadState) as (Hr0 & _).
  by rewrite Hraw, Hr0.
Qed.

(** With a completion order that settles every source, an index of the
    order is a configured source and the other way round. *)
Lemma settlesAll_elem sources completion apiSource :
  settlesAll sources completion ->
  apiSource ∈ sources <-> exists i, i ∈ completion /\ sources !! i = Some apiSource.
Proof.
  intros Hperm. split.
  - intros Hin. apply list_elem_of_lookup in Hin as [i Hi].
    exists i. split; [|done]. rewrite Hperm.
    apply elem_of_seq. split; [lia|]. apply lookup_lt_Some in Hi. lia.
  - intros (i & _ & Hi). by eapply list_elem_of_lookup_2.
Qed.

(** The state at the end of the await, when every callback has ended. *)
Lemma loadSources_state sources completion :
  settlesAll sources completion ->
  (failed (loadSources sources completion) = true <->
   exists apiSource, apiSource ∈ sources /\ sourceFails apiSource = true)
  /\ (forall apiSource, apiSource ∈ sources ->
        attemptEnded (loadSources sources completion) apiSource).
Proof.
  intros Hall. unfold loadSources.
  destruct (resumeSources_state sources completion
              (fold_left startSource sources initialLoadState))
    as (Hraw & Hfailed & Hlog & Hended).
  destruct (startSources_state sources initialLoadState)
    as (Hr0 & Hf0 & _ & Hthrown).
  split.
  - rewrite Hfailed, Hf0. split.
    + intros [[?|(a & e & Ha & He)]|(i & a & p & Hi & Ha & _ & Hf)]; [done| |].
      * exists a. split; [done|]. apply handlerThrows_fails.
        unfold handlerThrows. by rewrite He.
      * exists a. split; [|done]. by eapply list_elem_of_lookup_2.
    + intros (a & Ha & Hf).
      destruct (getMeshSource (as_handler a)) as [p|e] eqn:Hh.
      * right. apply (settlesAll_elem _ _ _ Hall) in Ha as (i & Hi & Hl).
        by exists i, a, p.
      * left. right. by exists a, e.
  - intros a Ha.
    destruct (getMeshSource (as_handler a)) as [p|e] eqn:Hh.
    + apply (settlesAll_elem _ _ _ Hall) in Ha as (i & Hi & Hl).
      by apply (Hended i a p).
    + unfold attemptEnded, loadOutcome. rewrite Hh.
      by apply Hlog, (Hthrown a e).
Qed.

(** The loading gives the raw sources in the order of completion
    exactly when the load of no source fails. *)
Lemma generateSchemas_settled sources completion :
  settlesAll sources completion ->
  match fst (generateSchemas sources completion) with
  | Fulfilled loaded =>
      loaded = omap (rawSourceAt sources) completion /\
      forall apiSource, apiSource ∈ sources -> sourceFails apiSource = false
  | Rejected e =>
      e = schemasNotGenerated /\
      exists apiSource, apiSource ∈ sources /\ sourceFails apiSource = true
  end.
Proof.
  intros Hall.
  destruct (loadSources_state sources completion Hall) as [Hfailed _].
  unfold generateSchemas.
  destruct (failed (loadSources sources completion)) eqn:Hf; simpl.
  - split; [done|]. by apply Hfailed.
  - split; [apply loadSources_rawSources|]. intros a Ha.
    apply not_true_is_false. intros Hthrows.
    assert (Ht : false = true) by (apply Hfailed; by exists a).
    discriminate.
Qed.

Lemma sourceFails_split apiSource :
  sourceFails apiSource = false <->
  handlerThrows apiSource = false /\ transformsThrow apiSource = false.
Proof. unfold sourceFails. apply orb_false_iff. Qed.

End LoadFacts.

(** C5 (amended).  For every list of configured sources whose
    callbacks all end: when at least one handler throws (at once, or by
    rejecting its promise), and also when a bare transform throws on
    the schema of a handler that resolved, [getMesh] fails with the one
    error "Schemas couldn't be generated successfully...", and by then
    the load attempt of every source has ended (its raw source has been
    pushed or its error has been logged, whatever the order of
    completion); when no handler throws and no bare transform throws,
    [getMesh] goes on with the merger and what follows, on the raw
    sources loaded. *)
Theorem load_failure_reported_after_all_attempts `{MeshUtils}
    (options : GetMeshOptions) (completion : list nat) :
  settlesAll (sources options) completion ->
  ((exists apiSource,
       apiSource ∈ sources options /\
       (handlerThrows apiSource = true \/ transformsThrow apiSource = true)) ->
   getMesh options completion = Rejected schemasNotGenerated
   /\ generateSchemas (sources options) completion
      = (Rejected schemasNotGenerated, log (loadSources (sources options) completion))
   /\ (forall apiSource, apiSource ∈ sources options ->
         attemptEnded (loadSources (sources options) completion) apiSource))
  /\ ((forall apiSource, apiSource ∈ sources options ->
         handlerThrows apiSource = false /\ transformsThrow apiSource = false) ->
      exists loaded,
        fst (generateSchemas (sources options) completion) = Fulfilled loaded
        /\ getMesh options completion = afterSources options loaded).
Proof.
  intros Hall.
  destruct (loadSources_state (sources options) completion Hall) as [Hfailed Hended].
  split.
  - intros (a & Ha & Hthrows).
    assert (Hf : failed (loadSources (sources options) completion) = true).
    { apply Hfailed. exists a. split; [done|].
      unfold sourceFails. apply orb_true_iff. exact Hthrows. }
    unfold getMesh, generateSchemas. rewrite Hf. simpl.
    split; [done|]. split; [done|]. exact Hended.
  - intros Hnone.
    assert (Hf : failed (loadSources (sources options) completion) = false).
    { apply not_true_is_false. intros E.
      apply Hfailed in E as (a & Ha & Hfails).
      destruct (Hnone a Ha) as [Hh Ht].
      unfold sourceFails in Hfails. rewrite Hh, Ht in Hfails. discriminate. }
    unfold getMesh, generateSchemas. rewrite Hf. simpl. eauto.
Qed.

(** A source that resolves, configured before one that rejects and
    settling after it: the build fails, the raw source of the first has
    been pushed and the error of the second has been logged. *)
Lemma load_failure_reported_after_all_attempts_witness :
  getMesh (optionsFor [slowSource; failingSource]) [1; 0] = Rejected schemasNotGenerated
  /\ (forall apiSource, apiSource ∈ [slowSource; failingSource] ->
        attemptEnded (loadSources [slowSource; failingSource] [1; 0]) apiSource).
Proof.
  assert (Hall : settlesAll (sources (optionsFor [slowSource; failingSource])) [1; 0])
    by apply perm_swap.
  destruct (load_failure_reported_after_all_attempts
              (optionsFor [slowSource; failingSource]) [1; 0] Hall) as [Hfail _].
  destruct Hfail as (Hmesh & _ & Hended).
  - exists failingSource. split; [right; left | left; reflexivity].
  - split; [exact Hmesh | exact Hended].
Defined.

(** C5 as stated fails: the handler of the one source resolves, so no
    handler throws, and yet the construction does not go past the
    loading: the bare transform configured for the source throws on
    the handler's schema, inside the [try] block, and [getMesh] fails
    with the error of the loading. *)
Lemma bare_transform_failure_rejects :
  getMeshSource (as_handler brittleSource) = Returns (Fulfilled apiMeshSource)
  /\ (forall apiSource, apiSource ∈ [brittleSource] -> handlerThrows apiSource = false)
  /\ applySchemaTransforms (ms_schema apiMeshSource) apiMeshSource [brokenTransform]
     = Throws (Error "Type Book not found")
  /\ fst (generateSchemas [brittleSource] [0]) = Rejected schemasNotGenerated
  /\ getMesh (optionsFor [brittleSource]) [0] = Rejected schemasNotGenerated
  /\ log (loadSources [brittleSource] [0])
     = [ LogDebug "GetMesh" "Getting subschemas from source handlers";
         LogDebug "brittle" "Generating the schema";
         LogDebug "brittle" "The schema has been generated successfully";
         LogDebug "brittle" "Analyzing transforms";
         LogDebug "brittle" "1 bare transforms found and applying";
         LogError "brittle" "Failed to generate the schema" (Error "Type Book not found") ].
Proof.
  split; [reflexivity|]. split.
  - intros apiSource Hin. by apply list_elem_of_singleton in Hin as ->.
  - split; [reflexivity|]. split; [reflexivity|]. split; [reflexivity|].
    vm_compute. reflexivity.
Qed.

(** C4 (amended).  When the handler of every configured source
    resolves and no bare transform throws on a handler's schema, the
    loading returns one raw source per configured source, in the order
    in which the handlers' promises settled: the record of a source
    stands where its handler stands in the order of completion.  The
    list is a permutation of the list in configuration order, and is
    that list when the handlers settle in configuration order.  When a
    bare transform throws, the loading returns no list: it fails with
    the error of the loading. *)
Theorem rawSources_in_completion_order `{MeshUtils}
    (sources : list ApiSource) (completion : list nat) :
  settlesAll sources completion ->
  ((forall apiSource, apiSource ∈ sources -> handlerThrows apiSource = false) ->
   (forall apiSource, apiSource ∈ sources -> transformsThrow apiSource = false) ->
   exists loaded,
     fst (generateSchemas sources completion) = Fulfilled loaded
     /\ loaded = omap (rawSourceAt sources) completion
     /\ rs_name <$> loaded = omap (fun i => as_name <$> sources !! i) completion
     /\ length loaded = length sources
     /\ loaded ≡ₚ inConfigurationOrder sources
     /\ (completion = seq 0 (length sources) -> loaded = inConfigurationOrder sources))
  /\ ((exists apiSource, apiSource ∈ sources /\ transformsThrow apiSource = true) ->
      fst (generateSchemas sources completion) = Rejected schemasNotGenerated).
Proof.
  intros Hall.
  pose proof (generateSchemas_settled sources completion Hall) as Hg.
  split.
  - intros Hhandlers Htransforms.
    assert (Hloads : forall a, a ∈ sources -> sourceFails a = false).
    { intros a Ha. apply sourceFails_split. split; auto. }
    destruct (fst (generateSchemas sources completion)) as [loaded|e].
    + destruct Hg as [-> _].
      exists (omap (rawSourceAt sources) completion).
      assert (Hnames : rs_name <$> omap (rawSourceAt sources) completion
                       = omap (fun i => as_name <$> sources !! i) completion).
      { clear Hall. induction completion as [|i completion IH]; [done|]. csimpl.
        assert (Hi : rs_name <$> rawSourceAt sources i = as_name <$> sources !! i).
        { unfold rawSourceAt.
          destruct (sources !! i) as [a|] eqn:Hl; [|done]. csimpl.
          assert (Ha : sourceFails a = false)
            by (apply Hloads; by eapply list_elem_of_lookup_2).
          apply sourceLoads_outcome in Ha as [r Hr]. rewrite Hr. csimpl. f_equal.
          unfold loadOutcome in Hr.
          destruct (getMeshSource (as_handler a)) as [[source|?]|?]; [|done|done].
          unfold rawSourceOf in Hr.
          destruct (bareTransforms a) as [noWrapTransforms|].
          - destruct (applySchemaTransforms _ _ _); [|done]. by injection Hr as <-.
          - by injection Hr as <-. }
        destruct (rawSourceAt sources i) as [r|], (sources !! i) as [a|];
          csimpl in *; try discriminate; [|exact IH].
        injection Hi as ->. by rewrite IH. }
      assert (Hperm : omap (rawSourceAt sources) completion ≡ₚ inConfigurationOrder sources).
      { unfold inConfigurationOrder. unfold settlesAll in Hall. by rewrite Hall. }
      split; [done|]. split; [done|]. split; [done|]. split; [|split; [done|]].
      * assert (Hlen : forall l : list nat,
                  (forall i, i ∈ l -> i < length sources) ->
                  length (omap (rawSourceAt sources) l) = length l).
        { induction l as [|i l IH]; intros Hl; [done|]. csimpl.
          assert (Hi : i < length sources) by (apply Hl; left).
          apply lookup_lt_is_Some in Hi as [a Ha].
          assert (Hf : sourceFails a = false)
            by (apply Hloads; by eapply list_elem_of_lookup_2).
          apply sourceLoads_outcome in Hf as [r Hr].
          unfold rawSourceAt at 1. rewrite Ha. csimpl. rewrite Hr. csimpl.
          f_equal. apply IH. intros j Hj. apply Hl. by right. }
        rewrite (Permutation_length Hperm). unfold inConfigurationOrder.
        rewrite Hlen; [apply length_seq|].
        intros i Hi. apply elem_of_seq in Hi. lia.
      * by intros ->.
    + destruct Hg as (_ & a & Ha & Hfails). rewrite (Hloads a Ha) in Hfails. done.
  - intros (a & Ha & Hthrows).
    destruct (fst (generateSchemas sources completion)) as [loaded|e].
    + destruct Hg as [_ Hloads]. specialize (Hloads a Ha).
      apply sourceFails_split in Hloads as [_ Ht]. congruence.
    + by destruct Hg as [-> _].
Qed.

(** Two sources whose handlers settle in the reverse of the
    configuration order. *)
Lemma rawSources_in_completion_order_witness :
  exists loaded,
    fst (generateSchemas [slowSource; fastSource] [1; 0]) = Fulfilled loaded
    /\ loaded = omap (rawSourceAt [slowSource; fastSource]) [1; 0]
    /\ rs_name <$> loaded
       = omap (fun i => as_name <$> [slowSource; fastSource] !! i) [1; 0]
    /\ length loaded = length [slowSource; fastSource]
    /\ loaded ≡ₚ inConfigurationOrder [slowSource; fastSource]
    /\ ([1; 0] = seq 0 (length [slowSource; fastSource]) ->
        loaded = inConfigurationOrder [slowSource; fastSource]).
Proof.
  assert (Hall : settlesAll [slowSource; fastSource] [1; 0]) by apply perm_swap.
  apply (proj1 (rawSources_in_completion_order [slowSource; fastSource] [1; 0] Hall)).
  - intros apiSource Hin.
    apply elem_of_cons in Hin as [->|Hin]; [reflexivity|].
    apply elem_of_cons in Hin as [->|Hin]; [reflexivity|].
    by apply elem_of_nil in Hin.
  - intros apiSource Hin.
    apply elem_of_cons in Hin as [->|Hin]; [reflexivity|].
    apply elem_of_cons in Hin as [->|Hin]; [reflexivity|].
    by apply elem_of_nil in Hin.
Defined.

(** C4 as stated fails, in two ways.  Of two sources whose handlers
    both resolve, [slow] configured before [fast], the one whose
    handler settles first comes first in the list returned.  And a
    source whose handler resolves, configured with a bare transform
    that throws, makes the loading return no list at all. *)
Lemma completion_order_counterexample :
  (as_name <$> [slowSource; fastSource] = ["slow"; "fast"]
   /\ handlerThrows slowSource = false /\ handlerThrows fastSource = false
   /\ exists loaded,
        fst (generateSchemas [slowSource; fastSource] [1; 0]) = Fulfilled loaded
        /\ rs_name <$> loaded = ["fast"; "slow"])
  /\ (handlerThrows brittleSource = false
      /\ fst (generateSchemas [brittleSource] [0]) = Rejected schemasNotGenerated).
Proof.
  split.
  - split; [reflexivity|]. split; [reflexivity|]. split; [reflexivity|].
    eexists. split; reflexivity.
  - split; reflexivity.
Qed.

(** * Properties of the requester *)

Section RequesterFacts.
Context `{GraphQLTools} `{Envelop}.

Lemma memoizedGetOperationType_hit document operation w :
  operationTypeCache w !! doc_ref document = Some operation ->
  memoizedGetOperationType document w = (Returns operation, w).
Proof. intros Hc. unfold memoizedGetOperationType, memoize1. by rewrite Hc. Qed.

Lemma memoizedGetOperationType_miss document w :
  operationTypeCache w !! doc_ref document = None ->
  match getOperationAST document with
  | Some operation =>
      exists w1,
        memoizedGetOperationType document w = (Returns operation, w1)
        /\ operationTypeCache w1 = <[doc_ref document := operation]> (operationTypeCache w)
        /\ trace w1 = trace w ++ [CalledGetOperationAST (doc_ref document)]
  | None =>
      exists w1,
        memoizedGetOperationType document w = (Throws noValidOperation, w1)
        /\ operationTypeCache w1 = operationTypeCache w
        /\ trace w1 = trace w ++ [CalledGetOperationAST (doc_ref document)]
  end.
Proof.
  intros Hc. unfold memoizedGetOperationType, memoize1. rewrite Hc.
  unfold getOperationType, bind, emit. simpl.
  destruct (getOperationAST document) as [operation|]; simpl; eauto.
Qed.

Lemma collapse_spec result :
  collapse result =
    match errorsOf result with
    | [] => Data (dataOf result)
    | e :: errors => AggregateError (e :: errors)
    end.
Proof. by destruct result as [[data [[|??]|]]|]. Qed.

(** The requester's body past the inspection of the document. *)
Lemma requester_unfold mesh globalContext document variables contextValue w
    operation w1 :
  memoizedGetOperationType document w = (Returns operation, w1) ->
  meshSdkRequester mesh globalContext document variables contextValue w =
    let merged := mergedContext globalContext contextValue w1 in
    match operation with
    | subscription =>
        match meshSubscribe mesh (inr document) variables (Some merged) None None
                (afterSpread w1) with
        | (Fulfilled (AsyncIterable results), w3) =>
            (Fulfilled (MappedIterable (mapAsyncIterator results collapse)), w3)
        | (Fulfilled (SingleResult result), w3) => (Fulfilled (Value (collapse result)), w3)
        | (Rejected e, w3) => (Rejected e, w3)
        end
    | _ =>
        match meshExecute mesh (inr document) variables (Some merged) None None
                (afterSpread w1) with
        | (Fulfilled (AsyncIterable _), w3) => (Fulfilled (Value (Data JsUndefined)), w3)
        | (Fulfilled (SingleResult result), w3) => (Fulfilled (Value (collapse result)), w3)
        | (Rejected e, w3) => (Rejected e, w3)
        end
    end.
Proof.
  intros Hop. unfold meshSdkRequester, async, bind at 1. rewrite Hop.
  destruct operation; unfold bind, spreadContext, awaitCall; simpl.
  - destruct (meshExecute _ _ _ _ _ _ _) as [[[r|rs]|e] w3]; reflexivity.
  - destruct (meshExecute _ _ _ _ _ _ _) as [[[r|rs]|e] w3]; reflexivity.
  - destruct (meshSubscribe _ _ _ _ _ _ _) as [[[r|rs]|e] w3]; reflexivity.
Qed.

Lemma requester_throws mesh globalContext document variables contextValue w e w1 :
  memoizedGetOperationType document w = (Throws e, w1) ->
  meshSdkRequester mesh globalContext document variables contextValue w
    = (Rejected e, w1).
Proof. intros Hop. unfold meshSdkRequester, async, bind at 1. by rewrite Hop. Qed.

End RequesterFacts.

(** C7.  When the document's operation is a subscription and
    [subscribe] resolves to an async iterable, the requester's promise
    is fulfilled with the iterable that yields, for each result, one
    [AggregateError] made of the result's errors when it has any, and
    its data otherwise (never the result itself).  When [subscribe], or
    [execute] for another operation, resolves to a single result, the
    promise is fulfilled with that result collapsed the same way; a
    result with errors fulfils it with the [AggregateError], it does not
    reject it. *)
Theorem requester_collapses_results `{GraphQLTools} `{Envelop}
    (mesh : MeshInstance) (globalContext : gmap string JsValue)
    (document : DocumentNode) (variables : option JsValue)
    (contextValue : option (gmap string JsValue))
    (w w1 w3 : World) (operation : OperationTypeNode) :
  memoizedGetOperationType document w = (Returns operation, w1) ->
  (forall results,
     operation = subscription ->
     meshSubscribe mesh (inr document) variables
       (Some (mergedContext globalContext contextValue w1)) None None (afterSpread w1)
       = (Fulfilled (AsyncIterable results), w3) ->
     exists values,
       meshSdkRequester mesh globalContext document variables contextValue w
         = (Fulfilled (MappedIterable values), w3)
       /\ Forall2
            (fun result value =>
               (errorsOf result <> [] /\ value = AggregateError (errorsOf result))
               \/ (errorsOf result = [] /\ value = Data (dataOf result)))
            results values)
  /\ (forall result,
        (operation = subscription /\
         meshSubscribe mesh (inr document) variables
           (Some (mergedContext globalContext contextValue w1)) None None (afterSpread w1)
           = (Fulfilled (SingleResult result), w3))
        \/ (operation <> subscription /\
            meshExecute mesh (inr document) variables
              (Some (mergedContext globalContext contextValue w1)) None None (afterSpread w1)
              = (Fulfilled (SingleResult result), w3)) ->
        exists value,
          meshSdkRequester mesh globalContext document variables contextValue w
            = (Fulfilled (Value value), w3)
          /\ ((errorsOf result <> [] /\ value = AggregateError (errorsOf result))
              \/ (errorsOf result = [] /\ value = Data (dataOf result)))).
Proof.
  intros Hop.
  assert (Hcollapse : forall result,
            (errorsOf result <> [] /\ collapse result = AggregateError (errorsOf result))
            \/ (errorsOf result = [] /\ collapse result = Data (dataOf result))).
  { intros result. rewrite collapse_spec. destruct (errorsOf result); [by right|by left]. }
  split.
  - intros results -> Hsub.
    rewrite (requester_unfold _ _ _ _ _ _ _ _ Hop). cbv zeta. rewrite Hsub.
    eexists. split; [reflexivity|].
    unfold mapAsyncIterator. apply Forall2_fmap_r, Forall_Forall2_diag, Forall_forall.
    intros result _. apply Hcollapse.
  - intros result Hres.
    rewrite (requester_unfold _ _ _ _ _ _ _ _ Hop). cbv zeta.
    destruct Hres as [[-> Hsub]|[Hne Hexec]].
    + rewrite Hsub. eauto.
    + destruct operation; [| |done]; rewrite Hexec; eauto.
Qed.

(** A subscription whose iterable yields a result with data, one with
    errors and an undefined one. *)
Lemma requester_collapses_results_witness :
  exists w3 values,
    meshSdkRequester sampleMesh ∅ subscriptionDocument None None initialWorld
      = (Fulfilled (MappedIterable values), w3)
    /\ Forall2
         (fun result value =>
            (errorsOf result <> [] /\ value = AggregateError (errorsOf result))
            \/ (errorsOf result = [] /\ value = Data (dataOf result)))
         sampleResults values.
Proof.
  pose (w1 := snd (memoizedGetOperationType subscriptionDocument initialWorld)).
  pose (w3 := snd (meshSubscribe sampleMesh (inr subscriptionDocument) None
                     (Some (mergedContext ∅ None w1)) None None (afterSpread w1))).
  exists w3.
  assert (Hop : memoizedGetOperationType subscriptionDocument initialWorld
                = (Returns subscription, w1)) by (vm_compute; reflexivity).
  apply (proj1 (requester_collapses_results sampleMesh ∅ subscriptionDocument None None
                  initialWorld w1 w3 subscription Hop)
           sampleResults);
    [reflexivity | vm_compute; reflexivity].
Defined.

(** C10 (amended).  For a document from which [getOperationAST] finds
    no single operation, and which was not inspected in another state
    before, the requester returns a promise that is rejected with the
    error "Must provide document with a valid operation" (the call
    itself does not throw); the one call made by then is the inspection
    of the document, neither [execute] nor [subscribe]; nothing is
    stored for the document.  The inspection is memoized by the
    identity of the document: an operation type found is stored under
    that identity, and a document with a stored type is not inspected
    again. *)
Theorem invalid_document_rejected `{GraphQLTools} `{Envelop}
    (mesh : MeshInstance) (globalContext : gmap string JsValue)
    (document : DocumentNode) (variables : option JsValue)
    (contextValue : option (gmap string JsValue)) (w : World) :
  (cacheAgrees w document ->
   getOperationAST document = None ->
   exists w',
     call (meshSdkRequester mesh globalContext document variables contextValue) w
       = (Returns (Rejected (Error "Must provide document with a valid operation")), w')
     /\ trace w' = trace w ++ [CalledGetOperationAST (doc_ref document)]
     /\ operationTypeCache w' = operationTypeCache w)
  /\ (forall operation,
        operationTypeCache w !! doc_ref document = Some operation ->
        memoizedGetOperationType document w = (Returns operation, w))
  /\ (forall operation,
        operationTypeCache w !! doc_ref document = None ->
        getOperationAST document = Some operation ->
        exists w1,
          memoizedGetOperationType document w = (Returns operation, w1)
          /\ operationTypeCache w1 !! doc_ref document = Some operation
          /\ trace w1 = trace w ++ [CalledGetOperationAST (doc_ref document)]).
Proof.
  split; [|split].
  - intros Hagree Hnone.
    assert (Hmiss : operationTypeCache w !! doc_ref document = None).
    { destruct (operationTypeCache w !! doc_ref document) as [operation|] eqn:E; [|done].
      apply Hagree in E. congruence. }
    pose proof (memoizedGetOperationType_miss document w Hmiss) as Hm.
    rewrite Hnone in Hm. destruct Hm as (w1 & Hm & Hcache & Htrace).
    exists w1. unfold call, meshSdkRequester, async, bind at 1. rewrite Hm. done.
  - intros operation Hc. by apply memoizedGetOperationType_hit.
  - intros operation Hmiss Hsome.
    pose proof (memoizedGetOperationType_miss document w Hmiss) as Hm.
    rewrite Hsome in Hm. destruct Hm as (w1 & Hm & Hcache & Htrace).
    exists w1. split; [done|]. split; [|done]. rewrite Hcache. apply lookup_insert_eq.
Qed.

(** A document with two operation definitions, in the initial state. *)
Lemma invalid_document_rejected_witness :
  exists w',
    call (meshSdkRequester sampleMesh ∅ twoOperations None None) initialWorld
      = (Returns (Rejected (Error "Must provide document with a valid operation")), w')
    /\ trace w' = trace initialWorld ++ [CalledGetOperationAST (doc_ref twoOperations)]
    /\ operationTypeCache w' = operationTypeCache initialWorld.
Proof.
  apply (invalid_document_rejected sampleMesh ∅ twoOperations None None initialWorld).
  - intros operation Hc. vm_compute in Hc. discriminate.
  - reflexivity.
Defined.

(** C10 as stated fails: for a document without an operation
    definition, the call of the requester does not throw; it returns a
    promise, which is rejected with the error. *)
Lemma invalid_document_promise_rejected :
  getOperationAST noOperationDocument = None
  /\ fst (call (meshSdkRequester sampleMesh ∅ noOperationDocument None None) initialWorld)
     = Returns (Rejected (Error "Must provide document with a valid operation"))
  /\ fst (call (meshSdkRequester sampleMesh ∅ noOperationDocument None None) initialWorld)
     <> Throws (Error "Must provide document with a valid operation").
Proof. split; [reflexivity|]. split; [reflexivity|discriminate]. Qed.

(** * Properties of the pipeline caches *)

Lemma cachesSound_memo w w' :
  memo w = memo w' -> cachesSound w -> cachesSound w'.
Proof.
  unfold memo. intros [= Hf He Hn] [S1 S2 S3 S4].
  split; rewrite <- ?Hf, <- ?He, <- ?Hn; assumption.
Qed.

Lemma envelopedCacheOf_memo r w w' :
  memo w = memo w' -> envelopedCacheOf r w = envelopedCacheOf r w'.
Proof. unfold memo, envelopedCacheOf. by intros [= _ -> _]. Qed.

Lemma cachesKept_refl w : cachesKept w w.
Proof. by split. Qed.

Lemma cachesKept_trans w1 w2 w3 :
  cachesKept w1 w2 -> cachesKept w2 w3 -> cachesKept w1 w3.
Proof. intros [F1 E1] [F2 E2]. split; eauto. Qed.

Lemma cachesKept_memo_r w w1 w1' :
  memo w1 = memo w1' -> cachesKept w w1 -> cachesKept w w1'.
Proof.
  intros Hm [F E]. split.
  - intros p f Hp. apply F in Hp. unfold memo in Hm. injection Hm as <- _ _. done.
  - intros r c e Hc. rewrite <- (envelopedCacheOf_memo r w1 w1' Hm). by apply E.
Qed.

Lemma cachesKept_memo_l w w' w1 :
  memo w = memo w' -> cachesKept w w1 -> cachesKept w' w1.
Proof.
  intros Hm [F E]. split.
  - intros p f Hp. apply F. unfold memo in Hm. injection Hm as -> _ _. done.
  - intros r c e Hc. apply E. by rewrite (envelopedCacheOf_memo r w w' Hm).
Qed.

(** Storing a new factory. *)
Lemma sound_add_factory w w' p f :
  cachesSound w -> factoryCache w !! p = None ->
  factory_plugins f = p -> factory_ref f = nextRef w ->
  memo w' = (<[p := f]> (factoryCache w), envelopedCache w, Pos.succ (nextRef w)) ->
  cachesSound w' /\ cachesKept w w'.
Proof.
  intros [S1 S2 S3 S4] Hnone Hp Hr [= Hf He Hn]. split; [split|split].
  - intros p' f'. rewrite Hf, Hn. intros Hl.
    apply lookup_insert_Some in Hl as [[<- <-]|[_ Hl]].
    + split; [done|]. rewrite Hr. lia.
    + destruct (S1 p' f' Hl). split; [done|lia].
  - intros r m. rewrite He, Hn. intros Hl. specialize (S2 r m Hl). lia.
  - intros r m c e. rewrite He, Hn. intros Hl Hc.
    destruct (S3 r m c e Hl Hc). split; [done|lia].
  - intros r1 m1 c1 e1 r2 m2 c2 e2. rewrite He. apply S4.
  - intros p' f' Hl. rewrite Hf. rewrite lookup_insert_ne; [done|congruence].
  - intros r c e. unfold envelopedCacheOf. by rewrite He.
Qed.

(** Storing a new pipeline in the cache of the closure [r]. *)
Lemma sound_add_enveloped w w' r c e :
  cachesSound w -> (r < nextRef w)%positive ->
  envelopedCacheOf r w !! c = None ->
  env_initialContext e = c -> env_ref e = nextRef w ->
  memo w' = (factoryCache w,
             <[r := <[c := e]> (envelopedCacheOf r w)]> (envelopedCache w),
             Pos.succ (nextRef w)) ->
  cachesSound w' /\ cachesKept w w'.
Proof.
  intros [S1 S2 S3 S4] Hr Hnone Hc Href [= Hf He Hn].
  assert (Hold : forall r' m' c' e',
    (<[r := <[c := e]> (envelopedCacheOf r w)]> (envelopedCache w)) !! r' = Some m' ->
    m' !! c' = Some e' ->
    (r' = r /\ c' = c /\ e' = e)
    \/ (exists m0, envelopedCache w !! r' = Some m0 /\ m0 !! c' = Some e')).
  { intros r' m' c' e' Hl Hm.
    apply lookup_insert_Some in Hl as [[<- <-]|[Hne Hl]]; [|right; eauto].
    apply lookup_insert_Some in Hm as [[<- <-]|[Hne Hm]]; [by left|].
    right. unfold envelopedCacheOf in Hm.
    destruct (envelopedCache w !! r) as [m0|] eqn:E; simpl in Hm; [eauto|].
    by rewrite lookup_empty in Hm. }
  split; [split|split].
  - intros p f. rewrite Hf, Hn. intros Hl. destruct (S1 p f Hl). split; [done|lia].
  - intros r' m'. rewrite He, Hn. intros Hl.
    apply lookup_insert_Some in Hl as [[<- _]|[_ Hl]]; [lia|].
    specialize (S2 r' m' Hl). lia.
  - intros r' m' c' e'. rewrite He, Hn. intros Hl Hm.
    destruct (Hold r' m' c' e' Hl Hm) as [(-> & -> & ->)|(m0 & Hl0 & Hm0)].
    + split; [done|]. rewrite Href. lia.
    + destruct (S3 r' m0 c' e' Hl0 Hm0). split; [done|lia].
  - intros r1 m1 c1 e1 r2 m2 c2 e2. rewrite He. intros Hl1 Hm1 Hl2 Hm2 Heq.
    destruct (Hold r1 m1 c1 e1 Hl1 Hm1) as [(-> & -> & ->)|(m01 & Hl01 & Hm01)],
             (Hold r2 m2 c2 e2 Hl2 Hm2) as [(-> & -> & ->)|(m02 & Hl02 & Hm02)].
    + done.
    + destruct (S3 r2 m02 c2 e2 Hl02 Hm02) as [_ Hlt]. rewrite <- Heq, Href in Hlt. lia.
    + destruct (S3 r1 m01 c1 e1 Hl01 Hm01) as [_ Hlt]. rewrite Heq, Href in Hlt. lia.
    + by eapply S4.
  - intros p f Hl. by rewrite Hf.
  - intros r' c' e' Hl. unfold envelopedCacheOf at 1. rewrite He.
    destruct (decide (r' = r)) as [->|Hne].
    + rewrite lookup_insert_eq. simpl.
      rewrite lookup_insert_ne; [done|]. intros <-. congruence.
    + rewrite lookup_insert_ne; [done|congruence].
Qed.

(** [memoizedGetEnvelopedFactory]: the stored factory, or a new one
    stored. *)
Lemma memoizedGetEnvelopedFactory_spec p w :
  cachesSound w ->
  exists f w',
    memoizedGetEnvelopedFactory p w = (Returns f, w')
    /\ cachesSound w' /\ cachesKept w w'
    /\ factoryCache w' !! p = Some f.
Proof.
  intros Hs. unfold memoizedGetEnvelopedFactory, memoize1. simpl.
  destruct (factoryCache w !! p) as [f|] eqn:Hf.
  - exists f, w. split; [done|]. split; [done|]. split; [apply cachesKept_refl|done].
  - eexists _, _. split; [reflexivity|].
    match goal with |- cachesSound ?w' /\ _ /\ _ =>
      destruct (sound_add_factory w w' p {| factory_ref := nextRef w; factory_plugins := p |}
                  Hs Hf eq_refl eq_refl eq_refl) as [Hs' Hk]
    end.
    split; [done|]. split; [done|]. simpl. apply lookup_insert_eq.
Qed.

(** [getEnveloped]: the stored pipeline, or a new one stored. *)
Lemma getEnveloped_spec f c w :
  cachesSound w -> (factory_ref f < nextRef w)%positive ->
  exists e w',
    getEnveloped f c w = (Returns e, w')
    /\ cachesSound w' /\ cachesKept w w'
    /\ envelopedCacheOf (factory_ref f) w' !! c = Some e.
Proof.
  intros Hs Hlt. unfold getEnveloped, memoize1. simpl.
  destruct (envelopedCacheOf (factory_ref f) w !! c) as [e|] eqn:He.
  - exists e, w. split; [done|]. split; [done|]. split; [apply cachesKept_refl|done].
  - eexists _, _. split; [reflexivity|].
    match goal with |- cachesSound ?w' /\ _ /\ _ =>
      destruct (sound_add_enveloped w w' (factory_ref f) c
                  {| env_ref := nextRef w; env_plugins := factory_plugins f;
                     env_initialContext := c |}
                  Hs Hlt He eq_refl eq_refl eq_refl) as [Hs' Hk]
    end.
    split; [done|]. split; [done|].
    unfold envelopedCacheOf; simpl. rewrite lookup_insert_eq. simpl.
    apply lookup_insert_eq.
Qed.

Section PipelineFacts.
Context `{GraphQLTools} `{Envelop}.

(** The pipeline that serves a call is stored under the context value
    of the call, in the cache of the factory of the mesh instance. *)
Lemma envelopedFor_spec mesh ctx w :
  cachesSound w ->
  exists e w',
    envelopedFor mesh ctx w = (Returns e, w')
    /\ cachesSound w' /\ cachesKept w w'
    /\ exists f, factoryCache w' !! plugins mesh = Some f
                 /\ envelopedCacheOf (factory_ref f) w' !! ctx_ref ctx = Some e.
Proof.
  intros Hs. unfold envelopedFor, bind.
  destruct (memoizedGetEnvelopedFactory_spec (plugins mesh) w Hs)
    as (f & w1 & -> & Hs1 & Hk1 & Hf1).
  destruct (getEnveloped_spec f (ctx_ref ctx) w1 Hs1) as (e & w2 & -> & Hs2 & Hk2 & He2).
  { by apply (sound_factory w1 Hs1 (plugins mesh) f). }
  exists e, w2. split; [done|]. split; [done|].
  split; [by eapply cachesKept_trans|].
  exists f. split; [|done]. by apply Hk2.
Qed.

Lemma meshExecute_spec mesh params w :
  cachesSound w ->
  exists e w1,
    envelopedFor mesh (contextOf mesh params) w = (Returns e, w1)
    /\ memo (afterCall w (CallExecute mesh params)) = memo w1
    /\ lastServed (afterCall w (CallExecute mesh params)) = Some e.
Proof.
  intros Hs.
  destruct (envelopedFor_spec mesh (contextOf mesh params) w Hs) as (e & w1 & He & _).
  exists e, w1. split; [done|].
  unfold afterCall, meshExecute, async, bind. fold (contextOf mesh params).
  rewrite He. unfold emit, await, lastServed.
  destruct (envelopExecute e _) as [outcome|err]; simpl;
    (split; [reflexivity|]); by rewrite last_snoc.
Qed.

Lemma meshSubscribe_spec mesh params w :
  cachesSound w ->
  exists e w1,
    envelopedFor mesh (contextOf mesh params) w = (Returns e, w1)
    /\ memo (afterCall w (CallSubscribe mesh params)) = memo w1
    /\ lastServed (afterCall w (CallSubscribe mesh params)) = Some e.
Proof.
  intros Hs.
  destruct (envelopedFor_spec mesh (contextOf mesh params) w Hs) as (e & w1 & He & _).
  exists e, w1. split; [done|].
  unfold afterCall, meshSubscribe, async, bind. fold (contextOf mesh params).
  rewrite He. unfold emit, await, lastServed.
  destruct (envelopSubscribe e _) as [outcome|err]; simpl;
    (split; [reflexivity|]); by rewrite last_snoc.
Qed.

Lemma pipelineCall_spec sub mesh params w :
  cachesSound w ->
  exists e w1,
    envelopedFor mesh (contextOf mesh params) w = (Returns e, w1)
    /\ memo (afterCall w (pipelineCall sub mesh params)) = memo w1
    /\ lastServed (afterCall w (pipelineCall sub mesh params)) = Some e.
Proof.
  destruct sub; [apply meshSubscribe_spec | apply meshExecute_spec].
Qed.

Lemma memoizedGetOperationType_memo document w :
  memo (snd (memoizedGetOperationType document w)) = memo w.
Proof.
  unfold memoizedGetOperationType, memoize1.
  destruct (operationTypeCache w !! doc_ref document); [done|].
  unfold getOperationType, bind, emit. simpl.
  by destruct (getOperationAST document).
Qed.

(** Every call keeps the caches sound and keeps what they hold. *)
Lemma afterCall_sound w c :
  cachesSound w -> cachesSound (afterCall w c) /\ cachesKept w (afterCall w c).
Proof.
  intros Hs.
  assert (Hpipe : forall sub mesh params w0,
            cachesSound w0 ->
            cachesSound (afterCall w0 (pipelineCall sub mesh params))
            /\ cachesKept w0 (afterCall w0 (pipelineCall sub mesh params))).
  { intros sub mesh params w0 Hs0.
    destruct (pipelineCall_spec sub mesh params w0 Hs0) as (e & w1 & He & Hm & _).
    destruct (envelopedFor_spec mesh (contextOf mesh params) w0 Hs0)
      as (e' & w1' & He' & Hs1 & Hk1 & _).
    rewrite He in He'. injection He' as <- <-.
    split; [by eapply cachesSound_memo|by eapply cachesKept_memo_r]. }
  destruct c as [mesh params|mesh params|mesh globalContext document variables cv].
  - apply (Hpipe false mesh params w Hs).
  - apply (Hpipe true mesh params w Hs).
  - pose proof (memoizedGetOperationType_memo document w) as Hm.
    unfold afterCall.
    destruct (memoizedGetOperationType document w) as [[operation|err] w1] eqn:Hop;
      simpl in Hm.
    + assert (Hs1 : cachesSound (afterSpread w1))
        by (eapply cachesSound_memo; [|exact Hs]; by rewrite <- Hm).
      assert (Hm1 : memo w = memo (afterSpread w1)) by (by rewrite <- Hm).
      set (params := {| ep_documentOrSDL := inr document; ep_variableValues := variables;
                        ep_contextValue := Some (mergedContext globalContext cv w1);
                        ep_rootValue := None; ep_operationName := None |}).
      rewrite (requester_unfold _ _ _ _ _ _ _ _ Hop). cbv zeta.
      destruct operation.
      * destruct (Hpipe false mesh params (afterSpread w1) Hs1) as [Hs2 Hk2].
        unfold pipelineCall, afterCall in Hs2, Hk2. simpl in Hs2, Hk2.
        destruct (meshExecute _ _ _ _ _ _ _) as [[[r|rs]|e] w3]; simpl in *;
          (split; [done|by eapply cachesKept_memo_l]).
      * destruct (Hpipe false mesh params (afterSpread w1) Hs1) as [Hs2 Hk2].
        unfold pipelineCall, afterCall in Hs2, Hk2. simpl in Hs2, Hk2.
        destruct (meshExecute _ _ _ _ _ _ _) as [[[r|rs]|e] w3]; simpl in *;
          (split; [done|by eapply cachesKept_memo_l]).
      * destruct (Hpipe true mesh params (afterSpread w1) Hs1) as [Hs2 Hk2].
        unfold pipelineCall, afterCall in Hs2, Hk2. simpl in Hs2, Hk2.
        destruct (meshSubscribe _ _ _ _ _ _ _) as [[[r|rs]|e] w3]; simpl in *;
          (split; [done|by eapply cachesKept_memo_l]).
    + rewrite (requester_throws _ _ _ _ _ _ _ _ Hop). simpl.
      split; [by eapply cachesSound_memo|].
      eapply cachesKept_memo_r; [symmetry; exact Hm|apply cachesKept_refl].
Qed.

Lemma afterCalls_sound w calls :
  cachesSound w -> cachesSound (afterCalls w calls) /\ cachesKept w (afterCalls w calls).
Proof.
  revert w. induction calls as [|c calls IH]; intros w Hs; simpl.
  - split; [done|apply cachesKept_refl].
  - destruct (afterCall_sound w c Hs) as [Hs1 Hk1].
    destruct (IH _ Hs1) as [Hs2 Hk2].
    split; [done|by eapply cachesKept_trans].
Qed.

Lemma initialWorld_sound : cachesSound initialWorld.
Proof.
  split; simpl; intros *; rewrite ?lookup_empty; try discriminate.
Qed.

Lemma reachable_sound w : reachable w -> cachesSound w.
Proof. intros [calls ->]. apply afterCalls_sound, initialWorld_sound. Qed.

End PipelineFacts.

(** C9.  In a state the module can reach, take two calls of [execute]
    or [subscribe] on one mesh instance (one plugin list), with any
    calls in between.  Each is served by a pipeline bound to the
    context value it was called with.  When the two context values are
    the same object, both calls are served by the same pipeline; when
    they are different objects, whatever their properties, the two
    pipelines are different objects. *)
Theorem pipeline_memoized_by_context_identity `{GraphQLTools} `{Envelop}
    (mesh : MeshInstance) (w : World)
    (sub1 sub2 : bool) (params1 params2 : ExecuteParams) (between : list MeshCall) :
  reachable w ->
  exists e1 e2,
    lastServed (afterCall w (pipelineCall sub1 mesh params1)) = Some e1
    /\ lastServed
         (afterCall
            (afterCalls (afterCall w (pipelineCall sub1 mesh params1)) between)
            (pipelineCall sub2 mesh params2)) = Some e2
    /\ env_initialContext e1 = ctx_ref (contextOf mesh params1)
    /\ env_initialContext e2 = ctx_ref (contextOf mesh params2)
    /\ (ctx_ref (contextOf mesh params1) = ctx_ref (contextOf mesh params2) -> e1 = e2)
    /\ (ctx_ref (contextOf mesh params1) <> ctx_ref (contextOf mesh params2) ->
        env_ref e1 <> env_ref e2).
Proof.
  intros Hreach. apply reachable_sound in Hreach as Hs.
  (* the first call *)
  destruct (pipelineCall_spec sub1 mesh params1 w Hs) as (e1 & w1 & He1 & Hm1 & Hl1).
  destruct (envelopedFor_spec mesh (contextOf mesh params1) w Hs)
    as (e1' & w1' & He1' & Hs1 & _ & f1 & Hf1 & Hc1).
  rewrite He1 in He1'. injection He1' as <- <-.
  set (wa := afterCall w (pipelineCall sub1 mesh params1)) in *.
  assert (Hsa : cachesSound wa) by (by eapply cachesSound_memo).
  assert (Hfa : factoryCache wa !! plugins mesh = Some f1).
  { unfold memo in Hm1. injection Hm1 as -> _ _. done. }
  assert (Hca : envelopedCacheOf (factory_ref f1) wa !! ctx_ref (contextOf mesh params1)
                = Some e1).
  { by rewrite (envelopedCacheOf_memo _ wa w1 Hm1). }
  (* the calls in between *)
  destruct (afterCalls_sound wa between Hsa) as [Hsb [Hkf Hke]].
  set (wb := afterCalls wa between) in *.
  (* the second call *)
  destruct (pipelineCall_spec sub2 mesh params2 wb Hsb) as (e2 & w2 & He2 & Hm2 & Hl2).
  destruct (envelopedFor_spec mesh (contextOf mesh params2) wb Hsb)
    as (e2' & w2' & He2' & Hs2 & [Hkf2 Hke2] & f2 & Hf2 & Hc2).
  rewrite He2 in He2'. injection He2' as <- <-.
  assert (Hf12 : f2 = f1).
  { apply Hkf, Hkf2 in Hfa. congruence. }
  subst f2.
  assert (Hc1' : envelopedCacheOf (factory_ref f1) w2 !! ctx_ref (contextOf mesh params1)
                 = Some e1) by (by apply Hke2, Hke).
  exists e1, e2. split; [done|]. split; [done|].
  unfold envelopedCacheOf in Hc1', Hc2.
  destruct (envelopedCache w2 !! factory_ref f1) as [m|] eqn:Hm; simpl in *;
    [|by rewrite lookup_empty in Hc2].
  split; [by apply (sound_enveloped w2 Hs2 _ m _ e1 Hm Hc1')|].
  split; [by apply (sound_enveloped w2 Hs2 _ m _ e2 Hm Hc2)|].
  split.
  - intros Heq. rewrite Heq in Hc1'. congruence.
  - intros Hne Href.
    destruct (sound_distinct w2 Hs2 _ m _ e1 _ m _ e2 Hm Hc1' Hm Hc2 Href) as [_ Hc].
    done.
Qed.

(** Two calls of [execute] with two context objects that have the same
    properties. *)
Lemma pipeline_memoized_by_context_identity_witness :
  exists e1 e2,
    lastServed
      (afterCall initialWorld
         (CallExecute sampleMesh
            {| ep_documentOrSDL := inr queryDocument; ep_variableValues := None;
               ep_contextValue := Some contextA; ep_rootValue := None;
               ep_operationName := None |})) = Some e1
    /\ lastServed
         (afterCall
            (afterCall initialWorld
               (CallExecute sampleMesh
                  {| ep_documentOrSDL := inr queryDocument; ep_variableValues := None;
                     ep_contextValue := Some contextA; ep_rootValue := None;
                     ep_operationName := None |}))
            (CallExecute sampleMesh
               {| ep_documentOrSDL := inr queryDocument; ep_variableValues := None;
                  ep_contextValue := Some contextB; ep_rootValue := None;
                  ep_operationName := None |})) = Some e2
    /\ ctx_fields contextA = ctx_fields contextB
    /\ env_initialContext e1 = ctx_ref contextA
    /\ env_initialContext e2 = ctx_ref contextB
    /\ env_ref e1 <> env_ref e2.
Proof.
  destruct (pipeline_memoized_by_context_identity sampleMesh initialWorld false false
              {| ep_documentOrSDL := inr queryDocument; ep_variableValues := None;
                 ep_contextValue := Some contextA; ep_rootValue := None;
                 ep_operationName := None |}
              {| ep_documentOrSDL := inr queryDocument; ep_variableValues := None;
                 ep_contextValue := Some contextB; ep_rootValue := None;
                 ep_operationName := None |} [])
    as (e1 & e2 & H1 & H2 & Hi1 & Hi2 & _ & Hne).
  - by exists [].
  - exists e1, e2. split; [exact H1|]. split; [exact H2|].
    split; [reflexivity|]. split; [exact Hi1|]. split; [exact Hi2|].
    apply Hne. discriminate.
Defined.

(** * Further properties of the in-context callable *)

Section CallableEdges.
Context `{GraphQLTools}.

Lemma selectionCount_from nodes count :
  fold_left
    (fun count fieldNode =>
       match fn_selectionSet fieldNode with
       | Some selectionSet => count + length (selections selectionSet)
       | None => count
       end) nodes count
  = count + sum_list (nodeSelections <$> nodes).
Proof.
  revert count. induction nodes as [|n nodes IH]; intros count; csimpl; [lia|].
  rewrite IH. unfold nodeSelections. destruct (fn_selectionSet n); lia.
Qed.

Lemma selectionCount_sum info :
  selectionCount info = sum_list (nodeSelections <$> fieldNodes info).
Proof. unfold selectionCount. by rewrite selectionCount_from. Qed.

Lemma selectionCount_zero info :
  selectionCount info = 0 <->
  Forall (fun fieldNode => nodeSelections fieldNode = 0) (fieldNodes info).
Proof.
  rewrite selectionCount_sum.
  induction (fieldNodes info) as [|n nodes IH]; csimpl.
  - split; [constructor|done].
  - rewrite Forall_cons, <- IH. lia.
Qed.

Lemma selectionCount_patched info :
  selectionCount (patchedInfo info)
  = 1 + sum_list (nodeSelections <$> drop 1 (fieldNodes info)).
Proof.
  rewrite selectionCount_sum. simpl. csimpl.
  by destruct (fieldNodes info !! 0).
Qed.

(** What a call gives when the field's type is a leaf type. *)
Lemma callable_leaf cl p σ :
  shouldHaveSelectionSet cl = false ->
  inContextCallable cl p σ =
  let '(info, σ0) :=
    match cp_info p with
    | Some info => (info, σ)
    | None => alloc (defaultInfo cl (cp_root p)) σ
    end in
  (Returns (dispatch cl p (initialDelegateOptions cl p info)), σ0).
Proof.
  intros Hleaf. rewrite callable_unfold.
  destruct (match cp_info p with Some _ => _ | None => _ end) as [info σ0].
  unfold buildCommonDelegateOptions. by rewrite Hleaf.
Qed.

(** What a call gives when the info it reads has a selection. *)
Lemma callable_selected cl p σ r info :
  cp_info p = Some r -> σ !! r = Some info -> selectionCount info <> 0 ->
  inContextCallable cl p σ
  = (Returns (dispatch cl p (initialDelegateOptions cl p r)), σ).
Proof.
  intros Hr Hinfo Hcount. rewrite callable_unfold, Hr.
  unfold buildCommonDelegateOptions. rewrite Hinfo.
  apply Nat.eqb_neq in Hcount. rewrite Hcount.
  by destruct (shouldHaveSelectionSet cl).
Qed.

(** What a call gives on a composite field when the info it reads has
    no selection and a truthy [selectionSet] is given. *)
Lemma callable_patched cl p σ :
  shouldHaveSelectionSet cl = true ->
  truthySelectionSet (cp_selectionSet p) = true ->
  forall info, suppliedInfo cl p σ = Some info -> selectionCount info = 0 ->
  let '(r0, σ0) :=
    match cp_info p with
    | Some r => (r, σ)
    | None => alloc (defaultInfo cl (cp_root p)) σ
    end in
  inContextCallable cl p σ
  = (Returns (dispatch cl p (initialDelegateOptions cl p (fresh (dom σ0)))),
     <[fresh (dom σ0) := patchedInfo info]> σ0).
Proof.
  intros Hcomp Htruthy info Hinfo Hcount. rewrite callable_unfold.
  pose proof (supplied_lookup cl p σ) as Hs.
  destruct (match cp_info p with Some _ => _ | None => _ end) as [r0 σ0].
  destruct Hs as [Hs _]. rewrite Hinfo in Hs.
  unfold buildCommonDelegateOptions. rewrite Hcomp, Hs, Hcount, Htruthy. simpl.
  by rewrite set_info_initial.
Qed.

End CallableEdges.

(** X1.  A callable of a field whose named type is a leaf type never
    throws, whatever [selectionSet] and [info] it is called with (also
    an [info] that is no object): it makes the delegation call with the
    options first built.  The [info] it forwards is the caller's, and
    then no object is created; without an [info] it is the one new
    object holding the default value of the parameter. *)
Theorem leaf_field_never_rejected `{GraphQLTools} cl p σ :
  isLeafType (getNamedType (cl_fieldType cl)) = true ->
  exists info,
    inContextCallable cl p σ
    = (Returns (dispatch cl p (initialDelegateOptions cl p info)),
       match cp_info p with
       | Some _ => σ
       | None => <[info := defaultInfo cl (cp_root p)]> σ
       end)
    /\ match cp_info p with
       | Some r => info = r
       | None => σ !! info = None
       end.
Proof.
  intros Hleaf.
  assert (Hshould : shouldHaveSelectionSet cl = false).
  { unfold shouldHaveSelectionSet, namedReturnType. by rewrite Hleaf. }
  rewrite (callable_leaf cl p σ Hshould).
  destruct (cp_info p) as [r|].
  - by exists r.
  - exists (fresh (dom σ)). split; [reflexivity|].
    apply not_elem_of_dom, is_fresh.
Qed.

(** On [context.api.Query.hello], called with an info that is no object. *)
Lemma leaf_field_never_rejected_witness :
  exists info,
    inContextCallable helloField (withInfo 7 directCall) ∅
    = (Returns (dispatch helloField (withInfo 7 directCall)
                  (initialDelegateOptions helloField (withInfo 7 directCall) info)), ∅)
    /\ info = 7%positive.
Proof.
  apply (leaf_field_never_rejected helloField (withInfo 7 directCall) ∅).
  reflexivity.
Defined.


(** X2.  When the [info] of the call has a selection in some field node
    (the first or a later one), the callable does not ask for a
    [selectionSet], on a composite field either: it delegates with the
    options first built, forwards the caller's [info] object itself and
    creates no object. *)
Theorem info_with_selections_forwarded `{GraphQLTools} cl p σ r info :
  cp_info p = Some r ->
  σ !! r = Some info ->
  (exists fieldNode selectionSet,
      fieldNode ∈ fieldNodes info /\
      fn_selectionSet fieldNode = Some selectionSet /\
      selections selectionSet <> []) ->
  inContextCallable cl p σ
  = (Returns (dispatch cl p (initialDelegateOptions cl p r)), σ).
Proof.
  intros Hr Hinfo (n & s & Hn & Hs & Hne).
  apply (callable_selected cl p σ r info Hr Hinfo).
  rewrite selectionCount_zero, Forall_forall. intros Hall.
  specialize (Hall n Hn). unfold nodeSelections in Hall. rewrite Hs in Hall.
  by destruct (selections s).
Qed.

(** On [context.api.Query.user], called without [selectionSet] and with
    an info whose second field node has a selection. *)
Lemma info_with_selections_forwarded_witness :
  inContextCallable userField (withInfo 5 directCall) {[ 5%positive := nestedUserInfo ]}
  = (Returns (dispatch userField (withInfo 5 directCall)
                (initialDelegateOptions userField (withInfo 5 directCall) 5)),
     {[ 5%positive := nestedUserInfo ]}).
Proof.
  apply (info_with_selections_forwarded userField (withInfo 5 directCall)
           {[ 5%positive := nestedUserInfo ]} 5%positive nestedUserInfo);
    [reflexivity | reflexivity |].
  exists {| fn_kind := Some "Field"; fn_name := Some "user";
            fn_selectionSet := Some {| selections := [FieldSelection "id" None] |} |},
         {| selections := [FieldSelection "id" None] |}.
  split; [|split; [reflexivity | discriminate]].
  unfold nestedUserInfo; simpl. set_solver.
Defined.

(** X3.  For a field of composite type, the [info] a delegation call is
    made with always has a selection: it is the caller's when that has
    one, and else the patched copy, whose first field node selects
    [__typename]. *)
Theorem delegated_info_has_selection `{GraphQLTools} cl p σ d :
  isLeafType (getNamedType (cl_fieldType cl)) = false ->
  fst (inContextCallable cl p σ) = Returns d ->
  exists info,
    snd (inContextCallable cl p σ) !! opt_info (commonOptions d) = Some info /\
    selectionCount info <> 0.
Proof.
  intros Hleaf Hd.
  assert (Hcomp : shouldHaveSelectionSet cl = true).
  { unfold shouldHaveSelectionSet, namedReturnType. by rewrite Hleaf. }
  destruct (callable_returns_dispatch cl p σ d Hd) as [Hrej _].
  unfold rejected in Hrej. rewrite Hcomp in Hrej. simpl in Hrej.
  destruct (suppliedInfo cl p σ) as [info|] eqn:Hinfo; [|done].
  destruct (Nat.eqb_spec (selectionCount info) 0) as [Hcount|Hcount].
  - simpl in Hrej. apply negb_false_iff in Hrej.
    pose proof (callable_patched cl p σ Hcomp Hrej info Hinfo Hcount) as Hcall.
    destruct (match cp_info p with Some _ => _ | None => _ end) as [r0 σ0].
    rewrite Hcall in Hd |- *. simpl in Hd. injection Hd as <-.
    rewrite commonOptions_dispatch. exists (patchedInfo info). split.
    + unfold initialDelegateOptions.
      destruct (isFunction _); simpl; apply lookup_insert_eq.
    + rewrite selectionCount_patched. lia.
  - unfold suppliedInfo in Hinfo. destruct (cp_info p) as [r|] eqn:Hr.
    + rewrite (callable_selected cl p σ r info Hr Hinfo Hcount) in Hd |- *.
      simpl in Hd. injection Hd as <-. rewrite commonOptions_dispatch.
      exists info. split; [|done].
      unfold initialDelegateOptions. by destruct (isFunction _).
    + injection Hinfo as <-. exfalso. apply Hcount. reflexivity.
Qed.

(** On [context.api.Query.user], called without info and with
    [selectionSet: '{ id }']. *)
Lemma delegated_info_has_selection_witness :
  exists d info,
    fst (inContextCallable userField (withSelectionSet idSelection directCall) ∅) = Returns d /\
    snd (inContextCallable userField (withSelectionSet idSelection directCall) ∅)
      !! opt_info (commonOptions d) = Some info /\
    selectionCount info <> 0.
Proof.
  eexists.
  assert (Hd : fst (inContextCallable userField (withSelectionSet idSelection directCall) ∅)
               = Returns (dispatch userField (withSelectionSet idSelection directCall)
                            (initialDelegateOptions userField
                               (withSelectionSet idSelection directCall) 2)))
    by (vm_compute; reflexivity).
  destruct (delegated_info_has_selection userField
              (withSelectionSet idSelection directCall) ∅ _ eq_refl Hd) as (info & Hl & Hc).
  exists info. split; [exact Hd|]. split; [exact Hl | exact Hc].
Defined.


(** X4.  The [transforms] of a delegation call: none when the
    [selectionSet] is absent or the empty string; else one [WrapQuery]
    on the path [[fieldName]], whose wrapper is the normalised
    [selectionSet] (the node itself for a selection set node, whatever
    the subtree, and the factory's value on the subtree for a function)
    and whose extractor is the identity on the batched path and
    [valuesFromResults], called without keys, or the identity on the
    single path. *)
Theorem selectionSet_wraps_query `{GraphQLTools} cl p σ d :
  fst (inContextCallable cl p σ) = Returns d ->
  (truthySelectionSet (cp_selectionSet p) = false -> transformsOf d = None) /\
  (forall s,
      cp_selectionSet p = Some s -> s <> SelectionParam (SelectionText "") ->
      exists t,
        transformsOf d = Some [t] /\
        wq_path t = [cl_fieldName cl] /\
        wq_wrapper t = normalizeSelectionSetParamOrFactory s /\
        (forall node, s = SelectionParam (SelectionAst node) ->
           forall subtree, wq_wrapper t subtree = node) /\
        (forall factory, s = SelectionFactory factory ->
           forall subtree,
             wq_wrapper t subtree = normalizeSelectionSetParam (factory subtree)) /\
        forall result,
          wq_extractor t result
          = match d with
            | batchDelegateToSchema _ => result
            | delegateToSchema _ =>
                match cp_valuesFromResults p with
                | Some valuesFromResults => valuesFromResults result None
                | None => result
                end
            end).
Proof.
  intros Hd.
  destruct (callable_returns_dispatch cl p σ d Hd) as (_ & o & _ & ->).
  split.
  - intros Hfalsy. unfold dispatch, wrapQueryTransforms.
    destruct (keyAndArgsFromKeys p) as [[key argsFromKeys]|]; simpl;
      destruct (cp_selectionSet p); try reflexivity; by rewrite Hfalsy.
  - intros s Hs Hne.
    assert (Htruthy : truthySelectionSet (Some s) = true).
    { apply truthySelectionSet_true. by exists s. }
    unfold dispatch, wrapQueryTransforms. rewrite Hs, Htruthy.
    destruct (keyAndArgsFromKeys p) as [[key argsFromKeys]|]; simpl.
    + eexists. split; [reflexivity|]. simpl.
      split; [reflexivity|]. split; [reflexivity|].
      split; [by intros node ->|]. split; [by intros factory ->|]. done.
    + eexists. split; [reflexivity|]. simpl.
      split; [reflexivity|]. split; [reflexivity|].
      split; [by intros node ->|]. split; [by intros factory ->|].
      intros result. by destruct (cp_valuesFromResults p).
Qed.

(** On [context.api.Query.user], called with [selectionSet: '{ id }']
    and a [valuesFromResults]. *)
Lemma selectionSet_wraps_query_witness :
  exists d t,
    fst (inContextCallable userField (withSelectionSet idSelection directCall) ∅) = Returns d /\
    transformsOf d = Some [t] /\
    wq_path t = ["user"] /\
    wq_wrapper t = normalizeSelectionSetParamOrFactory idSelection.
Proof.
  eexists.
  assert (Hd : fst (inContextCallable userField (withSelectionSet idSelection directCall) ∅)
               = Returns (dispatch userField (withSelectionSet idSelection directCall)
                            (initialDelegateOptions userField
                               (withSelectionSet idSelection directCall) 2)))
    by (vm_compute; reflexivity).
  destruct (selectionSet_wraps_query userField
              (withSelectionSet idSelection directCall) ∅ _ Hd) as [_ Hs].
  destruct (Hs idSelection eq_refl ltac:(discriminate)) as (t & Ht & Hp & Hw & _).
  exists t. split; [exact Hd|]. split; [exact Ht|]. split; [exact Hp | exact Hw].
Defined.

(** X5.  Whatever the call, the options of the delegation it makes
    carry the caller's [root] and [context] unchanged and the target,
    operation type, field name and transformed schema the callable was
    built for; the single path passes the caller's [args]. *)
Theorem delegation_carries_call_and_closure `{GraphQLTools} cl p σ d :
  fst (inContextCallable cl p σ) = Returns d ->
  opt_rootValue (commonOptions d) = cp_root p /\
  opt_context (commonOptions d) = cp_context p /\
  opt_schema (commonOptions d) = cl_rawSourceSubSchemaConfig cl /\
  opt_operation (commonOptions d) = cl_operationType cl /\
  opt_fieldName (commonOptions d) = cl_fieldName cl /\
  opt_transformedSchema (commonOptions d) = cl_transformedSchema cl /\
  forall o, d = delegateToSchema o -> reg_args o = cp_args p.
Proof.
  intros Hd.
  destruct (callable_returns_dispatch cl p σ d Hd) as (_ & o & Ho & ->).
  rewrite commonOptions_dispatch. unfold optionsOfCall in Ho.
  rewrite set_info_initial in Ho. rewrite Ho.
  unfold initialDelegateOptions.
  repeat split; try by destruct (isFunction _).
  intros o'. unfold dispatch.
  destruct (keyAndArgsFromKeys p) as [[key argsFromKeys]|]; [discriminate|].
  by intros [= <-].
Qed.

(** On [context.api.Query.hello], called with root, args and context
    only. *)
Lemma delegation_carries_call_and_closure_witness :
  exists d,
    fst (inContextCallable helloField directCall ∅) = Returns d /\
    opt_rootValue (commonOptions d) = JsUndefined /\
    opt_context (commonOptions d) = JsObject 8 /\
    opt_schema (commonOptions d) = Some (RawSourceTarget apiRawSource) /\
    opt_operation (commonOptions d) = query /\
    opt_fieldName (commonOptions d) = "hello" /\
    opt_transformedSchema (commonOptions d) = apiSchema /\
    forall o, d = delegateToSchema o -> reg_args o = JsObject 7.
Proof.
  eexists.
  assert (Hd : fst (inContextCallable helloField directCall ∅)
               = Returns (dispatch helloField directCall
                            (initialDelegateOptions helloField directCall 1)))
    by (vm_compute; reflexivity).
  split; [exact Hd|].
  exact (delegation_carries_call_and_closure helloField directCall ∅ _ Hd).
Defined.

(** X6.  A call without [info] on a field of composite type, with a
    [selectionSet] other than the empty string, creates two objects:
    the default value of the parameter and its patched copy, which it
    forwards.  The one field node of the copy has no kind and no name,
    only the selection of [__typename]. *)
Theorem direct_call_forwards_patched_default `{GraphQLTools} cl p σ :
  isLeafType (getNamedType (cl_fieldType cl)) = false ->
  cp_info p = None ->
  truthySelectionSet (cp_selectionSet p) = true ->
  exists r1 r2,
    σ !! r1 = None /\ σ !! r2 = None /\ r1 <> r2 /\
    inContextCallable cl p σ
    = (Returns (dispatch cl p (initialDelegateOptions cl p r2)),
       <[r2 := patchedInfo (defaultInfo cl (cp_root p))]>
         (<[r1 := defaultInfo cl (cp_root p)]> σ)) /\
    fieldNodes (patchedInfo (defaultInfo cl (cp_root p)))
    = [ {| fn_kind := None; fn_name := None;
           fn_selectionSet := Some typenameSelectionSet |} ].
Proof.
  intros Hleaf Hinfo Htruthy.
  assert (Hcomp : shouldHaveSelectionSet cl = true).
  { unfold shouldHaveSelectionSet, namedReturnType. by rewrite Hleaf. }
  pose proof (callable_patched cl p σ Hcomp Htruthy (defaultInfo cl (cp_root p))) as Hcall.
  unfold suppliedInfo in Hcall. rewrite Hinfo in Hcall. unfold alloc in Hcall.
  specialize (Hcall eq_refl eq_refl).
  set (r1 := fresh (dom σ)) in *.
  set (σ0 := <[r1 := defaultInfo cl (cp_root p)]> σ) in *.
  assert (H1 : σ !! r1 = None) by apply not_elem_of_dom, is_fresh.
  assert (H2 : σ0 !! fresh (dom σ0) = None) by apply not_elem_of_dom, is_fresh.
  exists r1, (fresh (dom σ0)). split; [exact H1|].
  split; [|split; [|split; [exact Hcall | reflexivity]]].
  - unfold σ0 in H2. apply lookup_insert_None in H2 as [H2 _]. exact H2.
  - intros Heq. rewrite <- Heq in H2. unfold σ0 in H2.
    by rewrite lookup_insert_eq in H2.
Qed.

(** On [context.api.Query.user], called without info and with
    [selectionSet: '{ id }'] in an empty store. *)
Lemma direct_call_forwards_patched_default_witness :
  exists r1 r2,
    (∅ : Store) !! r1 = None /\ (∅ : Store) !! r2 = None /\ r1 <> r2 /\
    inContextCallable userField (withSelectionSet idSelection directCall) ∅
    = (Returns (dispatch userField (withSelectionSet idSelection directCall)
                  (initialDelegateOptions userField
                     (withSelectionSet idSelection directCall) r2)),
       <[r2 := patchedInfo (defaultInfo userField JsUndefined)]>
         (<[r1 := defaultInfo userField JsUndefined]> ∅)) /\
    fieldNodes (patchedInfo (defaultInfo userField JsUndefined))
    = [ {| fn_kind := None; fn_name := None;
           fn_selectionSet := Some typenameSelectionSet |} ].
Proof.
  apply (direct_call_forwards_patched_default userField
           (withSelectionSet idSelection directCall) ∅); reflexivity.
Defined.


(** X7.  On a field of composite type, a call whose [info] is no
    object ([null]; the default value is taken for [undefined] only)
    throws the [TypeError] of reading [fieldNodes] of it, whatever
    [selectionSet] is given, and creates no object. *)
Theorem null_info_on_composite_field_throws `{GraphQLTools} cl p σ r :
  isLeafType (getNamedType (cl_fieldType cl)) = false ->
  cp_info p = Some r ->
  σ !! r = None ->
  inContextCallable cl p σ
  = (Throws (TypeError "Cannot read properties of null (reading 'fieldNodes')"), σ).
Proof.
  intros Hleaf Hr Hnone. rewrite callable_unfold, Hr.
  unfold buildCommonDelegateOptions, shouldHaveSelectionSet, namedReturnType.
  by rewrite Hleaf, Hnone.
Qed.

(** On [context.api.Query.user], called with [selectionSet: '{ id }']
    and an info that is no object. *)
Lemma null_info_on_composite_field_throws_witness :
  inContextCallable userField (withInfo 7 (withSelectionSet idSelection directCall)) ∅
  = (Throws (TypeError "Cannot read properties of null (reading 'fieldNodes')"), ∅).
Proof.
  apply (null_info_on_composite_field_throws userField
           (withInfo 7 (withSelectionSet idSelection directCall)) ∅ 7%positive);
    reflexivity.
Defined.

(** * Further properties of the SDK builder *)

Lemma buildInContextSDK_snoc unifiedSchema rawSources rawSource :
  buildInContextSDK unifiedSchema (rawSources ++ [rawSource])
  = match buildInContextSDK unifiedSchema rawSources with
    | Rejected e => Rejected e
    | Fulfilled meshContext =>
        match us_sourceMap unifiedSchema rawSource with
        | Some transformedSchema =>
            Fulfilled
              (<[rs_name rawSource :=
                   buildRawSourceContext (us_stitchingInfo unifiedSchema)
                     rawSource transformedSchema]> meshContext)
        | None => Rejected sourceMapMisses
        end
    end.
Proof. unfold buildInContextSDK. by rewrite fold_left_app. Qed.

(** The SDK is built exactly when the source map holds every raw
    source. *)
Lemma buildInContextSDK_settled unifiedSchema rawSources :
  match buildInContextSDK unifiedSchema rawSources with
  | Fulfilled _ =>
      forall rawSource, rawSource ∈ rawSources ->
        is_Some (us_sourceMap unifiedSchema rawSource)
  | Rejected e =>
      e = sourceMapMisses /\
      exists rawSource, rawSource ∈ rawSources /\
        us_sourceMap unifiedSchema rawSource = None
  end.
Proof.
  induction rawSources as [|rs l IH] using rev_ind.
  - simpl. intros rs Hrs. by apply elem_of_nil in Hrs.
  - rewrite buildInContextSDK_snoc.
    destruct (buildInContextSDK unifiedSchema l) as [m|e].
    + destruct (us_sourceMap unifiedSchema rs) as [ts|] eqn:Hts.
      * intros r Hr. apply elem_of_app in Hr as [Hr|Hr]; [by apply IH|].
        apply list_elem_of_singleton in Hr as ->. by rewrite Hts.
      * split; [done|]. exists rs. split; [|done].
        apply elem_of_app. right. by apply list_elem_of_singleton.
    + destruct IH as (-> & r & Hr & Hnone). split; [done|].
      exists r. split; [|done]. apply elem_of_app. by left.
Qed.

(** What the built context holds under a name: the context of the last
    raw source of that name. *)
Lemma meshContext_lookup unifiedSchema rawSources meshContext source :
  buildInContextSDK unifiedSchema rawSources = Fulfilled meshContext ->
  meshContext !! source
  = rawSource ← last (filter (fun rawSource => rs_name rawSource = source) rawSources);
    buildRawSourceContext (us_stitchingInfo unifiedSchema) rawSource
      <$> us_sourceMap unifiedSchema rawSource.
Proof.
  revert meshContext.
  induction rawSources as [|rs l IH] using rev_ind; intros m.
  - intros [= <-]. by rewrite lookup_empty.
  - rewrite buildInContextSDK_snoc.
    destruct (buildInContextSDK unifiedSchema l) as [m0|e]; [|discriminate].
    destruct (us_sourceMap unifiedSchema rs) as [ts|] eqn:Hts; [|discriminate].
    intros [= <-]. rewrite filter_app.
    destruct (decide (rs_name rs = source)) as [Hname|Hname].
    + rewrite filter_cons_True by done. rewrite filter_nil, last_snoc. simpl.
      by rewrite Hts, Hname, lookup_insert_eq.
    + rewrite filter_cons_False by done. rewrite filter_nil, app_nil_r.
      rewrite lookup_insert_ne by done. by apply IH.
Qed.

Lemma last_filter_elem {A} (P : A -> Prop) `{forall x, Decision (P x)} (l : list A) x :
  last (filter P l) = Some x -> x ∈ l /\ P x.
Proof.
  intros Hlast. apply last_Some in Hlast as [l' Hl'].
  assert (Hx : x ∈ filter P l).
  { rewrite Hl'. apply elem_of_app. right. by apply list_elem_of_singleton. }
  by apply list_elem_of_filter in Hx as [? ?].
Qed.

Lemma last_filter_NoDup {A} (f : A -> string) (l : list A) a :
  NoDup (f <$> l) -> a ∈ l ->
  last (filter (fun x => f x = f a) l) = Some a.
Proof.
  induction l as [|x l IH]; csimpl; intros Hnd Ha.
  - by apply elem_of_nil in Ha.
  - apply NoDup_cons in Hnd as [Hx Hnd].
    apply elem_of_cons in Ha as [<-|Ha].
    + rewrite filter_cons_True by done.
      assert (Hnone : filter (fun x => f x = f a) l = []).
      { destruct (filter (fun x => f x = f a) l) as [|y ys] eqn:Hf; [done|].
        assert (Hy : y ∈ filter (fun x => f x = f a) l) by (rewrite Hf; left).
        apply list_elem_of_filter in Hy as [Hfy Hy].
        destruct Hx. rewrite <- Hfy. by apply list_elem_of_fmap_2. }
      by rewrite Hnone.
    + rewrite filter_cons_False; [by apply IH|].
      intros Hfx. apply Hx. rewrite Hfx. by apply list_elem_of_fmap_2.
Qed.

(** The callables of a root type are the closures of its fields. *)
Lemma rootTypeCallables_closure rawSource target transformedSchema operationType
    rootType field cl :
  rootTypeCallables rawSource target transformedSchema operationType rootType !! field
    = Some cl ->
  (field, cl_fieldType cl) ∈ ot_fields rootType /\
  cl = {| cl_rawSource := rawSource;
          cl_rawSourceSubSchemaConfig := target;
          cl_transformedSchema := transformedSchema;
          cl_rootType := rootType;
          cl_operationType := operationType;
          cl_fieldName := field;
          cl_fieldType := cl_fieldType cl |}.
Proof.
  unfold rootTypeCallables.
  induction (ot_fields rootType) as [|[fieldName type] fields IH] using rev_ind.
  - simpl. by rewrite lookup_empty.
  - rewrite fold_left_app. simpl. intros Hl.
    apply lookup_insert_Some in Hl as [[<- <-]|[_ Hl]].
    + split; [|done]. apply elem_of_app. right. by apply list_elem_of_singleton.
    + destruct (IH Hl) as [Hin Hcl]. split; [|done]. apply elem_of_app. by left.
Qed.

Lemma rootTypeCallables_field rawSource target transformedSchema operationType
    rootType field type :
  NoDup (ot_fields rootType).*1 ->
  (field, type) ∈ ot_fields rootType ->
  rootTypeCallables rawSource target transformedSchema operationType rootType !! field
  = Some {| cl_rawSource := rawSource;
            cl_rawSourceSubSchemaConfig := target;
            cl_transformedSchema := transformedSchema;
            cl_rootType := rootType;
            cl_operationType := operationType;
            cl_fieldName := field;
            cl_fieldType := type |}.
Proof.
  unfold rootTypeCallables.
  induction (ot_fields rootType) as [|[fieldName type'] fields IH] using rev_ind.
  - intros _ Hin. by apply elem_of_nil in Hin.
  - rewrite fmap_app, fold_left_app. csimpl. intros Hnd Hin.
    apply NoDup_app in Hnd as (Hnd & Hdisj & _).
    apply elem_of_app in Hin as [Hin|Hin].
    + rewrite lookup_insert_ne; [by apply IH|].
      intros <-. apply (Hdisj fieldName); [|by left].
      by apply (list_elem_of_fmap_2 fst) in Hin.
    + apply list_elem_of_singleton in Hin as [= -> ->]. by rewrite lookup_insert_eq.
Qed.

(** The entries of a raw source's context are the callables of the
    root types its transformed schema has. *)
Lemma buildRawSourceContext_rootType stitchingInfo rawSource transformedSchema
    name callables :
  ctx_rootTypes (buildRawSourceContext stitchingInfo rawSource transformedSchema)
    !! name = Some callables ->
  exists operationType rootType,
    (operationType, Some rootType) ∈ rootTypes transformedSchema /\
    ot_name rootType = name /\
    callables = rootTypeCallables rawSource
                  (rawSourceSubSchemaConfig stitchingInfo rawSource)
                  transformedSchema operationType rootType.
Proof.
  unfold buildRawSourceContext, rootTypes; simpl. intros Hroot.
  destruct (getQueryType transformedSchema) as [q|],
           (getMutationType transformedSchema) as [m|],
           (getSubscriptionType transformedSchema) as [s|];
    repeat match type of Hroot with
    | <[_ := _]> _ !! _ = Some _ =>
        apply lookup_insert_Some in Hroot as [[Hn Hc]|[_ Hroot]];
          [eexists _, _; split; [|split; [exact Hn | by rewrite Hc]]; set_solver|]
    end;
    by rewrite lookup_empty in Hroot.
Qed.

Lemma rootTypes_functional transformedSchema operationType rootType rootType' :
  (operationType, Some rootType) ∈ rootTypes transformedSchema ->
  (operationType, Some rootType') ∈ rootTypes transformedSchema ->
  rootType = rootType'.
Proof.
  unfold rootTypes. rewrite !elem_of_cons, !elem_of_nil.
  intros [H1|[H1|[H1|[]]]] [H2|[H2|[H2|[]]]]; congruence.
Qed.

Lemma rootTypes_fold_lookup rawSource target transformedSchema
    (l : list (OperationTypeNode * option ObjectType))
    (acc : gmap string (gmap string FieldClosure)) operationType rootType :
  (operationType, Some rootType) ∈ l ->
  (forall operationType' rootType',
      (operationType', Some rootType') ∈ l ->
      ot_name rootType' = ot_name rootType ->
      operationType' = operationType /\ rootType' = rootType) ->
  fold_left
    (fun rawSourceContext '(operationType, rootType) =>
       match rootType with
       | Some rootType =>
           <[ot_name rootType :=
               rootTypeCallables rawSource target transformedSchema
                 operationType rootType]> rawSourceContext
       | None => rawSourceContext
       end) l acc !! ot_name rootType
  = Some (rootTypeCallables rawSource target transformedSchema operationType rootType).
Proof.
  induction l as [|[op0 rt0] l IH] using rev_ind; intros Hin Hd.
  - by apply elem_of_nil in Hin.
  - rewrite fold_left_app. simpl.
    assert (Hd' : forall operationType' rootType',
              (operationType', Some rootType') ∈ l ->
              ot_name rootType' = ot_name rootType ->
              operationType' = operationType /\ rootType' = rootType).
    { intros op' t' Hin'. apply Hd, elem_of_app. by left. }
    apply elem_of_app in Hin as [Hin|Hin].
    + destruct rt0 as [t0|]; [|by apply IH].
      destruct (decide (ot_name t0 = ot_name rootType)) as [Heq|Hne].
      * destruct (Hd op0 t0) as [-> ->]; [|done|by rewrite lookup_insert_eq].
        apply elem_of_app. right. by apply list_elem_of_singleton.
      * rewrite lookup_insert_ne by done. by apply IH.
    + apply list_elem_of_singleton in Hin as [= <- <-].
      by rewrite lookup_insert_eq.
Qed.

Lemma buildRawSourceContext_present stitchingInfo rawSource transformedSchema
    operationType rootType :
  (operationType, Some rootType) ∈ rootTypes transformedSchema ->
  (forall operationType' rootType',
      (operationType', Some rootType') ∈ rootTypes transformedSchema ->
      ot_name rootType' = ot_name rootType -> operationType' = operationType) ->
  ctx_rootTypes (buildRawSourceContext stitchingInfo rawSource transformedSchema)
    !! ot_name rootType
  = Some (rootTypeCallables rawSource
            (rawSourceSubSchemaConfig stitchingInfo rawSource)
            transformedSchema operationType rootType).
Proof.
  intros Hin Hdistinct. unfold buildRawSourceContext. cbn [ctx_rootTypes].
  apply rootTypes_fold_lookup; [done|].
  intros op' t' Hin' Hname.
  assert (op' = operationType) as -> by by apply (Hdistinct op' t').
  split; [done|]. by eapply rootTypes_functional.
Qed.

(** X8.  With a stitching info, the loop over [subschemaMap] yields a
    subschema exactly when it is the one of the first entry whose
    config has the raw source's name: entries before it have another
    name or none, and later entries of the same name are not looked
    at. *)
Theorem first_named_subschema_is_target entries name subschema :
  findSubschemaByName entries name = Some subschema <->
  exists before config after,
    entries = before ++ (config, subschema) :: after /\
    sc_name config = Some name /\
    Forall (fun entry => sc_name entry.1 <> Some name) before.
Proof.
  induction entries as [|[config0 subschema0] entries IH]; simpl.
  - split; [discriminate|]. intros (before & config & after & Heq & _).
    by destruct before.
  - destruct (decide (sc_name config0 = Some name)) as [Hname|Hname].
    + split.
      * intros [= <-]. by exists [], config0, entries.
      * intros (before & config & after & Heq & Hc & Hbefore).
        destruct before as [|entry before]; simpl in Heq.
        -- injection Heq as _ Hs _. by rewrite Hs.
        -- injection Heq as He _. subst entry.
           by apply Forall_cons in Hbefore as [Hbefore _].
    + rewrite IH. split.
      * intros (before & config & after & -> & Hc & Hbefore).
        exists ((config0, subschema0) :: before), config, after.
        split; [done|]. split; [done|]. by apply Forall_cons.
      * intros (before & config & after & Heq & Hc & Hbefore).
        destruct before as [|entry before]; simpl in Heq.
        -- injection Heq as Hc0 _ _. by subst config0.
        -- injection Heq as _ Hrest. apply Forall_cons in Hbefore as [_ Hbefore].
           by exists before, config, after.
Qed.

(** X9.  Every callable found at [meshContext[source][rootType][field]]
    of a built SDK is the closure of a raw source of that name whose
    transformed schema is the source map's, of a root type of that
    schema named [rootType] with its operation type, and of a field
    [field] that root type declares, with the field's type.  Its
    delegation target is the one computed for its raw source: the raw
    source itself when the merged schema has no stitching info. *)
Theorem sdk_callable_closure unifiedSchema rawSources meshContext
    source rootType field cl :
  buildInContextSDK unifiedSchema rawSources = Fulfilled meshContext ->
  lookupCallable meshContext source rootType field = Some cl ->
  cl_rawSource cl ∈ rawSources /\
  rs_name (cl_rawSource cl) = source /\
  us_sourceMap unifiedSchema (cl_rawSource cl) = Some (cl_transformedSchema cl) /\
  (cl_operationType cl, Some (cl_rootType cl)) ∈ rootTypes (cl_transformedSchema cl) /\
  ot_name (cl_rootType cl) = rootType /\
  (field, cl_fieldType cl) ∈ ot_fields (cl_rootType cl) /\
  cl_fieldName cl = field /\
  cl_rawSourceSubSchemaConfig cl
    = rawSourceSubSchemaConfig (us_stitchingInfo unifiedSchema) (cl_rawSource cl) /\
  (us_stitchingInfo unifiedSchema = None ->
   cl_rawSourceSubSchemaConfig cl = Some (RawSourceTarget (cl_rawSource cl))).
Proof.
  intros Hbuilt Hl. unfold lookupCallable in Hl.
  rewrite (meshContext_lookup _ _ _ source Hbuilt) in Hl.
  destruct (last _) as [rs|] eqn:Hlast; [|discriminate]. simpl in Hl.
  apply last_filter_elem in Hlast as [Hrs Hname].
  remember (buildRawSourceContext (us_stitchingInfo unifiedSchema) rs) as build
    eqn:Hbuild.
  destruct (us_sourceMap unifiedSchema rs) as [ts|] eqn:Hts; [|discriminate].
  simpl in Hl.
  destruct (ctx_rootTypes (build ts) !! rootType) as [callables|] eqn:Hroot;
    [|discriminate].
  simpl in Hl. subst build.
  apply buildRawSourceContext_rootType in Hroot as (op & t & Hin & Ht & ->).
  apply rootTypeCallables_closure in Hl as [Hfield ->]. simpl.
  repeat split; try done.
  intros ->. reflexivity.
Qed.

(** On the SDK of the raw source [api] and its callable
    [context.api.Query.hello]. *)
Lemma sdk_callable_closure_witness :
  exists meshContext cl,
    buildInContextSDK plainSchema [apiRawSource] = Fulfilled meshContext /\
    lookupCallable meshContext "api" "Query" "hello" = Some cl /\
    cl_rawSource cl ∈ [apiRawSource] /\
    rs_name (cl_rawSource cl) = "api" /\
    us_sourceMap plainSchema (cl_rawSource cl) = Some (cl_transformedSchema cl) /\
    (cl_operationType cl, Some (cl_rootType cl)) ∈ rootTypes (cl_transformedSchema cl) /\
    ot_name (cl_rootType cl) = "Query" /\
    ("hello", cl_fieldType cl) ∈ ot_fields (cl_rootType cl) /\
    cl_fieldName cl = "hello" /\
    cl_rawSourceSubSchemaConfig cl
      = rawSourceSubSchemaConfig (us_stitchingInfo plainSchema) (cl_rawSource cl) /\
    (us_stitchingInfo plainSchema = None ->
     cl_rawSourceSubSchemaConfig cl = Some (RawSourceTarget (cl_rawSource cl))).
Proof.
  eexists _, helloField.
  assert (Hbuilt : buildInContextSDK plainSchema [apiRawSource]
                   = Fulfilled {[ "api" := buildRawSourceContext None apiRawSource apiSchema ]})
    by reflexivity.
  assert (Hl : lookupCallable
                 {[ "api" := buildRawSourceContext None apiRawSource apiSchema ]}
                 "api" "Query" "hello" = Some helloField)
    by (vm_compute; reflexivity).
  split; [exact Hbuilt|]. split; [exact Hl|].
  exact (sdk_callable_closure plainSchema [apiRawSource] _ "api" "Query" "hello"
           helloField Hbuilt Hl).
Defined.

Lemma sdk_rejected_iff_source_unmapped_aux unifiedSchema rawSources :
  (exists rawSource, rawSource ∈ rawSources /\
     us_sourceMap unifiedSchema rawSource = None) ->
  buildInContextSDK unifiedSchema rawSources = Rejected sourceMapMisses.
Proof.
  intros (rs & Hrs & Hnone).
  pose proof (buildInContextSDK_settled unifiedSchema rawSources) as Hs.
  destruct (buildInContextSDK unifiedSchema rawSources) as [m|e].
  - destruct (Hs rs Hrs) as [ts Hts]. congruence.
  - by destruct Hs as [-> _].
Qed.

(** X10.  For a merged schema that carries a source map, building the
    SDK fails exactly when the source map misses one of the raw
    sources, and then with the [TypeError] of reading [getQueryType] of
    [undefined]; there is no other failure. *)
Theorem sdk_rejected_iff_source_unmapped unifiedSchema rawSources :
  (buildInContextSDK unifiedSchema rawSources = Rejected sourceMapMisses <->
   exists rawSource, rawSource ∈ rawSources /\
     us_sourceMap unifiedSchema rawSource = None) /\
  (forall e, buildInContextSDK unifiedSchema rawSources = Rejected e ->
     e = TypeError "Cannot read properties of undefined (reading 'getQueryType')").
Proof.
  pose proof (buildInContextSDK_settled unifiedSchema rawSources) as Hs.
  destruct (buildInContextSDK unifiedSchema rawSources) as [m|e].
  - split; [|discriminate]. split; [discriminate|].
    intros (rs & Hrs & Hnone). destruct (Hs rs Hrs) as [ts Hts]. congruence.
  - destruct Hs as [-> Hmiss]. split; [done|]. by intros e [= <-].
Qed.

(** X11.  In the built context, the entry under the name of a raw
    source is the context built for the last raw source of that name
    in the list, with the transformed schema the source map gives for
    it: of two raw sources of one name the later one replaces the
    earlier, and a raw source whose name no other has keeps its own
    entry. *)
Theorem meshContext_keyed_by_source_name unifiedSchema rawSources meshContext
    rawSource :
  buildInContextSDK unifiedSchema rawSources = Fulfilled meshContext ->
  rawSource ∈ rawSources ->
  exists kept transformedSchema,
    last (filter (fun other => rs_name other = rs_name rawSource) rawSources)
      = Some kept /\
    us_sourceMap unifiedSchema kept = Some transformedSchema /\
    meshContext !! rs_name rawSource
    = Some (buildRawSourceContext (us_stitchingInfo unifiedSchema)
              kept transformedSchema) /\
    (NoDup (rs_name <$> rawSources) -> kept = rawSource).
Proof.
  intros Hbuilt Hin.
  pose proof (buildInContextSDK_settled unifiedSchema rawSources) as Hs.
  rewrite Hbuilt in Hs.
  rewrite (meshContext_lookup _ _ _ (rs_name rawSource) Hbuilt).
  destruct (last _) as [kept|] eqn:Hlast.
  - pose proof Hlast as Hkept. apply last_filter_elem in Hkept as [Hkept _].
    destruct (Hs kept Hkept) as [ts Hts]. exists kept, ts.
    split; [done|]. split; [done|]. split; [simpl; by rewrite Hts|].
    intros Hnd. rewrite (last_filter_NoDup rs_name rawSources rawSource Hnd Hin) in Hlast.
    by injection Hlast as <-.
  - apply last_None in Hlast.
    assert (Hf : rawSource ∈ filter (fun other => rs_name other = rs_name rawSource)
                   rawSources) by by apply list_elem_of_filter.
    rewrite Hlast in Hf. by apply elem_of_nil in Hf.
Qed.

(** On two raw sources of the same name [api]: the entry is the
    context of the second. *)
Lemma meshContext_keyed_by_source_name_witness :
  exists meshContext kept transformedSchema,
    buildInContextSDK plainSchema [apiRawSource; secondApiRawSource]
      = Fulfilled meshContext /\
    last (filter (fun other => rs_name other = rs_name apiRawSource)
            [apiRawSource; secondApiRawSource]) = Some kept /\
    us_sourceMap plainSchema kept = Some transformedSchema /\
    meshContext !! rs_name apiRawSource
    = Some (buildRawSourceContext (us_stitchingInfo plainSchema) kept transformedSchema) /\
    (NoDup (rs_name <$> [apiRawSource; secondApiRawSource]) -> kept = apiRawSource).
Proof.
  eexists. 
  assert (Hbuilt : buildInContextSDK plainSchema [apiRawSource; secondApiRawSource]
                   = Fulfilled
                       (<[ "api" := buildRawSourceContext None secondApiRawSource apiSchema ]>
                          {[ "api" := buildRawSourceContext None apiRawSource apiSchema ]}))
    by reflexivity.
  destruct (meshContext_keyed_by_source_name plainSchema
              [apiRawSource; secondApiRawSource] _ apiRawSource Hbuilt)
    as (kept & ts & Hlast & Hts & Hl & Hnd); [left|].
  exists kept, ts. split; [exact Hbuilt|]. split; [exact Hlast|].
  split; [exact Hts|]. split; [exact Hl | exact Hnd].
Defined.

(** X12.  When the raw sources have distinct names, the root types of
    a transformed schema distinct names and the fields of a root type
    distinct names, the built SDK has a callable for every field of
    every root type of every raw source, at
    [meshContext[rawSource.name][rootType.name][fieldName]], and it is
    the closure of exactly these. *)
Theorem every_root_field_has_callable unifiedSchema rawSources meshContext
    rawSource transformedSchema operationType rootType fieldName type :
  buildInContextSDK unifiedSchema rawSources = Fulfilled meshContext ->
  NoDup (rs_name <$> rawSources) ->
  rawSource ∈ rawSources ->
  us_sourceMap unifiedSchema rawSource = Some transformedSchema ->
  (operationType, Some rootType) ∈ rootTypes transformedSchema ->
  (forall operationType' rootType',
      (operationType', Some rootType') ∈ rootTypes transformedSchema ->
      ot_name rootType' = ot_name rootType -> operationType' = operationType) ->
  NoDup (ot_fields rootType).*1 ->
  (fieldName, type) ∈ ot_fields rootType ->
  lookupCallable meshContext (rs_name rawSource) (ot_name rootType) fieldName
  = Some {| cl_rawSource := rawSource;
            cl_rawSourceSubSchemaConfig :=
              rawSourceSubSchemaConfig (us_stitchingInfo unifiedSchema) rawSource;
            cl_transformedSchema := transformedSchema;
            cl_rootType := rootType;
            cl_operationType := operationType;
            cl_fieldName := fieldName;
            cl_fieldType := type |}.
Proof.
  intros Hbuilt Hnames Hrs Hts Hroot Hdistinct Hfields Hfield.
  unfold lookupCallable.
  rewrite (meshContext_lookup _ _ _ (rs_name rawSource) Hbuilt).
  rewrite (last_filter_NoDup rs_name rawSources rawSource Hnames Hrs).
  cbn [mbind option_bind]. rewrite Hts.
  cbn [fmap option_fmap option_map mbind option_bind].
  rewrite (buildRawSourceContext_present _ _ _ operationType rootType Hroot Hdistinct).
  cbn [mbind option_bind]. by apply rootTypeCallables_field.
Qed.

(** On the raw source [api] and the field [user] of its query type. *)
Lemma every_root_field_has_callable_witness :
  exists meshContext,
    buildInContextSDK plainSchema [apiRawSource] = Fulfilled meshContext /\
    lookupCallable meshContext "api" "Query" "user" = Some userField.
Proof.
  eexists. split; [reflexivity|].
  apply (every_root_field_has_callable plainSchema [apiRawSource] _
           apiRawSource apiSchema query Query "user" (TNonNull (TNamed User))).
  - reflexivity.
  - apply NoDup_singleton.
  - by apply list_elem_of_singleton.
  - reflexivity.
  - unfold rootTypes. simpl. left.
  - unfold rootTypes. simpl. intros op t Hin _.
    apply elem_of_cons in Hin as [[= -> _]|Hin]; [done|].
    apply elem_of_cons in Hin as [[=]|Hin].
    apply elem_of_cons in Hin as [[=]|Hin].
    by apply elem_of_nil in Hin.
  - simpl. apply NoDup_cons. split; [|apply NoDup_singleton].
    intros Hin. apply list_elem_of_singleton in Hin. discriminate.
  - simpl. right. left.
Defined.

(** * Further properties of the source loading loop and of [getMesh] *)

Section LoadLog.
Context `{MeshUtils}.

Lemma startSource_log st apiSource :
  log (startSource st apiSource) = log st ++ startedLog apiSource.
Proof.
  unfold startedLog, startSource, caught, logged.
  destruct (getMeshSource (as_handler apiSource)); simpl; [done|].
  by rewrite <- app_assoc.
Qed.

Lemma startSources_log sources st :
  log (fold_left startSource sources st) = log st ++ (sources ≫= startedLog).
Proof.
  revert st. induction sources as [|a sources IH]; intros st.
  - simpl. by rewrite app_nil_r.
  - cbn [fold_left]. by rewrite IH, bind_cons, app_assoc, startSource_log.
Qed.

Lemma resumeSource_log st apiSource :
  log (resumeSource st apiSource) = log st ++ settledLog apiSource.
Proof.
  unfold settledLog, resumeSource, caught, logged.
  destruct (getMeshSource (as_handler apiSource)) as [[source|e]|e]; simpl.
  - destruct (rawSourceOf apiSource source); simpl; [done|].
    by rewrite <- app_assoc.
  - done.
  - by rewrite app_nil_r.
Qed.

Lemma resumeSources_log (sources : list ApiSource) (completion : list nat) st :
  log (fold_left
         (fun st i =>
            match sources !! i with
            | Some apiSource => resumeSource st apiSource
            | None => st
            end) completion st)
  = log st ++ (completion ≫= fun i => from_option settledLog [] (sources !! i)).
Proof.
  revert st. induction completion as [|i completion IH]; intros st.
  - simpl. by rewrite app_nil_r.
  - cbn [fold_left]. rewrite IH, bind_cons, app_assoc. f_equal.
    destruct (sources !! i) as [a|]; simpl.
    + apply resumeSource_log.
    + by rewrite app_nil_r.
Qed.

(** The log of the loading: the opening entry, what the callbacks log
    when they are started, in the order of the configuration, and what
    they log when they are resumed, in the order of completion. *)
Lemma loadSources_log (sources : list ApiSource) (completion : list nat) :
  log (loadSources sources completion)
  = LogDebug "GetMesh" "Getting subschemas from source handlers"
    :: (sources ≫= startedLog)
    ++ (completion ≫= fun i => from_option settledLog [] (sources !! i)).
Proof.
  unfold loadSources. by rewrite resumeSources_log, startSources_log.
Qed.

Lemma startedLog_cases apiSource :
  startedLog apiSource
  = LogDebug (as_name apiSource) "Generating the schema"
    :: match getMeshSource (as_handler apiSource) with
       | Throws e => [LogError (as_name apiSource) "Failed to generate the schema" e]
       | Returns _ => []
       end.
Proof.
  unfold startedLog, startSource, caught, logged.
  by destruct (getMeshSource (as_handler apiSource)).
Qed.

Lemma startedLog_errors apiSource name message e :
  LogError name message e ∈ startedLog apiSource <->
  name = as_name apiSource /\ message = "Failed to generate the schema" /\
  getMeshSource (as_handler apiSource) = Throws e.
Proof.
  rewrite startedLog_cases, elem_of_cons.
  destruct (getMeshSource (as_handler apiSource)) as [p|e'].
  - split; [|by intros (_ & _ & ?)].
    intros [?|Hin]; [done|]. by apply elem_of_nil in Hin.
  - rewrite list_elem_of_singleton. split.
    + by intros [?|[= -> -> ->]].
    + intros (-> & -> & [= ->]). by right.
Qed.

Lemma settledLog_errors apiSource name message e :
  LogError name message e ∈ settledLog apiSource <->
  name = as_name apiSource /\ message = "Failed to generate the schema" /\
  (exists promise, getMeshSource (as_handler apiSource) = Returns promise) /\
  loadOutcome apiSource = Throws e.
Proof.
  unfold settledLog, resumeSource, loadOutcome, caught, logged, resolvedLog.
  destruct (getMeshSource (as_handler apiSource)) as [[source|e']|e']; simpl.
  - destruct (rawSourceOf apiSource source) as [r|e'']; simpl.
    + split; [|by intros (_ & _ & _ & ?)].
      intros Hin. destruct (bareTransforms apiSource); simpl in Hin;
        repeat (apply elem_of_cons in Hin as [Hin|Hin]; [discriminate|]);
        by apply elem_of_nil in Hin.
    + split.
      * intros Hin.
        assert (Hlast : LogError name message e
                        = LogError (as_name apiSource) "Failed to generate the schema" e'').
        { destruct (bareTransforms apiSource); simpl in Hin;
            repeat (apply elem_of_cons in Hin as [Hin|Hin]; [discriminate|]);
            by apply list_elem_of_singleton in Hin. }
        injection Hlast as -> -> ->.
        split; [done|]. split; [done|]. split; [by eexists|done].
      * intros (-> & -> & _ & [= ->]).
        destruct (bareTransforms apiSource); simpl; rewrite !elem_of_cons; auto 10.
  - rewrite list_elem_of_singleton. split.
    + intros [= -> -> ->]. split; [done|]. split; [done|]. split; [by eexists|done].
    + by intros (-> & -> & _ & [= ->]).
  - split; [intros Hin; by apply elem_of_nil in Hin|].
    by intros (_ & _ & [p ?] & _).
Qed.

Lemma source_error_count apiSource :
  length (filter (fun entry => isErrorEntry entry = true) (startedLog apiSource))
  + length (filter (fun entry => isErrorEntry entry = true) (settledLog apiSource))
  = if sourceFails apiSource then 1 else 0.
Proof.
  rewrite startedLog_cases.
  unfold settledLog, resumeSource, sourceFails, handlerThrows, transformsThrow,
    caught, logged, resolvedLog.
  destruct (getMeshSource (as_handler apiSource)) as [[source|e]|e]; simpl;
    [|done|done].
  destruct (rawSourceOf apiSource source) as [r|e]; simpl;
    by destruct (bareTransforms apiSource).
Qed.

Lemma seq_bind_lookup {A B} (g : A -> list B) (l : list A) :
  seq 0 (length l) ≫= (fun i => from_option g [] (l !! i)) = l ≫= g.
Proof.
  induction l as [|a l IH] using rev_ind; [done|].
  rewrite length_app. simpl. rewrite seq_app, !bind_app. simpl.
  rewrite list_lookup_middle by done. simpl. rewrite app_nil_r. f_equal.
  rewrite <- IH. apply Forall_bind_ext, Forall_forall. intros i Hi.
  apply elem_of_seq in Hi. rewrite lookup_app_l by lia. done.
Qed.

Lemma error_count_sources sources :
  length (filter (fun entry => isErrorEntry entry = true) (sources ≫= startedLog))
  + length (filter (fun entry => isErrorEntry entry = true) (sources ≫= settledLog))
  = length (filter (fun apiSource => sourceFails apiSource = true) sources).
Proof.
  induction sources as [|a sources IH]; [done|].
  rewrite !bind_cons, !filter_app, !length_app.
  pose proof (source_error_count a) as Ha.
  destruct (sourceFails a) eqn:Hf.
  - rewrite filter_cons_True by done. simpl. lia.
  - rewrite filter_cons_False; [lia|]. by rewrite Hf.
Qed.

Lemma bare_message_not_start (n : nat) :
  pretty n +:+ " bare transforms found and applying" <> "Generating the schema".
Proof.
  intros Heq.
  pose proof (String.append_correct2 (pretty n)
                " bare transforms found and applying" 34) as Hget.
  rewrite Heq in Hget. simpl in Hget. discriminate.
Qed.

Lemma startedLog_starts apiSource :
  filter (fun entry => isStartEntry entry = true) (startedLog apiSource)
  = [LogDebug (as_name apiSource) "Generating the schema"].
Proof.
  rewrite startedLog_cases. rewrite filter_cons_True by done.
  by destruct (getMeshSource (as_handler apiSource)).
Qed.

Lemma settledLog_cases apiSource :
  settledLog apiSource
  = match getMeshSource (as_handler apiSource) with
    | Throws _ => []
    | Returns (Rejected e) =>
        [LogError (as_name apiSource) "Failed to generate the schema" e]
    | Returns (Fulfilled source) =>
        resolvedLog apiSource
        ++ match rawSourceOf apiSource source with
           | Returns _ => []
           | Throws e =>
               [LogError (as_name apiSource) "Failed to generate the schema" e]
           end
    end.
Proof.
  unfold settledLog, resumeSource, caught, logged.
  destruct (getMeshSource (as_handler apiSource)) as [[source|e]|e]; simpl;
    [|done|done].
  destruct (rawSourceOf apiSource source) as [r|e]; simpl; [|done].
  by rewrite app_nil_r.
Qed.

Lemma resolvedLog_starts apiSource :
  filter (fun entry => isStartEntry entry = true) (resolvedLog apiSource) = [].
Proof.
  unfold resolvedLog. simpl.
  rewrite filter_cons_False by (by vm_compute).
  rewrite filter_cons_False by (by vm_compute).
  destruct (bareTransforms apiSource) as [noWrapTransforms|]; [|done].
  rewrite filter_cons_False; [done|].
  simpl. rewrite bool_decide_eq_true. apply bare_message_not_start.
Qed.

Lemma settledLog_starts apiSource :
  filter (fun entry => isStartEntry entry = true) (settledLog apiSource) = [].
Proof.
  rewrite settledLog_cases.
  destruct (getMeshSource (as_handler apiSource)) as [[source|e]|e]; [|done|done].
  rewrite filter_app, resolvedLog_starts.
  by destruct (rawSourceOf apiSource source).
Qed.

Lemma starts_of_started (sources : list ApiSource) :
  filter (fun entry => isStartEntry entry = true) (sources ≫= startedLog)
  = (fun apiSource => LogDebug (as_name apiSource) "Generating the schema") <$> sources.
Proof.
  induction sources as [|a sources IH]; [done|].
  rewrite bind_cons, filter_app, startedLog_starts, IH. done.
Qed.

Lemma starts_of_settled (sources : list ApiSource) (completion : list nat) :
  filter (fun entry => isStartEntry entry = true)
    (completion ≫= fun i => from_option settledLog [] (sources !! i)) = [].
Proof.
  induction completion as [|i completion IH]; [done|].
  rewrite bind_cons, filter_app, IH, app_nil_r.
  destruct (sources !! i) as [a|]; simpl; [apply settledLog_starts|done].
Qed.

End LoadLog.

(** X13.  Every handler is called once, in the order of the
    configuration, whatever fails and in whatever order the promises
    settle: the entries "Generating the schema" of the log are those of
    the sources, in that order.  The error of a handler that throws
    when it is called is logged right after the "Generating the schema"
    of its own source, before any later source is started. *)
Theorem handlers_started_in_configuration_order `{MeshUtils}
    (sources : list ApiSource) (completion : list nat) :
  filter (fun entry => isStartEntry entry = true) (log (loadSources sources completion))
  = (fun apiSource => LogDebug (as_name apiSource) "Generating the schema") <$> sources
  /\ forall before apiSource after e,
       sources = before ++ apiSource :: after ->
       getMeshSource (as_handler apiSource) = Throws e ->
       exists earlier later,
         log (loadSources sources completion)
         = earlier
           ++ [ LogDebug (as_name apiSource) "Generating the schema";
                LogError (as_name apiSource) "Failed to generate the schema" e ]
           ++ later
         /\ filter (fun entry => isStartEntry entry = true) earlier
            = (fun apiSource => LogDebug (as_name apiSource) "Generating the schema")
                <$> before
         /\ filter (fun entry => isStartEntry entry = true) later
            = (fun apiSource => LogDebug (as_name apiSource) "Generating the schema")
                <$> after.
Proof.
  split.
  - rewrite loadSources_log. rewrite filter_cons_False by done.
    by rewrite filter_app, starts_of_started, starts_of_settled, app_nil_r.
  - intros before a after e -> Hthrows.
    rewrite loadSources_log, bind_app, bind_cons.
    rewrite (startedLog_cases a), Hthrows.
    exists (LogDebug "GetMesh" "Getting subschemas from source handlers"
              :: (before ≫= startedLog)),
           ((after ≫= startedLog)
              ++ (completion ≫= fun i =>
                    from_option settledLog [] ((before ++ a :: after) !! i))).
    split; [|split].
    + simpl. by rewrite <- !app_assoc.
    + rewrite filter_cons_False by done. apply starts_of_started.
    + by rewrite filter_app, starts_of_started, starts_of_settled, app_nil_r.
Qed.

(** On a handler that throws when it is called, configured before one
    that resolves. *)
Lemma handlers_started_in_configuration_order_witness :
  exists earlier later,
    log (loadSources [hastySource; slowSource] [0; 1])
    = earlier
      ++ [ LogDebug "hasty" "Generating the schema";
           LogError "hasty" "Failed to generate the schema"
             (TypeError "endpoint is not configured") ]
      ++ later
    /\ filter (fun entry => isStartEntry entry = true) earlier = []
    /\ filter (fun entry => isStartEntry entry = true) later
       = [LogDebug "slow" "Generating the schema"].
Proof.
  apply (proj2 (handlers_started_in_configuration_order [hastySource; slowSource] [0; 1])
           [] hastySource [slowSource] (TypeError "endpoint is not configured"));
    reflexivity.
Defined.

(** X14.  When every callback has ended, the errors logged are exactly
    those the callbacks caught, each under the name of its source with
    the message "Failed to generate the schema": the error a handler
    threw or rejected with, or the one a bare transform threw on the
    schema of a handler that resolved.  There is one error entry per
    source whose load fails. *)
Theorem handler_errors_logged_once `{MeshUtils}
    (sources : list ApiSource) (completion : list nat) :
  settlesAll sources completion ->
  (forall name message e,
      LogError name message e ∈ log (loadSources sources completion) <->
      message = "Failed to generate the schema" /\
      exists apiSource,
        apiSource ∈ sources /\ as_name apiSource = name /\
        loadOutcome apiSource = Throws e) /\
  length (filter (fun entry => isErrorEntry entry = true)
            (log (loadSources sources completion)))
  = length (filter (fun apiSource => sourceFails apiSource = true) sources).
Proof.
  intros Hall. rewrite loadSources_log. split.
  - intros name message e.
    rewrite elem_of_cons, elem_of_app, !list_elem_of_bind.
    split.
    + intros [Hin|[(a & Hin & Ha)|(i & Hin & Hi)]]; [discriminate| |].
      * apply startedLog_errors in Hin as (-> & -> & He).
        split; [done|]. exists a. split; [done|]. split; [done|].
        unfold loadOutcome. by rewrite He.
      * destruct (sources !! i) as [a|] eqn:Ha; simpl in Hin;
          [|by apply elem_of_nil in Hin].
        apply settledLog_errors in Hin as (-> & -> & _ & He).
        split; [done|]. exists a. split; [|done]. by eapply list_elem_of_lookup_2.
    + intros (-> & a & Ha & <- & He). right.
      destruct (getMeshSource (as_handler a)) as [p|e'] eqn:Hh.
      * right. apply (settlesAll_elem _ _ _ Hall) in Ha as (i & Hi & Hl).
        exists i. split; [|done]. rewrite Hl. simpl.
        apply settledLog_errors. split; [done|]. split; [done|].
        split; [by exists p|done].
      * left. exists a. split; [|done]. apply startedLog_errors.
        split; [done|]. split; [done|].
        unfold loadOutcome in He. rewrite Hh in He. by injection He as ->.
  - rewrite filter_cons_False by done.
    rewrite filter_app, length_app.
    unfold settlesAll in Hall. rewrite Hall, seq_bind_lookup.
    apply error_count_sources.
Qed.

(** On a source that resolves, one whose handler rejects, one whose
    handler throws at once and one whose bare transform throws. *)
Lemma handler_errors_logged_once_witness :
  (forall name message e,
      LogError name message e
        ∈ log (loadSources [slowSource; failingSource; hastySource; brittleSource]
                 [3; 1; 0; 2]) <->
      message = "Failed to generate the schema" /\
      exists apiSource,
        apiSource ∈ [slowSource; failingSource; hastySource; brittleSource] /\
        as_name apiSource = name /\
        loadOutcome apiSource = Throws e) /\
  length (filter (fun entry => isErrorEntry entry = true)
            (log (loadSources [slowSource; failingSource; hastySource; brittleSource]
                    [3; 1; 0; 2])))
  = length (filter (fun apiSource => sourceFails apiSource = true)
              [slowSource; failingSource; hastySource; brittleSource]).
Proof.
  apply (handler_errors_logged_once
           [slowSource; failingSource; hastySource; brittleSource] [3; 1; 0; 2]).
  unfold settlesAll. simpl.
  change [3; 1; 0; 2] with ([3] ++ [1; 0; 2]).
  change [0; 1; 2; 3] with ([0; 1; 2] ++ [3]).
  etrans; [apply Permutation_app_comm|].
  apply Permutation_app_tail, perm_swap.
Defined.

(** X15.  When every handler resolves and no bare transform throws, the
    merger is called with the raw sources in the order of completion of
    the handlers; [getMesh] is rejected with the merger's error when
    the merger rejects, and with the [TypeError] of the SDK builder
    when the source map of the merged schema misses one of the raw
    sources. *)
Theorem merger_and_sdk_failures_propagate `{MeshUtils}
    (options : GetMeshOptions) (completion : list nat) :
  settlesAll (sources options) completion ->
  (forall apiSource, apiSource ∈ sources options ->
     handlerThrows apiSource = false /\ transformsThrow apiSource = false) ->
  match merger options (omap (rawSourceAt (sources options)) completion) with
  | Rejected e => getMesh options completion = Rejected e
  | Fulfilled unifiedSchema =>
      (exists rawSource,
          rawSource ∈ omap (rawSourceAt (sources options)) completion /\
          us_sourceMap unifiedSchema rawSource = None) ->
      getMesh options completion = Rejected sourceMapMisses
  end.
Proof.
  intros Hall Hnone.
  pose proof (generateSchemas_settled (sources options) completion Hall) as Hg.
  unfold getMesh.
  destruct (fst (generateSchemas (sources options) completion)) as [loaded|e].
  - destruct Hg as [-> _]. unfold afterSources.
    destruct (merger options _) as [us|e]; [|done].
    intros Hmiss.
    apply (sdk_rejected_iff_source_unmapped_aux us) in Hmiss. by rewrite Hmiss.
  - destruct Hg as (_ & a & Ha & Hfails).
    destruct (Hnone a Ha) as [Hh Ht].
    unfold sourceFails in Hfails. rewrite Hh, Ht in Hfails. done.
Qed.

(** On one source that resolves and a merger that rejects. *)
Lemma merger_and_sdk_failures_propagate_witness :
  getMesh {| sources := [apiSource];
             merger := fun _ => Rejected (Error "merge failed");
             additionalEnvelopPlugins := [] |} [0]
  = Rejected (Error "merge failed").
Proof.
  apply (merger_and_sdk_failures_propagate
           {| sources := [apiSource];
              merger := fun _ => Rejected (Error "merge failed");
              additionalEnvelopPlugins := [] |} [0]).
  - unfold settlesAll. reflexivity.
  - intros a Ha. apply list_elem_of_singleton in Ha as ->. split; reflexivity.
Defined.

(** X16.  [getMesh] returns a mesh only when every handler resolved, no
    bare transform threw, the merger resolved on the raw sources in the
    order of completion and the SDK was built from its schema: these
    are the schema, raw sources and context of the mesh.  Its plugins
    are the four of [getMesh], extended validation being enabled
    exactly when the schema declares the directive [oneOf], followed by
    the additional plugins in the order given. *)
Theorem mesh_returned_only_when_all_succeed `{MeshUtils}
    (options : GetMeshOptions) (completion : list nat) (mesh : Mesh) :
  settlesAll (sources options) completion ->
  getMesh options completion = Fulfilled mesh ->
  (forall apiSource, apiSource ∈ sources options -> handlerThrows apiSource = false) /\
  (forall apiSource, apiSource ∈ sources options -> transformsThrow apiSource = false) /\
  mesh_rawSources mesh = omap (rawSourceAt (sources options)) completion /\
  merger options (mesh_rawSources mesh) = Fulfilled (mesh_schema mesh) /\
  buildInContextSDK (mesh_schema mesh) (mesh_rawSources mesh)
    = Fulfilled (mesh_meshContext mesh) /\
  mesh_plugins mesh
  = [ useSchema (us_schema (mesh_schema mesh));
      useExtendContext;
      useExtendedValidation
        (bool_decide ("oneOf" ∈ schema_directives (us_schema (mesh_schema mesh))));
      parseWithCachePlugin ]
    ++ (additionalPlugin <$> additionalEnvelopPlugins options).
Proof.
  intros Hall Hmesh.
  pose proof (generateSchemas_settled (sources options) completion Hall) as Hg.
  unfold getMesh in Hmesh.
  destruct (fst (generateSchemas (sources options) completion)) as [loaded|e];
    [|discriminate].
  destruct Hg as [-> Hnone]. unfold afterSources in Hmesh.
  destruct (merger options _) as [us|e] eqn:Hmerger; [|discriminate].
  destruct (buildInContextSDK us _) as [m|e] eqn:Hsdk; [|discriminate].
  injection Hmesh as <-. simpl. rewrite Hmerger, Hsdk.
  split; [intros a Ha; by apply (sourceFails_split a), Hnone|].
  split; [intros a Ha; by apply (sourceFails_split a), Hnone|].
  done.
Qed.

(** On two sources that resolve, settling in the reverse of the
    configuration order. *)
Lemma mesh_returned_only_when_all_succeed_witness :
  exists mesh,
    getMesh (optionsFor [slowSource; fastSource]) [1; 0] = Fulfilled mesh /\
    (forall apiSource,
        apiSource ∈ [slowSource; fastSource] -> handlerThrows apiSource = false) /\
    (forall apiSource,
        apiSource ∈ [slowSource; fastSource] -> transformsThrow apiSource = false) /\
    mesh_rawSources mesh = omap (rawSourceAt [slowSource; fastSource]) [1; 0] /\
    sampleMerger (mesh_rawSources mesh) = Fulfilled (mesh_schema mesh) /\
    buildInContextSDK (mesh_schema mesh) (mesh_rawSources mesh)
      = Fulfilled (mesh_meshContext mesh) /\
    mesh_plugins mesh
    = [ useSchema (us_schema (mesh_schema mesh));
        useExtendContext;
        useExtendedValidation
          (bool_decide ("oneOf" ∈ schema_directives (us_schema (mesh_schema mesh))));
        parseWithCachePlugin ]
      ++ (additionalPlugin <$> []).
Proof.
  assert (Hall : settlesAll (sources (optionsFor [slowSource; fastSource])) [1; 0])
    by apply perm_swap.
  destruct (getMesh (optionsFor [slowSource; fastSource]) [1; 0]) as [mesh|e] eqn:Hmesh;
    [|discriminate].
  exists mesh. split; [reflexivity|].
  exact (mesh_returned_only_when_all_succeed
           (optionsFor [slowSource; fastSource]) [1; 0] mesh Hall Hmesh).
Defined.

(** X17.  Every raw source the loading pushes comes from a configured
    source whose handler resolved: it has the source's name, handler
    and merge configuration, the executor of the handler's result, its
    [batch] flag ([true] when it has none) and its context variables
    (empty when it has none).  When the source has no wrap transform
    and some no-wrap transform, the schema is the one
    [applySchemaTransforms] returned for the handler's schema and the
    no-wrap transforms, and no transforms are passed on; else the
    schema is the handler's as it is and the configured transforms are
    passed on, all of them. *)
Theorem loaded_raw_source_of_its_handler `{MeshUtils}
    (sources : list ApiSource) (completion : list nat) (rawSource : RawSourceOutput) :
  rawSource ∈ rawSources (loadSources sources completion) ->
  exists apiSource source,
    apiSource ∈ sources /\
    getMeshSource (as_handler apiSource) = Returns (Fulfilled source) /\
    rs_name rawSource = as_name apiSource /\
    rs_handler rawSource = as_handler apiSource /\
    rs_merge rawSource = as_merge apiSource /\
    rs_executor rawSource = ms_executor source /\
    rs_batch rawSource = default true (ms_batch source) /\
    rs_contextVariables rawSource = default [] (ms_contextVariables source) /\
    (let wrapTransforms := (groupTransforms (as_transforms apiSource)).1 in
     let noWrapTransforms := (groupTransforms (as_transforms apiSource)).2 in
     (wrapTransforms = [] -> noWrapTransforms <> [] ->
      applySchemaTransforms (ms_schema source) source noWrapTransforms
        = Returns (rs_schema rawSource) /\
      rs_transforms rawSource = None) /\
     (wrapTransforms <> [] \/ noWrapTransforms = [] ->
      rs_schema rawSource = ms_schema source /\
      rs_transforms rawSource = as_transforms apiSource)).
Proof.
  intros Hin.
  rewrite loadSources_rawSources in Hin.
  apply list_elem_of_omap in Hin as (i & Hi & Hat).
  unfold rawSourceAt, loadOutcome in Hat.
  destruct (sources !! i) as [a|] eqn:Ha; [|discriminate]. simpl in Hat.
  destruct (getMeshSource (as_handler a)) as [[source|e]|e] eqn:Hh;
    [|discriminate|discriminate].
  exists a, source.
  split; [by eapply list_elem_of_lookup_2|]. split; [exact Hh|].
  unfold rawSourceOf, bareTransforms in Hat.
  destruct (groupTransforms (as_transforms a)) as [wrap noWrap]. simpl.
  destruct wrap as [|t wrap], noWrap as [|t' noWrap]; simpl in Hat.
  - injection Hat as <-. simpl. do 6 (split; [reflexivity|]).
    split; [done|]. by intros _.
  - destruct (applySchemaTransforms (ms_schema source) source (t' :: noWrap))
      as [apiSchema|e] eqn:Happly; [|discriminate].
    injection Hat as <-. simpl. do 6 (split; [reflexivity|]).
    split; [done|]. by intros [?|?].
  - injection Hat as <-. simpl. do 6 (split; [reflexivity|]).
    split; [done|]. by intros _.
  - injection Hat as <-. simpl. do 6 (split; [reflexivity|]).
    split; [done|]. by intros _.
Qed.

(** On the raw source of [slow], loaded with a source that fails. *)
Lemma loaded_raw_source_of_its_handler_witness :
  exists apiSource source,
    apiSource ∈ [slowSource; failingSource] /\
    getMeshSource (as_handler apiSource) = Returns (Fulfilled source) /\
    rs_name slowRawSource = as_name apiSource /\
    rs_handler slowRawSource = as_handler apiSource /\
    rs_merge slowRawSource = as_merge apiSource /\
    rs_executor slowRawSource = ms_executor source /\
    rs_batch slowRawSource = default true (ms_batch source) /\
    rs_contextVariables slowRawSource = default [] (ms_contextVariables source) /\
    (let wrapTransforms := (groupTransforms (as_transforms apiSource)).1 in
     let noWrapTransforms := (groupTransforms (as_transforms apiSource)).2 in
     (wrapTransforms = [] -> noWrapTransforms <> [] ->
      applySchemaTransforms (ms_schema source) source noWrapTransforms
        = Returns (rs_schema slowRawSource) /\
      rs_transforms slowRawSource = None) /\
     (wrapTransforms <> [] \/ noWrapTransforms = [] ->
      rs_schema slowRawSource = ms_schema source /\
      rs_transforms slowRawSource = as_transforms apiSource)).
Proof.
  apply (loaded_raw_source_of_its_handler [slowSource; failingSource] [1; 0]
           slowRawSource).
  vm_compute. left.
Defined.

(** * Further properties of [execute], [subscribe] and the requester *)

(** [memoizedGetEnvelopedFactory] and [getEnveloped] always return;
    they leave the operation types stored and the count of merged
    contexts as they are, and add to the trace only the calls of
    [envelop] and of its result. *)
Lemma memoizedGetEnvelopedFactory_returns p w :
  exists f w1 pre,
    memoizedGetEnvelopedFactory p w = (Returns f, w1) /\
    operationTypeCache w1 = operationTypeCache w /\
    nextMerged w1 = nextMerged w /\
    trace w1 = trace w ++ pre /\
    Forall (fun ev => servedBy ev = None) pre.
Proof.
  unfold memoizedGetEnvelopedFactory, memoize1. simpl.
  destruct (factoryCache w !! p) as [f|].
  - exists f, w, []. by rewrite app_nil_r.
  - eexists _, _, [CalledEnvelop p]. split; [reflexivity|].
    repeat split; simpl; by repeat constructor.
Qed.

Lemma getEnveloped_returns f c w :
  exists e w1 pre,
    getEnveloped f c w = (Returns e, w1) /\
    operationTypeCache w1 = operationTypeCache w /\
    nextMerged w1 = nextMerged w /\
    trace w1 = trace w ++ pre /\
    Forall (fun ev => servedBy ev = None) pre.
Proof.
  unfold getEnveloped, memoize1. simpl.
  destruct (envelopedCacheOf (factory_ref f) w !! c) as [e|].
  - exists e, w, []. by rewrite app_nil_r.
  - eexists _, _, [CalledGetEnveloped (factory_plugins f) c]. split; [reflexivity|].
    repeat split; simpl; by repeat constructor.
Qed.

Section PipelineEffects.
Context `{GraphQLTools} `{Envelop}.

Lemma envelopedFor_returns mesh ctx w :
  exists e w1 pre,
    envelopedFor mesh ctx w = (Returns e, w1) /\
    operationTypeCache w1 = operationTypeCache w /\
    nextMerged w1 = nextMerged w /\
    trace w1 = trace w ++ pre /\
    Forall (fun ev => servedBy ev = None) pre.
Proof.
  unfold envelopedFor, bind.
  destruct (memoizedGetEnvelopedFactory_returns (plugins mesh) w)
    as (f & w1 & pre1 & -> & Ho1 & Hn1 & Ht1 & Hp1).
  destruct (getEnveloped_returns f (ctx_ref ctx) w1)
    as (e & w2 & pre2 & -> & Ho2 & Hn2 & Ht2 & Hp2).
  exists e, w2, (pre1 ++ pre2). split; [done|].
  split; [congruence|]. split; [congruence|].
  split; [by rewrite Ht2, Ht1, app_assoc | by apply Forall_app].
Qed.

(** [execute] and [subscribe] past the choice of the pipeline. *)
Lemma meshExecute_effect mesh documentOrSDL variableValues contextValue rootValue
    operationName w e w1 :
  envelopedFor mesh (default (EMPTY_CONTEXT_VALUE mesh) contextValue) w = (Returns e, w1) ->
  let args :=
    executionArgs mesh e documentOrSDL
      (default (EMPTY_VARIABLES_VALUE mesh) variableValues)
      (default (EMPTY_CONTEXT_VALUE mesh) contextValue)
      (default (EMPTY_ROOT_VALUE mesh) rootValue) operationName in
  meshExecute mesh documentOrSDL variableValues contextValue rootValue operationName w
  = (envelopExecute e args, snd (emit (CalledExecute e args) w1)).
Proof.
  intros He. unfold meshExecute, async, bind. rewrite He. unfold emit, await.
  by destruct (envelopExecute e _).
Qed.

Lemma meshSubscribe_effect mesh documentOrSDL variableValues contextValue rootValue
    operationName w e w1 :
  envelopedFor mesh (default (EMPTY_CONTEXT_VALUE mesh) contextValue) w = (Returns e, w1) ->
  let args :=
    executionArgs mesh e documentOrSDL
      (default (EMPTY_VARIABLES_VALUE mesh) variableValues)
      (default (EMPTY_CONTEXT_VALUE mesh) contextValue)
      (default (EMPTY_ROOT_VALUE mesh) rootValue) operationName in
  meshSubscribe mesh documentOrSDL variableValues contextValue rootValue operationName w
  = (envelopSubscribe e args, snd (emit (CalledSubscribe e args) w1)).
Proof.
  intros He. unfold meshSubscribe, async, bind. rewrite He. unfold emit, await.
  by destruct (envelopSubscribe e _).
Qed.

(** The state a requester call ends in, past the inspection of the
    document. *)
Lemma requester_world mesh globalContext document variables contextValue w
    operation w1 e w2 :
  memoizedGetOperationType document w = (Returns operation, w1) ->
  envelopedFor mesh (mergedContext globalContext contextValue w1) (afterSpread w1)
    = (Returns e, w2) ->
  let args :=
    executionArgs mesh e (inr document)
      (default (EMPTY_VARIABLES_VALUE mesh) variables)
      (mergedContext globalContext contextValue w1)
      (EMPTY_ROOT_VALUE mesh) None in
  snd (meshSdkRequester mesh globalContext document variables contextValue w)
  = snd (emit match operation with
              | subscription => CalledSubscribe e args
              | _ => CalledExecute e args
              end w2).
Proof.
  intros Hop He. rewrite (requester_unfold _ _ _ _ _ _ _ _ Hop). cbv zeta.
  destruct operation.
  - rewrite (meshExecute_effect _ _ _ (Some _) None None _ _ _ He). simpl.
    by destruct (envelopExecute e _) as [[r|rs]|err].
  - rewrite (meshExecute_effect _ _ _ (Some _) None None _ _ _ He). simpl.
    by destruct (envelopExecute e _) as [[r|rs]|err].
  - rewrite (meshSubscribe_effect _ _ _ (Some _) None None _ _ _ He). simpl.
    by destruct (envelopSubscribe e _) as [[r|rs]|err].
Qed.

End PipelineEffects.

(** X18.  A requester call whose document has an operation makes one
    call of the pipeline, after it has been set up: [subscribe] for a
    subscription, [execute] for a query or a mutation.  The call gets
    the document as given, the context the pipeline's [contextFactory]
    makes of the spread of the global context and the context of the
    call (a property of the call replacing the global one), the
    variables of the call or the empty object of the mesh, its empty
    root value, its schema and no operation name. *)
Theorem requester_routes_by_operation `{GraphQLTools} `{Envelop}
    (mesh : MeshInstance) (globalContext : gmap string JsValue)
    (document : DocumentNode) (variables : option JsValue)
    (contextValue : option (gmap string JsValue))
    (w w1 : World) (operation : OperationTypeNode) :
  memoizedGetOperationType document w = (Returns operation, w1) ->
  exists e fields setup,
    let args :=
      {| ea_document := document;
         ea_contextValue := envelopContextFactory e fields;
         ea_rootValue := EMPTY_ROOT_VALUE mesh;
         ea_variableValues := default (EMPTY_VARIABLES_VALUE mesh) variables;
         ea_schema := unifiedSchema mesh;
         ea_operationName := None |} in
    trace (snd (meshSdkRequester mesh globalContext document variables contextValue w))
    = trace w1 ++ setup
      ++ [ match operation with
           | subscription => CalledSubscribe e args
           | _ => CalledExecute e args
           end ] /\
    Forall (fun ev => servedBy ev = None) setup /\
    forall property,
      fields !! property
      = match contextValue ≫= (.!! property) with
        | Some value => Some value
        | None => globalContext !! property
        end.
Proof.
  intros Hop.
  destruct (envelopedFor_returns mesh (mergedContext globalContext contextValue w1)
              (afterSpread w1)) as (e & w2 & setup & He & _ & _ & Ht & Hsetup).
  exists e, (default ∅ contextValue ∪ globalContext), setup.
  rewrite (requester_world _ _ _ _ _ _ _ _ _ _ Hop He).
  split; [|split; [exact Hsetup|]].
  - unfold emit. simpl. rewrite Ht. simpl. rewrite <- app_assoc.
    by destruct operation.
  - intros property. rewrite lookup_union.
    destruct contextValue as [cv|]; simpl.
    + by destruct (cv !! property), (globalContext !! property).
    + rewrite lookup_empty. by destruct (globalContext !! property).
Qed.

(** On a subscription document, a global context with a [user] and a
    call context replacing it. *)
Lemma requester_routes_by_operation_witness :
  exists e fields setup,
    trace (snd (meshSdkRequester sampleMesh {[ "user" := JsString "ann" ]}
                  subscriptionDocument None (Some {[ "user" := JsString "bob" ]})
                  initialWorld))
    = [CalledGetOperationAST 202] ++ setup
      ++ [ CalledSubscribe e
             {| ea_document := subscriptionDocument;
                ea_contextValue := envelopContextFactory e fields;
                ea_rootValue := EMPTY_ROOT_VALUE sampleMesh;
                ea_variableValues := EMPTY_VARIABLES_VALUE sampleMesh;
                ea_schema := unifiedSchema sampleMesh;
                ea_operationName := None |} ] /\
    Forall (fun ev => servedBy ev = None) setup /\
    fields !! "user" = Some (JsString "bob").
Proof.
  pose (w1 := snd (memoizedGetOperationType subscriptionDocument initialWorld)).
  assert (Hop : memoizedGetOperationType subscriptionDocument initialWorld
                = (Returns subscription, w1)) by (vm_compute; reflexivity).
  destruct (requester_routes_by_operation sampleMesh {[ "user" := JsString "ann" ]}
              subscriptionDocument None (Some {[ "user" := JsString "bob" ]})
              initialWorld w1 subscription Hop)
    as (e & fields & setup & Htrace & Hsetup & Hfields).
  exists e, fields, setup. split; [exact Htrace|]. split; [exact Hsetup|].
  apply Hfields.
Defined.

(** X19.  For a query or a mutation, when [execute] resolves to an
    async iterable the requester's promise is fulfilled with
    [undefined]: the iterable is dropped.  When [execute], or
    [subscribe] for a subscription, rejects, the requester's promise is
    rejected with the same error. *)
Theorem requester_drops_iterable_of_execute `{GraphQLTools} `{Envelop}
    (mesh : MeshInstance) (globalContext : gmap string JsValue)
    (document : DocumentNode) (variables : option JsValue)
    (contextValue : option (gmap string JsValue))
    (w w1 w3 : World) (operation : OperationTypeNode) :
  memoizedGetOperationType document w = (Returns operation, w1) ->
  (forall results,
      operation <> subscription ->
      meshExecute mesh (inr document) variables
        (Some (mergedContext globalContext contextValue w1)) None None (afterSpread w1)
        = (Fulfilled (AsyncIterable results), w3) ->
      meshSdkRequester mesh globalContext document variables contextValue w
      = (Fulfilled (Value (Data JsUndefined)), w3)) /\
  (forall e,
      (operation = subscription /\
       meshSubscribe mesh (inr document) variables
         (Some (mergedContext globalContext contextValue w1)) None None (afterSpread w1)
         = (Rejected e, w3))
      \/ (operation <> subscription /\
          meshExecute mesh (inr document) variables
            (Some (mergedContext globalContext contextValue w1)) None None (afterSpread w1)
            = (Rejected e, w3)) ->
      meshSdkRequester mesh globalContext document variables contextValue w
      = (Rejected e, w3)).
Proof.
  intros Hop. split.
  - intros results Hne Hexec.
    rewrite (requester_unfold _ _ _ _ _ _ _ _ Hop). cbv zeta.
    destruct operation; [| |done]; by rewrite Hexec.
  - intros e Hres.
    rewrite (requester_unfold _ _ _ _ _ _ _ _ Hop). cbv zeta.
    destruct Hres as [[-> Hsub]|[Hne Hexec]].
    + by rewrite Hsub.
    + destruct operation; [| |done]; by rewrite Hexec.
Qed.

(** On a query document and a pipeline whose [execute] resolves to an
    async iterable. *)
Lemma requester_drops_iterable_of_execute_witness :
  exists w3,
    @meshSdkRequester referenceTools liveQueryEnvelop sampleMesh ∅ queryDocument
      None None initialWorld
    = (Fulfilled (Value (Data JsUndefined)), w3).
Proof.
  pose (w1 := snd (memoizedGetOperationType queryDocument initialWorld)).
  pose (w3 := snd (@meshExecute liveQueryEnvelop sampleMesh (inr queryDocument) None
                     (Some (mergedContext ∅ None w1)) None None (afterSpread w1))).
  exists w3.
  assert (Hop : memoizedGetOperationType queryDocument initialWorld
                = (Returns query, w1)) by (vm_compute; reflexivity).
  apply (proj1 (@requester_drops_iterable_of_execute referenceTools liveQueryEnvelop
                  sampleMesh ∅ queryDocument None None initialWorld w1 w3 query Hop)
           sampleResults);
    [discriminate | vm_compute; reflexivity].
Defined.

(** X20.  A call of [execute], and one of [subscribe], makes exactly
    one call of a pipeline, of its [execute] and of its [subscribe],
    after the calls that set the pipeline up, and its promise is the
    one that call returns (the pipeline's [parse] and [contextFactory]
    being taken to return).  A parameter left out takes the empty
    object of the mesh; a string is parsed by the pipeline's [parse], a
    document is passed as given; the context passed is what the
    pipeline's [contextFactory] makes of the context value.  Neither
    inspects the operation of the document: the operation types stored
    are left as they are. *)
Theorem execute_settles_as_pipeline `{Envelop}
    (mesh : MeshInstance) (documentOrSDL : string + DocumentNode)
    (variableValues : option JsValue) (contextValue : option ContextValue)
    (rootValue : option JsValue) (operationName : option string) (w : World) :
  exists e setup,
    let args :=
      {| ea_document :=
           match documentOrSDL with
           | inl sdl => envelopParse e sdl
           | inr document => document
           end;
         ea_contextValue :=
           envelopContextFactory e
             (ctx_fields (default (EMPTY_CONTEXT_VALUE mesh) contextValue));
         ea_rootValue := default (EMPTY_ROOT_VALUE mesh) rootValue;
         ea_variableValues := default (EMPTY_VARIABLES_VALUE mesh) variableValues;
         ea_schema := unifiedSchema mesh;
         ea_operationName := operationName |} in
    let executed :=
      meshExecute mesh documentOrSDL variableValues contextValue rootValue
        operationName w in
    let subscribed :=
      meshSubscribe mesh documentOrSDL variableValues contextValue rootValue
        operationName w in
    Forall (fun ev => servedBy ev = None) setup /\
    fst executed = envelopExecute e args /\
    trace (snd executed) = trace w ++ setup ++ [CalledExecute e args] /\
    operationTypeCache (snd executed) = operationTypeCache w /\
    fst subscribed = envelopSubscribe e args /\
    trace (snd subscribed) = trace w ++ setup ++ [CalledSubscribe e args] /\
    operationTypeCache (snd subscribed) = operationTypeCache w.
Proof.
  destruct (envelopedFor_returns mesh
              (default (EMPTY_CONTEXT_VALUE mesh) contextValue) w)
    as (e & w1 & setup & He & Hcache & _ & Htrace & Hsetup).
  exists e, setup. cbv zeta.
  rewrite (meshExecute_effect _ _ _ _ _ _ _ _ _ He).
  rewrite (meshSubscribe_effect _ _ _ _ _ _ _ _ _ He).
  cbv zeta. unfold emit, executionArgs. simpl.
  rewrite Htrace, Hcache, <- !app_assoc. done.
Qed.

(** * The calls that set the pipelines up *)

Lemma envelopCalls_app p l1 l2 :
  envelopCalls p (l1 ++ l2) = envelopCalls p l1 + envelopCalls p l2.
Proof. unfold envelopCalls. by rewrite filter_app, length_app. Qed.

Lemma getEnvelopedCalls_app p c l1 l2 :
  getEnvelopedCalls p c (l1 ++ l2) = getEnvelopedCalls p c l1 + getEnvelopedCalls p c l2.
Proof. unfold getEnvelopedCalls. by rewrite filter_app, length_app. Qed.

Lemma calls_other l :
  Forall (fun ev => isSetup ev = false) l ->
  forall p c, envelopCalls p l = 0 /\ getEnvelopedCalls p c l = 0.
Proof.
  intros Hl p c. unfold envelopCalls, getEnvelopedCalls.
  induction Hl as [|ev l Hev Hl [IH1 IH2]]; [done|].
  rewrite !filter_cons_False; [done| |]; by destruct ev.
Qed.

(** A step that leaves the caches alone and sets no pipeline up. *)
Lemma callsCounted_other w w' l :
  callsCounted w -> memo w' = memo w -> trace w' = trace w ++ l ->
  Forall (fun ev => isSetup ev = false) l -> callsCounted w'.
Proof.
  intros [Hs Hr H1 H2] Hm Ht Hl.
  assert (Hc : forall r, envelopedCacheOf r w' = envelopedCacheOf r w)
    by (intros r; by apply envelopedCacheOf_memo).
  pose proof Hm as Hm'. unfold memo in Hm'. injection Hm' as Hf He Hn.
  split.
  - by apply (cachesSound_memo w w').
  - rewrite Hf. apply Hr.
  - intros p. rewrite Ht, envelopCalls_app, Hf, H1.
    destruct (calls_other l Hl p (CallerContext 1)) as [-> _]. lia.
  - intros p c. rewrite Ht, getEnvelopedCalls_app, Hf, H2.
    destruct (calls_other l Hl p c) as [_ ->].
    destruct (factoryCache w !! p) as [f|]; [|lia]. rewrite Hc. lia.
Qed.

Lemma callsCounted_factory p w f w1 :
  callsCounted w ->
  memoizedGetEnvelopedFactory p w = (Returns f, w1) ->
  callsCounted w1 /\ factoryCache w1 !! p = Some f.
Proof.
  intros Hc. pose proof Hc as [Hs Hr H1 H2].
  unfold memoizedGetEnvelopedFactory, memoize1. simpl.
  destruct (factoryCache w !! p) as [f0|] eqn:Hf.
  - intros [= <- <-]. done.
  - unfold getEnvelopedFactory, bind, emit, newRef. simpl. intros [= <- <-].
    split; [|apply lookup_insert_eq].
    match goal with |- callsCounted ?w' =>
      destruct (sound_add_factory w w' p {| factory_ref := nextRef w; factory_plugins := p |}
                  Hs Hf eq_refl eq_refl eq_refl) as [Hs' _]
    end.
    split; [exact Hs'| | |]; simpl.
    + intros p1 f1 p2 f2 Hl1 Hl2 Href.
      apply lookup_insert_Some in Hl1 as [[<- <-]|[Hne1 Hl1]];
        apply lookup_insert_Some in Hl2 as [[<- <-]|[Hne2 Hl2]]; simpl in Href.
      * done.
      * destruct (sound_factory w Hs p2 f2 Hl2) as [_ Hlt]. rewrite <- Href in Hlt. lia.
      * destruct (sound_factory w Hs p1 f1 Hl1) as [_ Hlt]. rewrite Href in Hlt. lia.
      * by eapply Hr.
    + intros p'. rewrite envelopCalls_app, H1.
      unfold envelopCalls. simpl.
      destruct (decide (p = p')) as [<-|Hne].
      * rewrite lookup_insert_eq, Hf.
        rewrite filter_cons_True; [done|]. simpl. by rewrite bool_decide_eq_true.
      * rewrite lookup_insert_ne by done.
        rewrite filter_cons_False; [simpl; lia|].
        simpl. rewrite bool_decide_eq_true. done.
    + intros p' c. rewrite getEnvelopedCalls_app, H2.
      assert (Hz : getEnvelopedCalls p' c [CalledEnvelop p] = 0) by done.
      rewrite Hz, Nat.add_0_r.
      destruct (decide (p = p')) as [<-|Hne].
      * rewrite lookup_insert_eq, Hf. simpl.
        unfold envelopedCacheOf. simpl.
        destruct (envelopedCache w !! nextRef w) as [m|] eqn:Hm; [|done].
        pose proof (sound_closure w Hs _ _ Hm). lia.
      * rewrite lookup_insert_ne by done. done.
Qed.

Lemma callsCounted_enveloped p f c w e w1 :
  callsCounted w -> factoryCache w !! p = Some f ->
  getEnveloped f c w = (Returns e, w1) ->
  callsCounted w1.
Proof.
  intros Hc Hf. pose proof Hc as [Hs Hr H1 H2].
  destruct (sound_factory w Hs p f Hf) as [Hp Hlt].
  unfold getEnveloped, memoize1. simpl.
  destruct (envelopedCacheOf (factory_ref f) w !! c) as [e0|] eqn:He.
  - by intros [= <- <-].
  - unfold getEnvelopedByContext, bind, emit, newRef. simpl. intros [= <- <-].
    match goal with |- callsCounted ?w' =>
      destruct (sound_add_enveloped w w' (factory_ref f) c
                  {| env_ref := nextRef w; env_plugins := factory_plugins f;
                     env_initialContext := c |}
                  Hs Hlt He eq_refl eq_refl eq_refl) as [Hs' _]
    end.
    split; [exact Hs'|exact Hr| |]; simpl.
    + intros p'. rewrite envelopCalls_app, H1.
      assert (Hz : envelopCalls p' [CalledGetEnveloped (factory_plugins f) c] = 0) by done.
      rewrite Hz. lia.
    + intros p' c'. rewrite getEnvelopedCalls_app, H2.
      assert (Hz : getEnvelopedCalls p' c' [CalledGetEnveloped (factory_plugins f) c]
                   = if decide (p = p' /\ c = c') then 1 else 0).
      { unfold getEnvelopedCalls. rewrite Hp.
        destruct (decide (p = p' /\ c = c')) as [Hd|Hd].
        - rewrite filter_cons_True; [done|]. simpl. by rewrite bool_decide_eq_true.
        - rewrite filter_cons_False; [done|]. simpl. by rewrite bool_decide_eq_true. }
      rewrite Hz. clear Hz.
      unfold envelopedCacheOf in He |- *. simpl.
      destruct (decide (p = p')) as [<-|Hne].
      * rewrite Hf, lookup_insert_eq. simpl.
        destruct (decide (c = c')) as [<-|Hnec].
        -- rewrite lookup_insert_eq, He. by rewrite decide_True.
        -- rewrite lookup_insert_ne by done.
           rewrite decide_False; [lia|]. by intros [_ ?].
      * rewrite decide_False; [|by intros [? _]]. rewrite Nat.add_0_r.
        destruct (factoryCache w !! p') as [f'|] eqn:Hf'; [|done].
        rewrite lookup_insert_ne; [done|].
        intros Href. apply Hne. by apply (Hr p f p' f').
Qed.

Section CountedCalls.
Context `{GraphQLTools} `{Envelop}.

Lemma callsCounted_envelopedFor mesh ctx w e w1 :
  callsCounted w -> envelopedFor mesh ctx w = (Returns e, w1) -> callsCounted w1.
Proof.
  intros Hc. unfold envelopedFor, bind.
  destruct (memoizedGetEnvelopedFactory (plugins mesh) w) as [[f|err] w0] eqn:Hf.
  - destruct (callsCounted_factory _ _ _ _ Hc Hf) as [Hc0 Hl0].
    intros He. by eapply callsCounted_enveloped.
  - discriminate.
Qed.

Lemma callsCounted_emit ev w :
  isSetup ev = false -> callsCounted w -> callsCounted (snd (emit ev w)).
Proof.
  intros Hev Hc. apply (callsCounted_other w _ [ev]); [done|done|done|].
  by constructor.
Qed.

Lemma memoizedGetOperationType_trace document w :
  exists l,
    trace (snd (memoizedGetOperationType document w)) = trace w ++ l /\
    Forall (fun ev => isSetup ev = false) l.
Proof.
  unfold memoizedGetOperationType, memoize1.
  destruct (operationTypeCache w !! doc_ref document).
  - exists []. by rewrite app_nil_r.
  - exists [CalledGetOperationAST (doc_ref document)].
    unfold getOperationType, bind, emit. simpl.
    destruct (getOperationAST document); simpl; by repeat constructor.
Qed.

(** Every call keeps the count. *)
Lemma afterCall_counted w c : callsCounted w -> callsCounted (afterCall w c).
Proof.
  intros Hc.
  destruct c as [mesh params|mesh params|mesh globalContext document variables cv].
  - unfold afterCall.
    destruct (envelopedFor_returns mesh
                (default (EMPTY_CONTEXT_VALUE mesh) (ep_contextValue params)) w)
      as (e & w1 & _ & He & _).
    rewrite (meshExecute_effect _ _ _ _ _ _ _ _ _ He). cbv zeta.
    apply callsCounted_emit; [done|]. by eapply callsCounted_envelopedFor.
  - unfold afterCall.
    destruct (envelopedFor_returns mesh
                (default (EMPTY_CONTEXT_VALUE mesh) (ep_contextValue params)) w)
      as (e & w1 & _ & He & _).
    rewrite (meshSubscribe_effect _ _ _ _ _ _ _ _ _ He). cbv zeta.
    apply callsCounted_emit; [done|]. by eapply callsCounted_envelopedFor.
  - unfold afterCall.
    pose proof (memoizedGetOperationType_memo document w) as Hm.
    destruct (memoizedGetOperationType_trace document w) as (l & Ht & Hl).
    destruct (memoizedGetOperationType document w) as [[operation|err] w1] eqn:Hop;
      simpl in Hm, Ht.
    + assert (Hc1 : callsCounted (afterSpread w1)).
      { by apply (callsCounted_other w _ l). }
      destruct (envelopedFor_returns mesh (mergedContext globalContext cv w1)
                  (afterSpread w1)) as (e & w2 & _ & He & _).
      rewrite (requester_world _ _ _ _ _ _ _ _ _ _ Hop He). cbv zeta.
      apply callsCounted_emit; [by destruct operation|].
      by eapply callsCounted_envelopedFor.
    + rewrite (requester_throws _ _ _ _ _ _ _ _ Hop). simpl.
      by apply (callsCounted_other w _ l).
Qed.

Lemma initialWorld_counted : callsCounted initialWorld.
Proof.
  split; [apply initialWorld_sound|..]; simpl; intros *;
    rewrite ?lookup_empty; done.
Qed.

Lemma reachable_counted w : reachable w -> callsCounted w.
Proof.
  intros [calls ->]. unfold afterCalls.
  generalize initialWorld_counted. generalize initialWorld.
  induction calls as [|c calls IH]; intros w Hc; simpl; [done|].
  by apply IH, afterCall_counted.
Qed.

End CountedCalls.

(** X21.  In a state the module can reach, [envelop({ plugins })] has
    been called once for every plugin list with a stored factory and
    never for another, and the factory of a plugin list has been called
    once for every context value a pipeline is stored under and never
    for another: whatever the calls made, at most once per plugin list
    and at most once per plugin list and context object. *)
Theorem pipelines_set_up_at_most_once `{GraphQLTools} `{Envelop} (w : World) :
  reachable w ->
  forall plugins initialContext,
    envelopCalls plugins (trace w) <= 1 /\
    getEnvelopedCalls plugins initialContext (trace w) <= 1 /\
    (envelopCalls plugins (trace w) = 1 <-> is_Some (factoryCache w !! plugins)) /\
    (getEnvelopedCalls plugins initialContext (trace w) = 1 <->
     exists factory enveloped,
       factoryCache w !! plugins = Some factory /\
       envelopedCacheOf (factory_ref factory) w !! initialContext = Some enveloped).
Proof.
  intros Hw p c. destruct (reachable_counted w Hw) as [_ _ H1 H2].
  rewrite H1, H2.
  destruct (factoryCache w !! p) as [f|] eqn:Hf.
  - split; [lia|].
    destruct (envelopedCacheOf (factory_ref f) w !! c) as [e|] eqn:He.
    + split; [lia|]. split; [split; [by eexists | done]|].
      split; [intros _; by exists f, e | done].
    + split; [lia|]. split; [split; [by eexists | done]|].
      split; [done|]. intros (f' & e' & [= <-] & He'). congruence.
  - split; [lia|]. split; [lia|]. split; [split; [done | by intros [? ?]]|].
    split; [done | by intros (f' & e' & ? & _)].
Qed.

(** After two calls of [execute] with the same context object. *)
Lemma pipelines_set_up_at_most_once_witness :
  envelopCalls 100 (trace (afterCalls initialWorld twoCallsOneContext)) <= 1 /\
  getEnvelopedCalls 100 (CallerContext 300)
    (trace (afterCalls initialWorld twoCallsOneContext)) <= 1 /\
  (envelopCalls 100 (trace (afterCalls initialWorld twoCallsOneContext)) = 1 <->
   is_Some (factoryCache (afterCalls initialWorld twoCallsOneContext) !! 100%positive)) /\
  (getEnvelopedCalls 100 (CallerContext 300)
     (trace (afterCalls initialWorld twoCallsOneContext)) = 1 <->
   exists factory enveloped,
     factoryCache (afterCalls initialWorld twoCallsOneContext) !! 100%positive
       = Some factory /\
     envelopedCacheOf (factory_ref factory) (afterCalls initialWorld twoCallsOneContext)
       !! CallerContext 300 = Some enveloped).
Proof.
  apply (pipelines_set_up_at_most_once (afterCalls initialWorld twoCallsOneContext)).
  by exists twoCallsOneContext.
Defined.

(** * The pipelines of the requester *)

Lemma memoizedGetEnvelopedFactory_caches p w f w0 :
  memoizedGetEnvelopedFactory p w = (Returns f, w0) ->
  envelopedCache w0 = envelopedCache w /\ nextMerged w0 = nextMerged w.
Proof.
  unfold memoizedGetEnvelopedFactory, memoize1. simpl.
  destruct (factoryCache w !! p) as [f0|]; by intros [= <- <-].
Qed.

Lemma getEnveloped_caches f c w e w1 :
  getEnveloped f c w = (Returns e, w1) ->
  nextMerged w1 = nextMerged w /\
  forall r c' e',
    envelopedCacheOf r w1 !! c' = Some e' ->
    envelopedCacheOf r w !! c' = Some e' \/ c' = c.
Proof.
  unfold getEnveloped, memoize1. simpl.
  destruct (envelopedCacheOf (factory_ref f) w !! c) as [e0|] eqn:He.
  - intros [= <- <-]. split; [done|]. by left.
  - intros [= <- <-]. split; [done|]. intros r c' e'.
    unfold envelopedCacheOf at 1. simpl.
    destruct (decide (r = factory_ref f)) as [->|Hne].
    + rewrite lookup_insert_eq. simpl. intros Hl.
      apply lookup_insert_Some in Hl as [[<- _]|[_ Hl]]; [by right|by left].
    + rewrite lookup_insert_ne by done. by left.
Qed.

Section RequesterPipelines.
Context `{GraphQLTools} `{Envelop}.

Lemma envelopedFor_caches mesh ctx w e w1 :
  envelopedFor mesh ctx w = (Returns e, w1) ->
  nextMerged w1 = nextMerged w /\
  forall r c' e',
    envelopedCacheOf r w1 !! c' = Some e' ->
    envelopedCacheOf r w !! c' = Some e' \/ c' = ctx_ref ctx.
Proof.
  unfold envelopedFor, bind.
  destruct (memoizedGetEnvelopedFactory (plugins mesh) w) as [[f|err] w0] eqn:Hf;
    [|discriminate].
  destruct (memoizedGetEnvelopedFactory_caches _ _ _ _ Hf) as [Hc0 Hn0].
  intros He. destruct (getEnveloped_caches _ _ _ _ _ He) as [Hn1 Hc1].
  split; [congruence|]. intros r c' e' Hl.
  destruct (Hc1 r c' e' Hl) as [Hold | ->]; [left | by right].
  unfold envelopedCacheOf in Hold |- *. by rewrite <- Hc0.
Qed.

Lemma mergedBelow_other w w' :
  memo w' = memo w -> nextMerged w <= nextMerged w' ->
  mergedBelow w -> mergedBelow w'.
Proof.
  intros Hm Hn Hb r n e Hl.
  rewrite (envelopedCacheOf_memo r w' w Hm) in Hl.
  specialize (Hb r n e Hl). lia.
Qed.

Lemma mergedBelow_envelopedFor mesh ctx w e w1 :
  mergedBelow w ->
  (forall n, ctx_ref ctx = MergedContext n -> n < nextMerged w) ->
  envelopedFor mesh ctx w = (Returns e, w1) ->
  mergedBelow w1.
Proof.
  intros Hb Hctx He. destruct (envelopedFor_caches _ _ _ _ _ He) as [Hn Hc].
  intros r n e' Hl. rewrite Hn.
  destruct (Hc r _ e' Hl) as [Hold|Heq]; [by eapply Hb|].
  by apply Hctx.
Qed.

Lemma memoizedGetOperationType_nextMerged document w :
  nextMerged (snd (memoizedGetOperationType document w)) = nextMerged w.
Proof.
  unfold memoizedGetOperationType, memoize1.
  destruct (operationTypeCache w !! doc_ref document); [done|].
  unfold getOperationType, bind, emit. simpl.
  by destruct (getOperationAST document).
Qed.

Lemma afterCall_mergedBelow w c :
  callerOwned c -> mergedBelow w -> mergedBelow (afterCall w c).
Proof.
  intros Hown Hb.
  destruct c as [mesh params|mesh params|mesh globalContext document variables cv].
  - unfold afterCall.
    destruct (envelopedFor_returns mesh
                (default (EMPTY_CONTEXT_VALUE mesh) (ep_contextValue params)) w)
      as (e & w1 & _ & He & _).
    rewrite (meshExecute_effect _ _ _ _ _ _ _ _ _ He). cbv zeta.
    apply (mergedBelow_other w1); [done|done|].
    eapply mergedBelow_envelopedFor; [exact Hb| |exact He].
    intros n Hn. destruct (ep_contextValue params) as [cv|] eqn:Hcv; [|done].
    by destruct (Hown cv n).
  - unfold afterCall.
    destruct (envelopedFor_returns mesh
                (default (EMPTY_CONTEXT_VALUE mesh) (ep_contextValue params)) w)
      as (e & w1 & _ & He & _).
    rewrite (meshSubscribe_effect _ _ _ _ _ _ _ _ _ He). cbv zeta.
    apply (mergedBelow_other w1); [done|done|].
    eapply mergedBelow_envelopedFor; [exact Hb| |exact He].
    intros n Hn. destruct (ep_contextValue params) as [cv|] eqn:Hcv; [|done].
    by destruct (Hown cv n).
  - unfold afterCall.
    pose proof (memoizedGetOperationType_memo document w) as Hm.
    pose proof (memoizedGetOperationType_nextMerged document w) as Hn.
    destruct (memoizedGetOperationType document w) as [[operation|err] w1] eqn:Hop;
      simpl in Hm, Hn.
    + assert (Hb1 : mergedBelow (afterSpread w1)).
      { apply (mergedBelow_other w); [done|simpl; lia|done]. }
      destruct (envelopedFor_returns mesh (mergedContext globalContext cv w1)
                  (afterSpread w1)) as (e & w2 & _ & He & _).
      rewrite (requester_world _ _ _ _ _ _ _ _ _ _ Hop He). cbv zeta.
      apply (mergedBelow_other w2); [done|done|].
      eapply mergedBelow_envelopedFor; [exact Hb1| |exact He].
      simpl. intros n [= <-]. lia.
    + rewrite (requester_throws _ _ _ _ _ _ _ _ Hop). simpl.
      apply (mergedBelow_other w); [done|lia|done].
Qed.

Lemma afterCalls_mergedBelow calls :
  Forall callerOwned calls -> mergedBelow (afterCalls initialWorld calls).
Proof.
  unfold afterCalls.
  assert (Hinit : mergedBelow initialWorld).
  { intros r n e. unfold envelopedCacheOf. simpl. by rewrite !lookup_empty. }
  revert Hinit. generalize initialWorld.
  induction calls as [|c calls IH]; intros w Hb Hown; simpl; [done|].
  apply Forall_cons in Hown as [Hc Hown].
  apply IH; [by apply afterCall_mergedBelow|done].
Qed.

End RequesterPipelines.

(** X22.  As long as the callers of [execute] and [subscribe] pass
    context values of their own, every requester call whose document
    has an operation sets a new pipeline up: the context it spreads is
    a new object, for which the factory has not been called before and
    is called once by this call, and the pipeline that serves the call
    is none of those stored before. *)
Theorem requester_sets_up_new_pipeline `{GraphQLTools} `{Envelop}
    (calls : list MeshCall) (mesh : MeshInstance)
    (globalContext : gmap string JsValue) (document : DocumentNode)
    (variables : option JsValue) (contextValue : option (gmap string JsValue))
    (operation : OperationTypeNode) (w1 : World) :
  Forall callerOwned calls ->
  memoizedGetOperationType document (afterCalls initialWorld calls)
    = (Returns operation, w1) ->
  let w := afterCalls initialWorld calls in
  let w' := afterCall w (CallRequester mesh globalContext document variables contextValue) in
  getEnvelopedCalls (plugins mesh) (MergedContext (nextMerged w)) (trace w) = 0 /\
  getEnvelopedCalls (plugins mesh) (MergedContext (nextMerged w)) (trace w') = 1 /\
  exists e,
    lastServed w' = Some e /\
    env_initialContext e = MergedContext (nextMerged w) /\
    forall r c e0, envelopedCacheOf r w !! c = Some e0 -> e0 <> e.
Proof.
  intros Hown Hop w w'.
  assert (Hreach : reachable w) by (by exists calls).
  assert (Hreach' : reachable w').
  { exists (calls ++ [CallRequester mesh globalContext document variables contextValue]).
    unfold w', w, afterCalls. by rewrite fold_left_app. }
  pose proof (reachable_counted w Hreach) as Hc.
  pose proof (reachable_counted w' Hreach') as Hc'.
  pose proof (afterCalls_mergedBelow calls Hown) as Hb. fold w in Hb.
  pose proof (memoizedGetOperationType_memo document w) as Hm.
  pose proof (memoizedGetOperationType_nextMerged document w) as Hn.
  fold w in Hop. rewrite Hop in Hm, Hn. simpl in Hm, Hn.
  assert (Hs1 : cachesSound (afterSpread w1)).
  { apply (cachesSound_memo w); [by rewrite <- Hm|apply Hc]. }
  destruct (envelopedFor_spec mesh (mergedContext globalContext contextValue w1)
              (afterSpread w1) Hs1)
    as (e & w2 & He & Hs2 & _ & f & Hf2 & He2).
  assert (Hw' : w' = snd (emit match operation with
                               | subscription =>
                                   CalledSubscribe e
                                     (executionArgs mesh e (inr document)
                                        (default (EMPTY_VARIABLES_VALUE mesh) variables)
                                        (mergedContext globalContext contextValue w1)
                                        (EMPTY_ROOT_VALUE mesh) None)
                               | _ =>
                                   CalledExecute e
                                     (executionArgs mesh e (inr document)
                                        (default (EMPTY_VARIABLES_VALUE mesh) variables)
                                        (mergedContext globalContext contextValue w1)
                                        (EMPTY_ROOT_VALUE mesh) None)
                               end w2)).
  { unfold w', afterCall. by rewrite (requester_world _ _ _ _ _ _ _ _ _ _ Hop He). }
  simpl in He2. rewrite Hn in He2.
  assert (Hfresh : forall r e0,
            envelopedCacheOf r w !! MergedContext (nextMerged w) = Some e0 -> False).
  { intros r e0 Hl. specialize (Hb r _ e0 Hl). lia. }
  split; [|split].
  - rewrite (counted_getEnveloped w Hc).
    destruct (factoryCache w !! plugins mesh) as [f0|]; [|done].
    destruct (envelopedCacheOf (factory_ref f0) w !! MergedContext (nextMerged w))
      as [e0|] eqn:Hl; [|done].
    by destruct (Hfresh _ _ Hl).
  - rewrite (counted_getEnveloped w' Hc').
    assert (Hmemo : memo w' = memo w2) by (by rewrite Hw').
    assert (Hf' : factoryCache w' !! plugins mesh = Some f).
    { unfold memo in Hmemo. injection Hmemo as -> _ _. done. }
    rewrite Hf', (envelopedCacheOf_memo _ w' w2 Hmemo), He2. done.
  - exists e. split; [|split].
    + rewrite Hw'. unfold lastServed, emit. simpl. rewrite last_snoc.
      by destruct operation.
    + unfold envelopedCacheOf in He2.
      destruct (envelopedCache w2 !! factory_ref f) as [m|] eqn:Hmap;
        simpl in He2; [|by rewrite lookup_empty in He2].
      by destruct (sound_enveloped w2 Hs2 _ _ _ _ Hmap He2).
    + intros r c e0 Hl ->.
      assert (Hce : env_initialContext e = MergedContext (nextMerged w)).
      { unfold envelopedCacheOf in He2.
        destruct (envelopedCache w2 !! factory_ref f) as [m|] eqn:Hmap;
          simpl in He2; [|by rewrite lookup_empty in He2].
        by destruct (sound_enveloped w2 Hs2 _ _ _ _ Hmap He2). }
      assert (Hc0 : env_initialContext e = c).
      { unfold envelopedCacheOf in Hl.
        destruct (envelopedCache w !! r) as [m|] eqn:Hmap;
          simpl in Hl; [|by rewrite lookup_empty in Hl].
        by destruct (sound_enveloped w (counted_sound w Hc) _ _ _ _ Hmap Hl). }
      rewrite Hce in Hc0. subst c. by destruct (Hfresh _ _ Hl).
Qed.

(** A requester call after two calls of [execute] with the context
    object [contextA]. *)
Lemma requester_sets_up_new_pipeline_witness :
  let w := afterCalls initialWorld twoCallsOneContext in
  let w' := afterCall w (CallRequester sampleMesh ∅ queryDocument None None) in
  getEnvelopedCalls 100 (MergedContext (nextMerged w)) (trace w) = 0 /\
  getEnvelopedCalls 100 (MergedContext (nextMerged w)) (trace w') = 1 /\
  exists e,
    lastServed w' = Some e /\
    env_initialContext e = MergedContext (nextMerged w) /\
    forall r c e0, envelopedCacheOf r w !! c = Some e0 -> e0 <> e.
Proof.
  pose (w1 := snd (memoizedGetOperationType queryDocument
                     (afterCalls initialWorld twoCallsOneContext))).
  assert (Hop : memoizedGetOperationType queryDocument
                  (afterCalls initialWorld twoCallsOneContext)
                = (Returns query, w1)) by (vm_compute; reflexivity).
  apply (requester_sets_up_new_pipeline twoCallsOneContext sampleMesh ∅ queryDocument
           None None query w1); [|exact Hop].
  repeat constructor; intros cv n [= <-]; discriminate.
Defined.
